(** * Quiz application: question validation, fallback bank, shuffle and
      quiz session, embedded from [aiService.js], [App.jsx] and
      [QuizDisplay.jsx]. *)

From Stdlib Require Import Ascii String QArith Qround Qpower Lqa.
From stdpp Require Import gmap list strings.

Set Warnings "-register-all".

Local Open Scope string_scope.
Local Open Scope list_scope.

(** ** JavaScript strings

    A JavaScript string is a sequence of UTF-16 code units. *)

Definition jsstring := list N.

(** ASCII literals of the source, one code unit per character. *)
Definition js (s : string) : jsstring :=
  map (fun a => N_of_ascii a) (list_ascii_of_string s).

(** [WhiteSpace] and [LineTerminator] code units of ECMAScript, the
    characters removed by [String.prototype.trim]. *)
Definition is_white (c : N) : bool :=
  (N.eqb c 9 || N.eqb c 10 || N.eqb c 11 || N.eqb c 12 || N.eqb c 13
   || N.eqb c 32 || N.eqb c 160 || N.eqb c 5760
   || (N.leb 8192 c && N.leb c 8202)
   || N.eqb c 8232 || N.eqb c 8233 || N.eqb c 8239 || N.eqb c 8287
   || N.eqb c 12288 || N.eqb c 65279)%bool.

Fixpoint trimStart (s : jsstring) : jsstring :=
  match s with
  | [] => []
  | c :: s' => if is_white c then trimStart s' else s
  end.

Definition trimEnd (s : jsstring) : jsstring := rev (trimStart (rev s)).

(** [s.trim()] *)
Definition trim (s : jsstring) : jsstring := trimEnd (trimStart s).

(** ** JavaScript values, as [JSON.parse] and property reads produce them.

    A number is the rational a finite double denotes ([JSON.parse] yields
    neither NaN nor an infinity); the code only compares numbers.  An
    object lists its own properties, each key once. *)

Inductive value : Type :=
| VUndefined
| VNull
| VBool (b : bool)
| VNum (n : Q)
| VStr (s : jsstring)
| VArr (elems : list value)
| VObj (props : list (jsstring * value)).

Inductive jstype := TUndefined | TObject | TBoolean | TNumber | TString.

(** [typeof v] *)
Definition typeof (v : value) : jstype :=
  match v with
  | VUndefined => TUndefined
  | VNull => TObject
  | VBool _ => TBoolean
  | VNum _ => TNumber
  | VStr _ => TString
  | VArr _ => TObject
  | VObj _ => TObject
  end.

(** [typeof v === 'string'] *)
Definition is_string (v : value) : bool :=
  match typeof v with TString => true | _ => false end.

(** [ToBoolean v], the test behind [!v] and [||]. *)
Definition truthy (v : value) : bool :=
  match v with
  | VUndefined => false
  | VNull => false
  | VBool b => b
  | VNum n => negb (Qeq_bool n 0)
  | VStr s => match s with [] => false | _ => true end
  | VArr _ => true
  | VObj _ => true
  end.

(** [v.key] for the keys the service reads: [question], [options],
    [correctAnswer], [explanation], [error], [choices], [message] and
    [content].  None of them is a member of a built-in prototype, so only
    own properties of an object count; a primitive, an array or a string
    has none of them, and reading a property of [null] or [undefined]
    raises a [TypeError] ([None]). *)
Fixpoint own (props : list (jsstring * value)) (key : jsstring) : value :=
  match props with
  | [] => VUndefined
  | (k, v) :: rest => if decide (k = key) then v else own rest key
  end.

Definition get (v : value) (key : jsstring) : option value :=
  match v with
  | VUndefined | VNull => None
  | VObj props => Some (own props key)
  | _ => Some VUndefined
  end.

(** ** Errors *)

Inductive message :=
| ApiKeyNotConfigured          (* 'OpenAI API key not configured. ...' *)
| ApiFailure                   (* error.error?.message || 'Failed to generate questions' *)
| ExpectedArray                (* 'Invalid response format: expected array of questions' *)
| MissingQuestionText (n : nat)  (* `Question ${n}: Missing or invalid question text` *)
| NotFourOptions (n : nat)       (* `Question ${n}: Must have exactly 4 options` *)
| OptionsNotStrings (n : nat)    (* `Question ${n}: All options must be strings` *)
| CorrectAnswerRange (n : nat)   (* `Question ${n}: correctAnswer must be 0-3` *)
| MissingExplanation (n : nat).  (* `Question ${n}: Missing or invalid explanation` *)

Inductive exn :=
| Error (m : message)   (* throw new Error(m) *)
| TypeError             (* raised by the runtime *)
| SyntaxError           (* raised by JSON.parse and response.json() *)
| NetworkError.         (* fetch rejected *)

Inductive result (A : Type) :=
| Ok (a : A)
| Throw (e : exn).
Arguments Ok {A} a.
Arguments Throw {A} e.

(** Sequencing: an exception skips the rest of the block. *)
#[export] Instance result_bind : MBind result := fun A B k r =>
  match r with
  | Ok a => k a
  | Throw e => Throw e
  end.

(** ** Questions *)

Record Question := mkQuestion {
  question : jsstring;
  options : list jsstring;
  correctAnswer : Q;
  explanation : jsstring
}.

(** The object literal [{question, options, correctAnswer, explanation}]. *)
Definition to_value (q : Question) : value :=
  VObj [ (js "question", VStr (question q));
         (js "options", VArr (map VStr (options q)));
         (js "correctAnswer", VNum (correctAnswer q));
         (js "explanation", VStr (explanation q)) ].

Definition str_of (v : value) : jsstring :=
  match v with VStr s => s | _ => [] end.

(** The callback of [questions.map((q, index) => ...)] in
    [generateQuizQuestions]: validate and clean one candidate. *)
Definition validateQuestion (q : value) (index : nat) : result Question :=
  match get q (js "question") with
  | None => Throw TypeError
  | Some qq =>
    if negb (truthy qq) || negb (is_string qq)
    then Throw (Error (MissingQuestionText (index + 1)))
    else
      match get q (js "options") with
      | None => Throw TypeError
      | Some (VArr opts) =>
        if negb (length opts =? 4)%nat
        then Throw (Error (NotFourOptions (index + 1)))
        else if existsb (fun opt => negb (is_string opt)) opts
        then Throw (Error (OptionsNotStrings (index + 1)))
        else
          match get q (js "correctAnswer") with
          | None => Throw TypeError
          | Some (VNum n) =>
            if Qlt_le_dec n 0 then Throw (Error (CorrectAnswerRange (index + 1)))
            else if Qlt_le_dec 3 n then Throw (Error (CorrectAnswerRange (index + 1)))
            else
              match get q (js "explanation") with
              | None => Throw TypeError
              | Some ex =>
                if negb (truthy ex) || negb (is_string ex)
                then Throw (Error (MissingExplanation (index + 1)))
                else Ok {| question := trim (str_of qq);
                           options := map (fun opt => trim (str_of opt)) opts;
                           correctAnswer := n;
                           explanation := trim (str_of ex) |}
              end
          | Some _ => Throw (Error (CorrectAnswerRange (index + 1)))
          end
      | Some _ => Throw (Error (NotFourOptions (index + 1)))
      end
  end.

(** [questions.map(validate)]: candidates are visited in order and the
    first exception ends the whole map. *)
Fixpoint validateFrom (index : nat) (qs : list value) : result (list Question) :=
  match qs with
  | [] => Ok []
  | q :: rest =>
    v ← validateQuestion q index;
    vs ← validateFrom (S index) rest;
    Ok (v :: vs)
  end.

(** ** Shuffle

    JavaScript numbers are IEEE 754 doubles.  A finite double is written
    here as the rational it denotes; the product of two doubles is the
    exact product rounded to the nearest double, ties to the even
    significand. *)

(** The integer nearest to [y], the even one of the two on a tie. *)
Definition roundHalfEven (y : Q) : Z :=
  let f := Qfloor y in
  match (y - inject_Z f ?= 1 # 2)%Q with
  | Lt => f
  | Gt => (f + 1)%Z
  | Eq => if Z.even f then f else (f + 1)%Z
  end.

(** The exponent of the binade of [x > 0]: the [l] with
    [2^l <= x < 2^(l+1)].  The difference of the bit lengths of numerator
    and denominator is [l] or [l + 1]. *)
Definition floorLog2 (x : Q) : Z :=
  let k := (Z.log2 (Qnum x) - Z.log2 (Z.pos (Qden x)))%Z in
  if Qle_bool (2 ^ k) x then k else (k - 1)%Z.

(** The double nearest to [x >= 0].  In the binade of exponent [l] the
    doubles are the multiples of [2^(l-52)], a significand of 53 bits; the
    subnormal numbers, below [2^-1022], are the multiples of [2^-1074]. *)
Definition roundNonneg (x : Q) : Q :=
  let e := Z.max (-1074) (floorLog2 x - 52) in
  (inject_Z (roundHalfEven (x / 2 ^ e)) * 2 ^ e)%Q.

(** Rounding to the nearest double is symmetric about zero.  Numbers
    beyond the largest finite double, which round to an infinity, do not
    arise: the shuffle rounds the product of a number below one and an
    array length. *)
Definition round64 (x : Q) : Q :=
  if Qlt_le_dec x 0 then (- roundNonneg (- x))%Q else roundNonneg x.

(** The finite doubles: [m * 2^e] with a significand [m] of at most 53
    bits and an exponent [e] from -1074 to 971. *)
Definition is_double (x : Q) : Prop :=
  exists m e : Z, (Z.abs m < 2 ^ 53)%Z /\ (-1074 <= e <= 971)%Z /\
    (x == inject_Z m * 2 ^ e)%Q.

(** [Math.random()] is an oracle: [rand k] is the number its [k]-th call
    returns, a double in the half-open unit interval. *)
Definition in_unit (r : Q) : Prop := is_double r /\ (0 <= r)%Q /\ (r < 1)%Q.

(** [Math.floor(r * (i + 1))]: [i + 1] is exact (an array has fewer than
    [2^32] elements), the product is rounded to a double, and the floor
    of a double is exact. *)
Definition randomIndex (r : Q) (i : nat) : nat :=
  Z.to_nat (Qfloor (round64 (r * inject_Z (Z.of_nat (i + 1))))).

(** [[a[i], a[j]] = [a[j], a[i]]]: the right-hand side is read first, then
    [a[i]] and [a[j]] are written in that order.  Both indices are inside
    the array wherever the shuffle swaps ([randomIndex_le]); outside, where
    JavaScript would grow the array with holes, the list is left as is. *)
Definition swap {A} (a : list A) (i j : nat) : list A :=
  match a !! j, a !! i with
  | Some aj, Some ai => <[j := ai]> (<[i := aj]> a)
  | _, _ => a
  end.

(** The loop [for (let i = n; i > 0; i--) { j = ...; swap }], where [k]
    counts the calls of [Math.random] so far. *)
Fixpoint shuffleLoop {A} (rand : nat -> Q) (k i : nat) (shuffled : list A) : list A :=
  match i with
  | 0 => shuffled
  | S i' =>
    let j := randomIndex (rand k) i in
    shuffleLoop rand (S k) i' (swap shuffled i j)
  end.

(** [shuffleArray(array)], as a function of the array's contents. *)
Definition shuffleArray {A} (rand : nat -> Q) (array : list A) : list A :=
  let shuffled := array in
  shuffleLoop rand 0 (length shuffled - 1) shuffled.

(** The same function on a store of arrays, where [[...array]] allocates
    and every swap writes into the allocated array. *)
Module Store.

Definition loc := nat.

Section Arrays.
Context {A : Type}.

Definition alloc (h : gmap loc (list A)) (content : list A)
  : loc * gmap loc (list A) :=
  let p := fresh (dom h) in (p, <[p := content]> h).

(** One assignment [[s[i], s[j]] = [s[j], s[i]]] on the array at [s]. *)
Definition swapAt (h : gmap loc (list A)) (s : loc) (i j : nat)
  : gmap loc (list A) :=
  match h !! s with
  | Some a => <[s := swap a i j]> h
  | None => h
  end.

Fixpoint shuffleLoop (rand : nat -> Q) (k i : nat) (s : loc)
  (h : gmap loc (list A)) : gmap loc (list A) :=
  match i with
  | 0 => h
  | S i' =>
    let j := randomIndex (rand k) i in
    shuffleLoop rand (S k) i' s (swapAt h s i j)
  end.

(** Returns the reference held by [shuffled] and the store after the
    call; [None] when [array] is not an array of the store. *)
Definition shuffleArray (rand : nat -> Q) (h : gmap loc (list A))
  (array : loc) : option (loc * gmap loc (list A)) :=
  match h !! array with
  | None => None
  | Some content =>
    let '(shuffled, h1) := alloc h content in
    Some (shuffled, shuffleLoop rand 0 (length content - 1) shuffled h1)
  end.

End Arrays.

End Store.

(** ** The question bank of [generateMockQuestions]

    The selection screen offers exactly the difficulties ['easy'],
    ['medium'] and ['hard']; a subject is any string. *)

Inductive Difficulty := easy | medium | hard.

(** The value of one subject: the object [{ easy: [...], medium: [...],
    hard: [...] }]. *)
Record Levels := mkLevels {
  easy_list : list Question;
  medium_list : list Question;
  hard_list : list Question
}.

Definition DataStructures_easy : list Question :=
  [ {| question := js "Which data structure uses LIFO (Last In First Out) principle?";
       options := [js "Queue"; js "Stack"; js "Tree"; js "Graph"];
       correctAnswer := 1;
       explanation := js "Stack follows LIFO principle where the last element inserted is removed first." |};
    {| question := js "What is an array?";
       options := [js "A list of elements"; js "A collection of elements of the same type stored in contiguous memory"; js "A function"; js "A variable"];
       correctAnswer := 1;
       explanation := js "An array is a data structure that stores elements of the same type in contiguous memory locations." |};
    {| question := js "Which data structure uses FIFO (First In First Out) principle?";
       options := [js "Stack"; js "Queue"; js "Tree"; js "Graph"];
       correctAnswer := 1;
       explanation := js "Queue follows FIFO principle where the first element inserted is removed first." |};
    {| question := js "What is a linked list?";
       options := [js "A list with links"; js "A data structure where elements are connected using pointers"; js "An array"; js "A tree"];
       correctAnswer := 1;
       explanation := js "A linked list is a data structure where each element (node) contains data and a reference to the next node." |};
    {| question := js "What is the main advantage of using a linked list over an array?";
       options := [js "Faster access"; js "Dynamic size"; js "Less memory"; js "No sorting needed"];
       correctAnswer := 1;
       explanation := js "Linked lists have dynamic size and can easily insert/delete elements without resizing." |} ].

Definition DataStructures_medium : list Question :=
  [ {| question := js "What is the time complexity of inserting an element at the beginning of a linked list?";
       options := [js "O(n)"; js "O(log n)"; js "O(1)"; (js "O(n" ++ [178%N] ++ js ")")];
       correctAnswer := 2;
       explanation := js "Insertion at the beginning of a linked list is O(1) because we only need to update pointers." |};
    {| question := js "What is the space complexity of a balanced binary search tree with n nodes?";
       options := [js "O(1)"; js "O(log n)"; js "O(n)"; (js "O(n" ++ [178%N] ++ js ")")];
       correctAnswer := 2;
       explanation := js "A balanced BST with n nodes requires O(n) space to store all nodes." |};
    {| question := js "Which of the following is NOT a linear data structure?";
       options := [js "Array"; js "Stack"; js "Queue"; js "Tree"];
       correctAnswer := 3;
       explanation := js "Tree is a non-linear data structure, while Array, Stack, and Queue are linear." |};
    {| question := js "What is the time complexity of searching in a hash table?";
       options := [js "O(n)"; js "O(log n)"; js "O(1) average case"; (js "O(n" ++ [178%N] ++ js ")")];
       correctAnswer := 2;
       explanation := js "Hash table provides O(1) average case time complexity for search operations." |};
    {| question := js "What is a binary tree?";
       options := [js "A tree with 2 elements"; js "A tree where each node has at most 2 children"; js "A tree with 2 levels"; js "A sorted tree"];
       correctAnswer := 1;
       explanation := js "A binary tree is a tree structure where each node has at most two children (left and right)." |} ].

Definition DataStructures_hard : list Question :=
  [ {| question := js "What is the time complexity of inserting an element in a balanced AVL tree?";
       options := [js "O(1)"; js "O(log n)"; js "O(n)"; js "O(n log n)"];
       correctAnswer := 1;
       explanation := js "AVL trees maintain balance, ensuring O(log n) insertion time complexity." |};
    {| question := js "What is the difference between a heap and a binary search tree?";
       options := [js "No difference"; js "Heap is for searching, BST is for sorting"; js "Heap maintains heap property, BST maintains ordering property"; js "Heap is faster"];
       correctAnswer := 2;
       explanation := js "Heaps satisfy the heap property (parent-child ordering), while BSTs maintain left < parent < right ordering." |};
    {| question := js "What is the time complexity of finding the k-th smallest element in a BST?";
       options := [js "O(1)"; js "O(log n)"; js "O(n)"; js "O(k log n)"];
       correctAnswer := 2;
       explanation := js "Finding k-th smallest requires traversal, giving O(n) worst-case time complexity." |};
    {| question := js "What are the advantages of using a skip list?";
       options := [js "Simpler than BST"; js "Probabilistic balancing with O(log n) operations"; js "No memory overhead"; js "Cache friendly"];
       correctAnswer := 1;
       explanation := js "Skip lists provide probabilistic balancing and achieve O(log n) search time without complex rotations." |};
    {| question := js "What is a self-balancing BST?";
       options := [js "A BST that sorts itself"; js "A BST that maintains balance through rotations to ensure O(log n) operations"; js "A BST with 2 children"; js "A readonly BST"];
       correctAnswer := 1;
       explanation := js "Self-balancing BSTs (like AVL, Red-Black) automatically rebalance to maintain O(log n) complexity." |} ].

Definition Algorithms_easy : list Question :=
  [ {| question := js "What is a sorting algorithm?";
       options := [js "A program"; js "A method to arrange elements in order"; js "A search function"; js "A loop"];
       correctAnswer := 1;
       explanation := js "A sorting algorithm is a step-by-step procedure to arrange elements in a specific order." |};
    {| question := js "Which sorting algorithm compares adjacent elements?";
       options := [js "Quick Sort"; js "Merge Sort"; js "Bubble Sort"; js "Heap Sort"];
       correctAnswer := 2;
       explanation := js "Bubble sort compares adjacent elements and swaps them if they are in wrong order." |};
    {| question := js "What is the worst-case time complexity of bubble sort?";
       options := [js "O(n)"; js "O(n log n)"; (js "O(n" ++ [178%N] ++ js ")"); js "O(2^n)"];
       correctAnswer := 2;
       explanation := (js "Bubble sort has O(n" ++ [178%N] ++ js ") worst-case complexity when the array is in reverse order.") |};
    {| question := js "What is a search algorithm?";
       options := [js "A sorting method"; js "A procedure to find an element in a collection"; js "A loop"; js "A condition"];
       correctAnswer := 1;
       explanation := js "A search algorithm is used to locate a specific element within a data structure." |};
    {| question := js "What is linear search?";
       options := [js "Search in a line"; js "Searching each element sequentially"; js "Dividing and searching"; js "Random search"];
       correctAnswer := 1;
       explanation := js "Linear search checks each element one by one until the target is found." |} ].

Definition Algorithms_medium : list Question :=
  [ {| question := js "What is the time complexity of binary search?";
       options := [js "O(n)"; js "O(log n)"; (js "O(n" ++ [178%N] ++ js ")"); js "O(2^n)"];
       correctAnswer := 1;
       explanation := js "Binary search has O(log n) complexity as it divides the search space in half each time." |};
    {| question := js "Which algorithm design paradigm does Merge Sort use?";
       options := [js "Greedy"; js "Dynamic Programming"; js "Divide and Conquer"; js "Brute Force"];
       correctAnswer := 2;
       explanation := js "Merge Sort uses Divide and Conquer by dividing array in half and merging sorted subarrays." |};
    {| question := js "What is the best case time complexity of quick sort?";
       options := [js "O(n)"; js "O(n log n)"; (js "O(n" ++ [178%N] ++ js ")"); js "O(log n)"];
       correctAnswer := 1;
       explanation := js "Quick sort has O(n log n) best case when the pivot divides the array equally." |};
    {| question := js "What is dynamic programming?";
       options := [js "Programming that changes"; js "Solving problems by breaking into subproblems and storing results"; js "Using loops"; js "Random algorithm"];
       correctAnswer := 1;
       explanation := js "Dynamic programming solves complex problems by breaking them into simpler subproblems and memoizing results." |};
    {| question := js "What is the time complexity of merge sort?";
       options := [js "O(n)"; js "O(n log n)"; (js "O(n" ++ [178%N] ++ js ")"); js "O(2^n)"];
       correctAnswer := 1;
       explanation := js "Merge sort has O(n log n) time complexity in all cases (best, average, worst)." |} ].

Definition Algorithms_hard : list Question :=
  [ {| question := js "What is the time complexity of the best implementation of quick sort?";
       options := [js "O(n)"; js "O(n log n)"; (js "O(n" ++ [178%N] ++ js ")"); js "O(log n)"];
       correctAnswer := 1;
       explanation := js "With good pivot selection, quick sort achieves O(n log n) average case complexity." |};
    {| question := js "What problem can be solved using the Floyd-Warshall algorithm?";
       options := [js "Sorting"; js "All-pairs shortest path"; js "Searching"; js "Hashing"];
       correctAnswer := 1;
       explanation := js "Floyd-Warshall finds shortest paths between all pairs of vertices in a graph." |};
    {| question := js "What is memoization in dynamic programming?";
       options := [js "Writing notes"; js "Storing results of expensive function calls"; js "Sorting data"; js "Searching"];
       correctAnswer := 1;
       explanation := js "Memoization stores computed results to avoid redundant calculations, improving efficiency." |};
    {| question := js "What is a greedy algorithm?";
       options := [js "An algorithm that sorts"; js "An algorithm that makes locally optimal choices"; js "An algorithm for searching"; js "An algorithm for hashing"];
       correctAnswer := 1;
       explanation := js "A greedy algorithm makes locally optimal choices at each step, hoping to find global optimum." |};
    {| question := js "What is the longest common subsequence (LCS) problem?";
       options := [js "Finding longest word"; js "Finding the longest sequence common to two sequences"; js "Sorting sequences"; js "Comparing numbers"];
       correctAnswer := 1;
       explanation := js "LCS finds the longest subsequence present in both sequences in the same order." |} ].

Definition DatabaseManagement_easy : list Question :=
  [ {| question := js "What is a database?";
       options := [js "A file"; js "An organized collection of structured data"; js "A program"; js "A server"];
       correctAnswer := 1;
       explanation := js "A database is an organized collection of structured data stored and managed efficiently." |};
    {| question := js "What does SQL stand for?";
       options := [js "Structured Question Language"; js "Structured Query Language"; js "Simple Query Logic"; js "Sequential Query Language"];
       correctAnswer := 1;
       explanation := js "SQL stands for Structured Query Language, used to query and manage databases." |};
    {| question := js "What is a primary key?";
       options := [js "A password"; js "A unique identifier for each record"; js "A type of key"; js "A foreign key"];
       correctAnswer := 1;
       explanation := js "A primary key is a unique identifier that uniquely identifies each record in a table." |};
    {| question := js "What is a table?";
       options := [js "Furniture"; js "A collection of rows and columns"; js "A file"; js "A database"];
       correctAnswer := 1;
       explanation := js "A table is a structured collection of data organized in rows (records) and columns (attributes)." |};
    {| question := js "What is a row in a table?";
       options := [js "A line"; js "A single record"; js "A column"; js "A database"];
       correctAnswer := 1;
       explanation := js "A row represents a single record in a table, containing values for each column." |} ].

Definition DatabaseManagement_medium : list Question :=
  [ {| question := js "What does ACID stand for in database transactions?";
       options := [js "Atomicity, Consistency, Isolation, Durability"; js "Access, Control, Index, Data"; js "Accuracy, Clarity, Index, Data"; js "Atomicity, Control, Isolation, Durability"];
       correctAnswer := 0;
       explanation := js "ACID properties ensure reliable database transactions and data integrity." |};
    {| question := js "Which normal form eliminates partial dependencies?";
       options := [js "1NF"; js "2NF"; js "3NF"; js "BCNF"];
       correctAnswer := 1;
       explanation := js "2NF (Second Normal Form) eliminates partial dependencies from 1NF." |};
    {| question := js "What is the purpose of an index in a database?";
       options := [js "Store data"; js "Faster data retrieval"; js "Ensure uniqueness"; js "Backup data"];
       correctAnswer := 1;
       explanation := js "Indexes speed up data retrieval operations by reducing the amount of data to scan." |};
    {| question := js "What is a foreign key?";
       options := [js "Primary key in another table"; js "A key that references primary key in another table"; js "Duplicate of primary key"; js "Encrypted key"];
       correctAnswer := 1;
       explanation := js "A foreign key is an attribute that references the primary key of another table, maintaining referential integrity." |};
    {| question := js "What is normalization?";
       options := [js "Making data normal"; js "Process of organizing data to reduce redundancy"; js "Backup process"; js "Sorting data"];
       correctAnswer := 1;
       explanation := js "Normalization is the process of organizing database tables to minimize redundancy and improve data integrity." |} ].

Definition DatabaseManagement_hard : list Question :=
  [ {| question := js "What is Boyce-Codd Normal Form (BCNF)?";
       options := [js "A relaxation of 3NF"; js "A stricter form of 3NF for every determinant to be a candidate key"; js "A form of denormalization"; js "A backup method"];
       correctAnswer := 1;
       explanation := js "BCNF is a stricter normal form where every determinant must be a candidate key." |};
    {| question := js "What is a transaction?";
       options := [js "A transfer"; js "A sequence of database operations treated as a single unit"; js "A query"; js "An index"];
       correctAnswer := 1;
       explanation := js "A transaction is a sequence of operations that must be completed atomically (all or nothing)." |};
    {| question := js "What is query optimization?";
       options := [js "Making queries faster"; js "Process of finding the most efficient way to execute a query"; js "Backup optimization"; js "Data compression"];
       correctAnswer := 1;
       explanation := js "Query optimization involves selecting the most efficient execution plan for database queries." |};
    {| question := js "What is a stored procedure?";
       options := [js "A saved query"; js "Precompiled code stored in the database for reuse"; js "A backup"; js "An index"];
       correctAnswer := 1;
       explanation := js "A stored procedure is precompiled database code that performs specific operations and can be called multiple times." |};
    {| question := js "What is database replication?";
       options := [js "Copying data"; js "Maintaining copies of database across multiple systems for redundancy and availability"; js "Backup"; js "Compression"];
       correctAnswer := 1;
       explanation := js "Database replication creates copies of data across multiple systems to ensure redundancy and high availability." |} ].

Definition OperatingSystems_easy : list Question :=
  [ {| question := js "What is an operating system?";
       options := [js "Software"; js "System software that manages hardware and provides services to applications"; js "A program"; js "A hardware"];
       correctAnswer := 1;
       explanation := js "An OS is system software that manages computer hardware and provides services to applications." |};
    {| question := js "What is a process?";
       options := [js "A program"; js "A running instance of a program with its own memory and resources"; js "A file"; js "A thread"];
       correctAnswer := 1;
       explanation := js "A process is an executing instance of a program with its own memory space and resources." |};
    {| question := js "What is a thread?";
       options := [js "A line"; js "A lightweight unit of execution within a process"; js "A process"; js "A program"];
       correctAnswer := 1;
       explanation := js "A thread is a lightweight unit of execution that shares memory with other threads in the same process." |};
    {| question := js "What is CPU scheduling?";
       options := [js "Fixing CPU"; js "Allocating CPU time to processes"; js "Organizing processes"; js "Sorting processes"];
       correctAnswer := 1;
       explanation := js "CPU scheduling determines which process gets to use the CPU at any given time." |};
    {| question := js "What is virtual memory?";
       options := [js "RAM"; js "Extended memory using disk storage"; js "Cache memory"; js "ROM"];
       correctAnswer := 1;
       explanation := js "Virtual memory uses disk storage to extend available memory, allowing programs larger than physical RAM." |} ].

Definition OperatingSystems_medium : list Question :=
  [ {| question := js "Which scheduling algorithm is used in most modern OS?";
       options := [js "FCFS"; js "SJF"; js "Round Robin"; js "Priority Scheduling"];
       correctAnswer := 2;
       explanation := js "Round Robin is commonly used as it provides fairness and prevents starvation." |};
    {| question := js "What is a deadlock in operating systems?";
       options := [js "System crash"; js "Situation where two or more processes wait indefinitely for each other"; js "Memory full"; js "CPU overload"];
       correctAnswer := 1;
       explanation := js "Deadlock occurs when processes hold resources and wait for resources held by others, causing indefinite wait." |};
    {| question := js "What is the difference between a process and a thread?";
       options := [js "No difference"; js "Process has independent memory, thread shares memory with process"; js "Thread is faster"; js "Process is faster"];
       correctAnswer := 1;
       explanation := js "Processes have independent memory spaces, while threads within a process share the same memory space." |};
    {| question := js "What is synchronization?";
       options := [js "Organizing files"; js "Coordinating access to shared resources"; js "Backing up data"; js "Sorting"];
       correctAnswer := 1;
       explanation := js "Synchronization ensures proper coordination of multiple processes accessing shared resources." |};
    {| question := js "What is a semaphore?";
       options := [js "A signal"; js "A synchronization primitive used to control access to shared resources"; js "A thread"; js "A process"];
       correctAnswer := 1;
       explanation := js "A semaphore is a synchronization primitive that uses counters to manage access to shared resources." |} ].

Definition OperatingSystems_hard : list Question :=
  [ {| question := js "What is the Banker's algorithm used for?";
       options := [js "Banking"; js "Deadlock avoidance"; js "Scheduling"; js "Memory management"];
       correctAnswer := 1;
       explanation := js "The Banker's algorithm is a deadlock avoidance algorithm that checks if resource allocation is safe." |};
    {| question := js "What is cache coherence?";
       options := [js "Logical organization"; js "Ensuring consistency of data across multiple caches in multiprocessor systems"; js "Memory management"; js "Disk caching"];
       correctAnswer := 1;
       explanation := js "Cache coherence maintains consistency when multiple processors have copies of the same data." |};
    {| question := js "What is page replacement?";
       options := [js "Replacing pages"; js "Algorithm to decide which page to evict from memory when new page is needed"; js "Sorting"; js "Compression"];
       correctAnswer := 1;
       explanation := js "Page replacement algorithms decide which page in memory should be replaced when a new page is needed." |};
    {| question := js "What is context switching?";
       options := [js "Changing context"; js "Process of saving and restoring state to switch between processes"; js "Swapping memory"; js "Scheduling"];
       correctAnswer := 1;
       explanation := js "Context switching saves one process state and loads another, allowing CPU to execute different processes." |};
    {| question := js "What is a race condition?";
       options := [js "A competition"; js "Situation where multiple threads access shared data and result depends on timing"; js "A deadlock"; js "A starvation"];
       correctAnswer := 1;
       explanation := js "A race condition occurs when multiple threads access shared data and outcome depends on timing of execution." |} ].

Definition ComputerNetworks_easy : list Question :=
  [ {| question := js "What is a computer network?";
       options := [js "A computer"; js "Connected computers sharing data and resources"; js "A wire"; js "Software"];
       correctAnswer := 1;
       explanation := js "A computer network is a system of connected computers that can share data and resources." |};
    {| question := js "What is the Internet?";
       options := [js "A computer"; js "Global system of interconnected networks"; js "A wire"; js "A protocol"];
       correctAnswer := 1;
       explanation := js "The Internet is a global system of interconnected networks using standardized protocols." |};
    {| question := js "What is an IP address?";
       options := [js "A password"; js "A unique numerical label identifying devices on network"; js "A domain name"; js "A URL"];
       correctAnswer := 1;
       explanation := js "An IP address is a unique numerical identifier assigned to each device on a network." |};
    {| question := js "What is a protocol?";
       options := [js "A procedure"; js "A set of rules for communication between devices"; js "A software"; js "A hardware"];
       correctAnswer := 1;
       explanation := js "A protocol is a set of rules that defines how devices communicate over a network." |};
    {| question := js "What is HTTP?";
       options := [js "A server"; js "Hypertext Transfer Protocol for web communication"; js "A database"; js "A programming language"];
       correctAnswer := 1;
       explanation := js "HTTP is the Hypertext Transfer Protocol used for transferring web pages over the Internet." |} ].

Definition ComputerNetworks_medium : list Question :=
  [ {| question := js "Which layer of OSI model handles routing?";
       options := [js "Data Link Layer"; js "Network Layer"; js "Transport Layer"; js "Application Layer"];
       correctAnswer := 1;
       explanation := js "The Network Layer (Layer 3) is responsible for routing and logical addressing." |};
    {| question := js "What is the purpose of TCP?";
       options := [js "Unreliable data transfer"; js "Reliable, connection-oriented data transfer"; js "Fast transfer"; js "Broadcast"];
       correctAnswer := 1;
       explanation := js "TCP provides reliable, connection-oriented delivery of data with error checking." |};
    {| question := js "What is DNS?";
       options := [js "A server"; js "Domain Name System that translates domain names to IP addresses"; js "A protocol"; js "An IP address"];
       correctAnswer := 1;
       explanation := js "DNS (Domain Name System) translates human-readable domain names into IP addresses." |};
    {| question := js "Which protocol resolves IP addresses to MAC addresses?";
       options := [js "DHCP"; js "DNS"; js "ARP"; js "IGMP"];
       correctAnswer := 2;
       explanation := js "ARP (Address Resolution Protocol) maps IP addresses to MAC addresses." |};
    {| question := js "What is a firewall?";
       options := [js "A wall"; js "Security system monitoring and controlling network traffic"; js "A router"; js "A modem"];
       correctAnswer := 1;
       explanation := js "A firewall is a security system that monitors and controls incoming and outgoing network traffic." |} ].

Definition ComputerNetworks_hard : list Question :=
  [ {| question := js "What is the three-way handshake in TCP?";
       options := [js "Three connections"; js "SYN, SYN-ACK, ACK sequence to establish connection"; js "Three packets"; js "Three protocols"];
       correctAnswer := 1;
       explanation := js "Three-way handshake (SYN, SYN-ACK, ACK) establishes a TCP connection between client and server." |};
    {| question := js "What is congestion control in TCP?";
       options := [js "Controlling traffic"; js "Mechanism to avoid network congestion by adjusting sending rate"; js "Router function"; js "Firewall function"];
       correctAnswer := 1;
       explanation := js "Congestion control adjusts TCP sending rate to prevent network congestion and packet loss." |};
    {| question := js "What is a subnet?";
       options := [js "A network"; js "A subdivision of IP network with shared network address"; js "A protocol"; js "A server"];
       correctAnswer := 1;
       explanation := js "A subnet is a logical subdivision of an IP network, allowing better organization and security." |};
    {| question := js "What is QoS in networking?";
       options := [js "Quality control"; js "Quality of Service - ensuring performance levels for network traffic"; js "A router"; js "A protocol"];
       correctAnswer := 1;
       explanation := js "QoS (Quality of Service) ensures acceptable performance levels for critical network traffic." |};
    {| question := js "What is NAT?";
       options := [js "A protocol"; js "Network Address Translation - translating between private and public IP addresses"; js "A server"; js "A firewall"];
       correctAnswer := 1;
       explanation := js "NAT (Network Address Translation) allows private IP addresses to communicate with public networks." |} ].

Definition WebDevelopment_easy : list Question :=
  [ {| question := js "What does HTML stand for?";
       options := [js "Hypertext Markup Language"; js "High Tech Modern Language"; js "Home Tool Markup Language"; js "Hyperlinks and Text Markup Language"];
       correctAnswer := 0;
       explanation := js "HTML stands for Hypertext Markup Language, used to structure web content." |};
    {| question := js "What does CSS stand for?";
       options := [js "Computer Style Sheets"; js "Cascading Style Sheets"; js "Creative Style System"; js "Central Style Script"];
       correctAnswer := 1;
       explanation := js "CSS stands for Cascading Style Sheets, used for styling web pages." |};
    {| question := js "What is JavaScript?";
       options := [js "A markup language"; js "A programming language for web interactivity"; js "A server"; js "A database"];
       correctAnswer := 1;
       explanation := js "JavaScript is a programming language that adds interactivity and dynamic behavior to web pages." |};
    {| question := js "What is a web browser?";
       options := [js "A search engine"; js "Software that displays web pages from the Internet"; js "A server"; js "A database"];
       correctAnswer := 1;
       explanation := js "A web browser is software that requests, retrieves, and displays web pages from servers." |};
    {| question := js "What is a tag in HTML?";
       options := [js "A label"; js "Markup element enclosed in angle brackets"; js "An attribute"; js "A class"];
       correctAnswer := 1;
       explanation := js "An HTML tag is a markup element enclosed in < > that defines content and structure." |} ].

Definition WebDevelopment_medium : list Question :=
  [ {| question := js "Which is not a valid HTML semantic tag?";
       options := [js "<header>"; js "<article>"; js "<content>"; js "<section>"];
       correctAnswer := 2;
       explanation := js "<content> is not a valid semantic HTML tag. Use <article>, <section>, <header>, <footer>, etc." |};
    {| question := js "What is the purpose of CSS?";
       options := [js "Structure content"; js "Style and layout"; js "Server-side logic"; js "Database management"];
       correctAnswer := 1;
       explanation := js "CSS (Cascading Style Sheets) is used for styling and layout of web pages." |};
    {| question := js "What is an API in web development?";
       options := [js "A design pattern"; js "Interface for applications to communicate"; js "Database query"; js "CSS framework"];
       correctAnswer := 1;
       explanation := js "API (Application Programming Interface) allows applications to request and exchange data." |};
    {| question := js "Which HTTP method is used to retrieve data?";
       options := [js "POST"; js "GET"; js "DELETE"; js "PUT"];
       correctAnswer := 1;
       explanation := js "GET method is used to retrieve data from a server without modifying it." |};
    {| question := js "What is a responsive design?";
       options := [js "Fast design"; js "Web design that adapts to different screen sizes"; js "Colorful design"; js "Interactive design"];
       correctAnswer := 1;
       explanation := js "Responsive design ensures web pages look and function well on all devices and screen sizes." |} ].

Definition WebDevelopment_hard : list Question :=
  [ {| question := js "What is a progressive web app (PWA)?";
       options := [js "A slow app"; js "Web app with features like offline support and installability"; js "A heavy app"; js "A simple website"];
       correctAnswer := 1;
       explanation := js "A PWA is a web application with features like offline functionality, push notifications, and installability." |};
    {| question := js "What is event delegation in JavaScript?";
       options := [js "Assigning tasks"; js "Technique of handling events on parent instead of target elements"; js "Creating events"; js "Managing events"];
       correctAnswer := 1;
       explanation := js "Event delegation attaches listeners to parent elements to handle events from child elements efficiently." |};
    {| question := js "What is CORS?";
       options := [js "A framework"; js "Cross-Origin Resource Sharing - mechanism for accessing resources from different origins"; js "A library"; js "A tool"];
       correctAnswer := 1;
       explanation := js "CORS (Cross-Origin Resource Sharing) allows restricted resources on different origins to be accessed." |};
    {| question := js "What is a web worker?";
       options := [js "A person"; js "JavaScript running in background thread without blocking main thread"; js "A server"; js "A database"];
       correctAnswer := 1;
       explanation := js "Web workers allow running JavaScript in background threads for heavy computations without blocking the UI." |};
    {| question := js "What is webpack?";
       options := [js "A framework"; js "Module bundler for packaging JavaScript and other assets"; js "A library"; js "A server"];
       correctAnswer := 1;
       explanation := js "Webpack is a module bundler that bundles JavaScript, CSS, and other assets for production." |} ].

Definition CloudComputing_easy : list Question :=
  [ {| question := js "What is cloud computing?";
       options := [js "Computing in clouds"; js "Computing services delivered over the Internet"; js "A server"; js "A program"];
       correctAnswer := 1;
       explanation := js "Cloud computing provides computing services (servers, storage, databases) over the Internet." |};
    {| question := js "What does IaaS stand for?";
       options := [js "Infrastructure as a Service"; js "Integration as a Service"; js "Information as a Service"; js "Internet as a Service"];
       correctAnswer := 0;
       explanation := js "IaaS provides virtualized computing resources over the internet (e.g., AWS, Azure VMs)." |};
    {| question := js "What does PaaS stand for?";
       options := [js "Platform as a Service"; js "Process as a Service"; js "Program as a Service"; js "Protocol as a Service"];
       correctAnswer := 0;
       explanation := js "PaaS provides platforms for building and deploying applications over the Internet." |};
    {| question := js "What does SaaS stand for?";
       options := [js "Software as a Service"; js "Server as a Service"; js "Storage as a Service"; js "Security as a Service"];
       correctAnswer := 0;
       explanation := js "SaaS delivers software applications over the Internet (e.g., Gmail, Office 365)." |};
    {| question := js "What is a cloud provider?";
       options := [js "A company"; js "Company that offers cloud computing services"; js "An Internet provider"; js "A server"];
       correctAnswer := 1;
       explanation := js "A cloud provider is a company offering cloud computing services and infrastructure." |} ].

Definition CloudComputing_medium : list Question :=
  [ {| question := js "Which cloud service model provides the most control?";
       options := [js "SaaS"; js "PaaS"; js "IaaS"; js "All are same"];
       correctAnswer := 2;
       explanation := js "IaaS provides the most control as users manage OS, middleware, and applications." |};
    {| question := js "What is containerization?";
       options := [js "Storing data in containers"; js "Packaging applications with dependencies"; js "Cloud storage"; js "Network isolation"];
       correctAnswer := 1;
       explanation := js "Containerization packages applications with their dependencies for consistent deployment." |};
    {| question := js "What is auto-scaling in cloud?";
       options := [js "Manual scaling"; js "Automatically adjusting resources based on demand"; js "Slow scaling"; js "Scaling code"];
       correctAnswer := 1;
       explanation := js "Auto-scaling automatically adjusts computing resources to meet demand changes." |};
    {| question := js "What is load balancing?";
       options := [js "Balancing loads"; js "Distributing traffic across multiple servers"; js "Organizing files"; js "Sorting servers"];
       correctAnswer := 1;
       explanation := js "Load balancing distributes network traffic across multiple servers for optimal performance." |};
    {| question := js "What is multi-tenancy?";
       options := [js "Multiple clouds"; js "Multiple users sharing same resources"; js "Multiple databases"; js "Multiple servers"];
       correctAnswer := 1;
       explanation := js "Multi-tenancy allows multiple customers to share the same cloud resources safely." |} ].

Definition CloudComputing_hard : list Question :=
  [ {| question := js "What is serverless computing?";
       options := [js "No server needed"; js "Cloud computing without managing infrastructure"; js "A server"; js "No code needed"];
       correctAnswer := 1;
       explanation := js "Serverless computing allows running code without provisioning or managing servers." |};
    {| question := js "What is edge computing?";
       options := [js "Computing at edges"; js "Processing data closer to source for reduced latency"; js "Cloud computing"; js "Central computing"];
       correctAnswer := 1;
       explanation := js "Edge computing processes data near the source (edge) rather than centralized data centers." |};
    {| question := js "What is hybrid cloud?";
       options := [js "Cloud only"; js "Mix of public and private cloud resources"; js "Private cloud"; js "On-premise only"];
       correctAnswer := 1;
       explanation := js "Hybrid cloud combines public cloud services with private on-premise infrastructure." |};
    {| question := js "What is cloud federation?";
       options := [js "Multiple clouds"; js "Interconnecting multiple cloud providers for unified service"; js "Single cloud"; js "Distributed cloud"];
       correctAnswer := 1;
       explanation := js "Cloud federation connects multiple cloud providers to create unified, integrated service." |};
    {| question := js "What is infrastructure as code (IaC)?";
       options := [js "Coding infrastructure"; js "Managing infrastructure using code and version control"; js "Cloud API"; js "Manual configuration"];
       correctAnswer := 1;
       explanation := js "IaC manages infrastructure by writing code instead of manual configuration (e.g., Terraform)." |} ].

Definition DevOps_easy : list Question :=
  [ {| question := js "What is DevOps?";
       options := [js "Development operation"; js "Combining development and operations for continuous improvement"; js "A tool"; js "A language"];
       correctAnswer := 1;
       explanation := js "DevOps is a practice combining development and operations for faster, reliable software delivery." |};
    {| question := js "What does CI stand for?";
       options := [js "Continuous Integration"; js "Code Integration"; js "Central Interface"; js "Computer Integration"];
       correctAnswer := 0;
       explanation := js "CI (Continuous Integration) involves automatically integrating and testing code changes." |};
    {| question := js "What does CD stand for?";
       options := [js "Continuous Deployment"; js "Code Deployment"; js "Central Data"; js "Computer Deployment"];
       correctAnswer := 0;
       explanation := js "CD (Continuous Deployment) automatically deploys tested code to production." |};
    {| question := js "What is Docker?";
       options := [js "Documentation"; js "Platform for containerizing applications"; js "Database"; js "Version control"];
       correctAnswer := 1;
       explanation := js "Docker is a containerization platform that packages applications with dependencies." |};
    {| question := js "What is a container?";
       options := [js "A box"; js "Lightweight package containing application and dependencies"; js "A VM"; js "A server"];
       correctAnswer := 1;
       explanation := js "A container is a lightweight, standalone package that includes application and all dependencies." |} ].

Definition DevOps_medium : list Question :=
  [ {| question := js "What does CI/CD stand for?";
       options := [js "Continuous Integration/Continuous Deployment"; js "Code Integration/Code Deployment"; js "Central Interface/Central Data"; js "Continuous Interface/Continuous Data"];
       correctAnswer := 0;
       explanation := js "CI/CD automates integration, testing, and deployment of code changes." |};
    {| question := js "What is Kubernetes?";
       options := [js "Container registry"; js "Container orchestration platform"; js "Monitoring tool"; js "CI/CD platform"];
       correctAnswer := 1;
       explanation := js "Kubernetes automates deployment, scaling, and management of containerized applications." |};
    {| question := js "What is infrastructure as code (IaC)?";
       options := [js "Coding standards"; js "Managing infrastructure using code"; js "Cloud API"; js "Database scripts"];
       correctAnswer := 1;
       explanation := js "IaC manages infrastructure through code (e.g., Terraform, CloudFormation) instead of manual processes." |};
    {| question := js "Which is a configuration management tool?";
       options := [js "Docker"; js "Kubernetes"; js "Ansible"; js "Git"];
       correctAnswer := 2;
       explanation := js "Ansible is an IaC and configuration management tool for automating infrastructure tasks." |};
    {| question := js "What is monitoring in DevOps?";
       options := [js "Watching"; js "Continuously observing system health and performance"; js "Logging"; js "Testing"];
       correctAnswer := 1;
       explanation := js "Monitoring tracks system performance, availability, and alerts to issues in real-time." |} ].

Definition DevOps_hard : list Question :=
  [ {| question := js "What is blue-green deployment?";
       options := [js "Color deployment"; js "Running two identical environments for zero-downtime deployment"; js "Gradual deployment"; js "Rollback mechanism"];
       correctAnswer := 1;
       explanation := js "Blue-green deployment uses two identical environments to switch between versions with zero downtime." |};
    {| question := js "What is canary deployment?";
       options := [js "Bird deployment"; js "Gradual rollout to small user percentage before full deployment"; js "Random deployment"; js "Instant deployment"];
       correctAnswer := 1;
       explanation := js "Canary deployment gradually rolls out changes to a small user subset to detect issues early." |};
    {| question := js "What is a microservice architecture?";
       options := [js "Small services"; js "Building applications as loosely coupled, independently deployable services"; js "One big service"; js "Monolithic"];
       correctAnswer := 1;
       explanation := js "Microservices break applications into small, independent services that communicate via APIs." |};
    {| question := js "What is service mesh?";
       options := [js "Network of services"; js "Infrastructure for managing service-to-service communication"; js "API gateway"; js "Load balancer"];
       correctAnswer := 1;
       explanation := js "Service mesh manages inter-service communication with features like load balancing and security." |};
    {| question := js "What is GitOps?";
       options := [js "Git operations"; js "Using Git as single source of truth for infrastructure and deployment"; js "Version control"; js "Git strategy"];
       correctAnswer := 1;
       explanation := js "GitOps treats infrastructure as code in Git, automating deployment through Git workflows." |} ].

(** The object literal [mockQuestions] of [generateMockQuestions], keys in
    source order. *)
Definition mockQuestions : list (jsstring * Levels) :=
  [ (js "Data Structures", {| easy_list := DataStructures_easy; medium_list := DataStructures_medium; hard_list := DataStructures_hard |});
    (js "Algorithms", {| easy_list := Algorithms_easy; medium_list := Algorithms_medium; hard_list := Algorithms_hard |});
    (js "Database Management", {| easy_list := DatabaseManagement_easy; medium_list := DatabaseManagement_medium; hard_list := DatabaseManagement_hard |});
    (js "Operating Systems", {| easy_list := OperatingSystems_easy; medium_list := OperatingSystems_medium; hard_list := OperatingSystems_hard |});
    (js "Computer Networks", {| easy_list := ComputerNetworks_easy; medium_list := ComputerNetworks_medium; hard_list := ComputerNetworks_hard |});
    (js "Web Development", {| easy_list := WebDevelopment_easy; medium_list := WebDevelopment_medium; hard_list := WebDevelopment_hard |});
    (js "Cloud Computing", {| easy_list := CloudComputing_easy; medium_list := CloudComputing_medium; hard_list := CloudComputing_hard |});
    (js "DevOps", {| easy_list := DevOps_easy; medium_list := DevOps_medium; hard_list := DevOps_hard |}) ].

(** The members every object literal inherits from [Object.prototype].
    Each is a function, except [__proto__], which reads as the prototype
    object itself; all of them are truthy, and none has a property named
    [easy], [medium] or [hard]. *)
Definition Object_prototype : list jsstring :=
  [ js "constructor"; js "hasOwnProperty"; js "isPrototypeOf";
    js "propertyIsEnumerable"; js "toLocaleString"; js "toString";
    js "valueOf"; js "__proto__"; js "__defineGetter__";
    js "__defineSetter__"; js "__lookupGetter__"; js "__lookupSetter__" ].

(** What [obj[key]] reads from an object literal whose own values have
    type [V]: an own property, an inherited built-in, or [undefined]. *)
Inductive member (V : Type) :=
| Own (v : V)
| Inherited (name : jsstring)
| Absent.
Arguments Own {V} v.
Arguments Inherited {V} name.
Arguments Absent {V}.

Fixpoint own_property {V} (obj : list (jsstring * V)) (key : jsstring) : option V :=
  match obj with
  | [] => None
  | (k, v) :: rest => if decide (k = key) then Some v else own_property rest key
  end.

Definition read {V} (obj : list (jsstring * V)) (key : jsstring) : member V :=
  match own_property obj key with
  | Some v => Own v
  | None => if decide (key ∈ Object_prototype) then Inherited key else Absent
  end.

(** [entry[difficulty]] on a subject's object. *)
Definition level (entry : Levels) (difficulty : Difficulty) : list Question :=
  match difficulty with
  | easy => easy_list entry
  | medium => medium_list entry
  | hard => hard_list entry
  end.

(** [m?.[difficulty]]: [None] is [undefined]. *)
Definition chain (m : member Levels) (difficulty : Difficulty) : option (list Question) :=
  match m with
  | Own entry => Some (level entry difficulty)
  | Inherited _ => None
  | Absent => None
  end.

(** [a || b] where [a] is an array or [undefined]: an array, even an empty
    one, is truthy. *)
Definition or_else {A} (a : option A) (b : A) : A :=
  match a with
  | Some x => x
  | None => b
  end.

(** [mockQuestions['Data Structures'].easy] *)
Definition default_questions : list Question := DataStructures_easy.

(** The constant [questions] of [generateMockQuestions]. *)
Definition selectQuestions (subject : jsstring) (difficulty : Difficulty) : list Question :=
  or_else (chain (read mockQuestions subject) difficulty)
    (or_else (chain (read mockQuestions subject) easy)
       default_questions).

(** [array.slice(0, n)] *)
Definition slice0 {A} (n : nat) (array : list A) : list A := take n array.

Definition generateMockQuestions (rand : nat -> Q) (subject : jsstring)
  (difficulty : Difficulty) : list Question :=
  slice0 5 (shuffleArray rand (selectQuestions subject difficulty)).

(** ** The flat variant of [aiService.js]

    The second version of the file keeps one list per subject, ignores the
    difficulty and returns the list as it stands. *)
Module Flat.

Definition DataStructures : list Question :=
  [ {| question := js "What is the time complexity of inserting an element at the beginning of a linked list?";
       options := [js "O(n)"; js "O(log n)"; js "O(1)"; (js "O(n" ++ [178%N] ++ js ")")];
       correctAnswer := 2;
       explanation := js "Insertion at the beginning of a linked list is O(1) because we only need to update pointers." |};
    {| question := js "Which data structure uses LIFO (Last In First Out) principle?";
       options := [js "Queue"; js "Stack"; js "Tree"; js "Graph"];
       correctAnswer := 1;
       explanation := js "Stack follows LIFO principle where the last element inserted is removed first." |};
    {| question := js "What is the space complexity of a balanced binary search tree with n nodes?";
       options := [js "O(1)"; js "O(log n)"; js "O(n)"; (js "O(n" ++ [178%N] ++ js ")")];
       correctAnswer := 2;
       explanation := js "A balanced BST with n nodes requires O(n) space to store all nodes." |};
    {| question := js "Which of the following is NOT a linear data structure?";
       options := [js "Array"; js "Stack"; js "Queue"; js "Tree"];
       correctAnswer := 3;
       explanation := js "Tree is a non-linear data structure, while Array, Stack, and Queue are linear." |};
    {| question := js "What is the best case time complexity of bubble sort?";
       options := [js "O(n)"; js "O(n log n)"; (js "O(n" ++ [178%N] ++ js ")"); js "O(2^n)"];
       correctAnswer := 0;
       explanation := js "Bubble sort has O(n) best case when the array is already sorted." |} ].

Definition Algorithms : list Question :=
  [ {| question := js "What is the time complexity of binary search?";
       options := [js "O(n)"; js "O(log n)"; (js "O(n" ++ [178%N] ++ js ")"); js "O(2^n)"];
       correctAnswer := 1;
       explanation := js "Binary search has O(log n) complexity as it divides the search space in half each time." |};
    {| question := js "Which algorithm design paradigm does Merge Sort use?";
       options := [js "Greedy"; js "Dynamic Programming"; js "Divide and Conquer"; js "Brute Force"];
       correctAnswer := 2;
       explanation := js "Merge Sort uses Divide and Conquer by dividing array in half and merging sorted subarrays." |};
    {| question := js "What is the space complexity of quicksort in-place?";
       options := [js "O(1)"; js "O(log n)"; js "O(n)"; (js "O(n" ++ [178%N] ++ js ")")];
       correctAnswer := 1;
       explanation := js "In-place quicksort has O(log n) space complexity due to recursive call stack." |};
    {| question := js "Which of the following has the worst time complexity?";
       options := [js "Merge Sort"; js "Quick Sort"; js "Bubble Sort"; js "Heap Sort"];
       correctAnswer := 2;
       explanation := (js "Bubble Sort has O(n" ++ [178%N] ++ js ") worst-case complexity, while others have O(n log n).") |};
    {| question := js "Dynamic Programming is useful for problems with which property?";
       options := [js "No overlapping subproblems"; js "Optimal substructure"; js "Random nature"; js "Single solution"];
       correctAnswer := 1;
       explanation := js "DP is useful for problems with optimal substructure where optimal solution uses optimal solutions of subproblems." |} ].

Definition DatabaseManagement : list Question :=
  [ {| question := js "What does ACID stand for in database transactions?";
       options := [js "Atomicity, Consistency, Isolation, Durability"; js "Access, Control, Index, Data"; js "Accuracy, Clarity, Index, Data"; js "Atomicity, Control, Isolation, Durability"];
       correctAnswer := 0;
       explanation := js "ACID properties ensure reliable database transactions and data integrity." |};
    {| question := js "Which normal form eliminates partial dependencies?";
       options := [js "1NF"; js "2NF"; js "3NF"; js "BCNF"];
       correctAnswer := 1;
       explanation := js "2NF (Second Normal Form) eliminates partial dependencies from 1NF." |};
    {| question := js "What is the purpose of an index in a database?";
       options := [js "Store data"; js "Faster data retrieval"; js "Ensure uniqueness"; js "Backup data"];
       correctAnswer := 1;
       explanation := js "Indexes speed up data retrieval operations by reducing the amount of data to scan." |};
    {| question := js "Which SQL command is used to retrieve data?";
       options := [js "INSERT"; js "DELETE"; js "SELECT"; js "UPDATE"];
       correctAnswer := 2;
       explanation := js "SELECT command is used to retrieve data from database tables." |};
    {| question := js "What is a foreign key?";
       options := [js "Primary key in another table"; js "A key that references primary key in another table"; js "Duplicate of primary key"; js "Encrypted key"];
       correctAnswer := 1;
       explanation := js "A foreign key is an attribute that references the primary key of another table, maintaining referential integrity." |} ].

Definition OperatingSystems : list Question :=
  [ {| question := js "What is a process in an operating system?";
       options := [js "A program"; js "A running instance of a program"; js "A system call"; js "A thread"];
       correctAnswer := 1;
       explanation := js "A process is an executing instance of a program with its own memory space and resources." |};
    {| question := js "Which scheduling algorithm is used in most modern OS?";
       options := [js "FCFS"; js "SJF"; js "Round Robin"; js "Priority Scheduling"];
       correctAnswer := 2;
       explanation := js "Round Robin is commonly used as it provides fairness and prevents starvation." |};
    {| question := js "What is a deadlock in operating systems?";
       options := [js "System crash"; js "Situation where two or more processes wait indefinitely for each other"; js "Memory full"; js "CPU overload"];
       correctAnswer := 1;
       explanation := js "Deadlock occurs when processes hold resources and wait for resources held by others, causing indefinite wait." |};
    {| question := js "What is virtual memory?";
       options := [js "RAM"; js "Extended memory using disk storage"; js "Cache memory"; js "ROM"];
       correctAnswer := 1;
       explanation := js "Virtual memory uses disk storage to extend available memory, allowing programs larger than physical RAM." |};
    {| question := js "What is the difference between a process and a thread?";
       options := [js "No difference"; js "Process has independent memory, thread shares memory with process"; js "Thread is faster"; js "Process is faster"];
       correctAnswer := 1;
       explanation := js "Processes have independent memory spaces, while threads within a process share the same memory space." |} ].

Definition ComputerNetworks : list Question :=
  [ {| question := js "Which layer of OSI model handles routing?";
       options := [js "Data Link Layer"; js "Network Layer"; js "Transport Layer"; js "Application Layer"];
       correctAnswer := 1;
       explanation := js "The Network Layer (Layer 3) is responsible for routing and logical addressing." |};
    {| question := js "What is the purpose of TCP?";
       options := [js "Unreliable data transfer"; js "Reliable, connection-oriented data transfer"; js "Fast transfer"; js "Broadcast"];
       correctAnswer := 1;
       explanation := js "TCP provides reliable, connection-oriented delivery of data with error checking." |};
    {| question := js "What is the range of well-known ports?";
       options := [js "0-255"; js "0-1023"; js "1024-65535"; js "49152-65535"];
       correctAnswer := 1;
       explanation := js "Well-known ports range from 0 to 1023 and are reserved for specific services." |};
    {| question := js "Which protocol resolves IP addresses to MAC addresses?";
       options := [js "DHCP"; js "DNS"; js "ARP"; js "IGMP"];
       correctAnswer := 2;
       explanation := js "ARP (Address Resolution Protocol) maps IP addresses to MAC addresses." |};
    {| question := js "What is the maximum size of an IPv4 datagram?";
       options := [js "256 bytes"; js "512 bytes"; js "1024 bytes"; js "65535 bytes"];
       correctAnswer := 3;
       explanation := js "Maximum IPv4 datagram size is 65535 bytes (16-bit length field)." |} ].

Definition WebDevelopment : list Question :=
  [ {| question := js "What does HTML stand for?";
       options := [js "Hypertext Markup Language"; js "High Tech Modern Language"; js "Home Tool Markup Language"; js "Hyperlinks and Text Markup Language"];
       correctAnswer := 0;
       explanation := js "HTML stands for Hypertext Markup Language, used to structure web content." |};
    {| question := js "Which is not a valid HTML semantic tag?";
       options := [js "<header>"; js "<article>"; js "<content>"; js "<section>"];
       correctAnswer := 2;
       explanation := js "<content> is not a valid semantic HTML tag. Use <article>, <section>, <header>, <footer>, etc." |};
    {| question := js "What is the purpose of CSS?";
       options := [js "Structure content"; js "Style and layout"; js "Server-side logic"; js "Database management"];
       correctAnswer := 1;
       explanation := js "CSS (Cascading Style Sheets) is used for styling and layout of web pages." |};
    {| question := js "What is an API in web development?";
       options := [js "A design pattern"; js "Interface for applications to communicate"; js "Database query"; js "CSS framework"];
       correctAnswer := 1;
       explanation := js "API (Application Programming Interface) allows applications to request and exchange data." |};
    {| question := js "Which HTTP method is used to retrieve data?";
       options := [js "POST"; js "GET"; js "DELETE"; js "PUT"];
       correctAnswer := 1;
       explanation := js "GET method is used to retrieve data from a server without modifying it." |} ].

Definition CloudComputing : list Question :=
  [ {| question := js "What does IaaS stand for?";
       options := [js "Infrastructure as a Service"; js "Integration as a Service"; js "Information as a Service"; js "Internet as a Service"];
       correctAnswer := 0;
       explanation := js "IaaS provides virtualized computing resources over the internet (e.g., AWS, Azure VMs)." |};
    {| question := js "Which cloud service model provides the most control?";
       options := [js "SaaS"; js "PaaS"; js "IaaS"; js "All are same"];
       correctAnswer := 2;
       explanation := js "IaaS provides the most control as users manage OS, middleware, and applications." |};
    {| question := js "What is containerization?";
       options := [js "Storing data in containers"; js "Packaging applications with dependencies"; js "Cloud storage"; js "Network isolation"];
       correctAnswer := 1;
       explanation := js "Containerization packages applications with their dependencies for consistent deployment." |};
    {| question := js "Which service automatically scales resources?";
       options := [js "Load Balancing"; js "Auto Scaling"; js "Caching"; js "Monitoring"];
       correctAnswer := 1;
       explanation := js "Auto Scaling automatically adjusts computing resources based on demand." |};
    {| question := js "What is multi-tenancy in cloud computing?";
       options := [js "Multiple clouds"; js "Multiple users sharing same resources"; js "Multiple databases"; js "Multiple servers"];
       correctAnswer := 1;
       explanation := js "Multi-tenancy allows multiple customers to share the same cloud resources safely." |} ].

Definition DevOps : list Question :=
  [ {| question := js "What does CI/CD stand for?";
       options := [js "Continuous Integration/Continuous Deployment"; js "Code Integration/Code Deployment"; js "Central Interface/Central Data"; js "Continuous Interface/Continuous Data"];
       correctAnswer := 0;
       explanation := js "CI/CD automates integration, testing, and deployment of code changes." |};
    {| question := js "What is Docker used for?";
       options := [js "Documentation"; js "Containerization of applications"; js "Database management"; js "Version control"];
       correctAnswer := 1;
       explanation := js "Docker is used for containerizing applications to ensure consistency across environments." |};
    {| question := js "What is Kubernetes?";
       options := [js "Container registry"; js "Container orchestration platform"; js "Monitoring tool"; js "CI/CD platform"];
       correctAnswer := 1;
       explanation := js "Kubernetes automates deployment, scaling, and management of containerized applications." |};
    {| question := js "What is Infrastructure as Code (IaC)?";
       options := [js "Coding standards"; js "Managing infrastructure using code"; js "Cloud API"; js "Database scripts"];
       correctAnswer := 1;
       explanation := js "IaC manages infrastructure through code (e.g., Terraform, CloudFormation) instead of manual processes." |};
    {| question := js "Which is a popular configuration management tool?";
       options := [js "Docker"; js "Kubernetes"; js "Ansible"; js "Git"];
       correctAnswer := 2;
       explanation := js "Ansible is an IaC and configuration management tool for automating infrastructure tasks." |} ].

Definition mockQuestions : list (jsstring * list Question) :=
  [ (js "Data Structures", DataStructures);
    (js "Algorithms", Algorithms);
    (js "Database Management", DatabaseManagement);
    (js "Operating Systems", OperatingSystems);
    (js "Computer Networks", ComputerNetworks);
    (js "Web Development", WebDevelopment);
    (js "Cloud Computing", CloudComputing);
    (js "DevOps", DevOps) ].

(** What the function returns: a question list, or the built-in value
    found under an inherited name. *)
Inductive returned :=
| QuestionList (qs : list Question)
| BuiltIn (name : jsstring).

(** [mockQuestions[subject] || mockQuestions['Data Structures']] *)
Definition generateMockQuestions (subject : jsstring) (difficulty : Difficulty)
  : returned :=
  match read mockQuestions subject with
  | Own qs => QuestionList qs
  | Inherited name => BuiltIn name
  | Absent => QuestionList DataStructures
  end.

End Flat.

(** ** The remote path: [generateQuizQuestions] *)

(** [s.startsWith(pat)] at the head of [s]. *)
Fixpoint startsWith (pat s : jsstring) : bool :=
  match pat, s with
  | [], _ => true
  | _ :: _, [] => false
  | p :: pat', c :: s' => N.eqb p c && startsWith pat' s'
  end.

(** [s.includes(pat)] *)
Fixpoint includes (s pat : jsstring) : bool :=
  startsWith pat s ||
  match s with
  | [] => false
  | _ :: s' => includes s' pat
  end.

(** [s.replace(/PAT\n?/g, '')] for a literal, non-empty [PAT]: every
    leftmost occurrence of [PAT], with the line feed after it if there is
    one, is deleted.  [skip] counts the code units of the current match
    still to be dropped. *)
Fixpoint removeFrom (pat : jsstring) (skip : nat) (s : jsstring) : jsstring :=
  match s with
  | [] => []
  | c :: s' =>
    match skip with
    | S n => removeFrom pat n s'
    | 0 =>
      if startsWith pat s
      then removeFrom pat
             (length pat - 1 +
              match drop (length pat) s with
              | 10%N :: _ => 1
              | _ => 0
              end) s'
      else c :: removeFrom pat 0 s'
    end
  end.

Definition removeAll (pat s : jsstring) : jsstring := removeFrom pat 0 s.

Definition fence : jsstring := js "```".
Definition fence_json : jsstring := js "```json".

(** The block that strips a markdown code fence from [content]. *)
Definition stripFences (content : jsstring) : jsstring :=
  if includes content fence_json
  then trim (removeAll fence (removeAll fence_json content))
  else if includes content fence
  then trim (removeAll fence content)
  else content.

(** [v[0]] *)
Definition index0 (v : value) : option value :=
  match v with
  | VUndefined | VNull => None
  | VArr elems => Some (match elems with x :: _ => x | [] => VUndefined end)
  | VStr s => Some (match s with c :: _ => VStr [c] | [] => VUndefined end)
  | VObj props => Some (own props (js "0"))
  | _ => Some VUndefined
  end.

(** A property read that raises [TypeError] on [null] and [undefined]. *)
Definition orTypeError {A} (o : option A) : result A :=
  match o with
  | Some a => Ok a
  | None => Throw TypeError
  end.

(** The response of [fetch]: its [ok] flag and what [response.json()]
    resolves to. *)
Record Response := mkResponse {
  ok : bool;
  json : result value
}.

(** What the outside world does during one call: the configured key, the
    outcome of the single [fetch], the built-in [JSON.parse] and the
    numbers [Math.random] returns. *)
Record Env := mkEnv {
  OPENAI_API_KEY : value;
  fetch : result Response;
  JSON_parse : jsstring -> result value;
  Math_random : nat -> Q
}.

(** The request (prompt, model, sampling parameters) is built from
    [subject], [difficulty] and [numberOfQuestions] and handed to [fetch];
    the count is otherwise only compared with the batch length for a
    console warning. *)
Definition generateQuizQuestions (env : Env) (subject : jsstring)
  (difficulty : Difficulty) (numberOfQuestions : nat) : result (list Question) :=
  if negb (truthy (OPENAI_API_KEY env))
  then Throw (Error ApiKeyNotConfigured)
  else
    response ← fetch env;
    if negb (ok response)
    then
      error ← json response;
      _ ← orTypeError (get error (js "error"));
      Throw (Error ApiFailure)
    else
      data ← json response;
      choices ← orTypeError (get data (js "choices"));
      choice ← orTypeError (index0 choices);
      message ← orTypeError (get choice (js "message"));
      content ← orTypeError (get message (js "content"));
      match content with
      | VStr text =>
        let content := trim text in
        let jsonContent := stripFences content in
        questions ← JSON_parse env jsonContent;
        match questions with
        | VArr candidates => validateFrom 0 candidates
        | _ => Throw (Error ExpectedArray)
        end
      | _ => Throw TypeError
      end.

(** ** [App]: the application state and its handlers *)

Inductive screen := selection | loading | quiz | results.

Record Results := mkResults {
  score : nat;
  totalQuestions : nat
}.

Module App.

Record state := mkState {
  appState : screen;
  selectedSubject : option jsstring;
  selectedDifficulty : option Difficulty;
  questions : list Question;
  quizResults : option Results;
  loading : bool;
  error : option exn
}.

(** The initial values of the [useState] hooks. *)
Definition init : state :=
  {| appState := selection; selectedSubject := None;
     selectedDifficulty := None; questions := []; quizResults := None;
     loading := false; error := None |}.

(** The inner [try]/[catch] of [handleSelectSubject]: the remote attempt
    and, on any exception, the bank.  [handleSelectSubject] calls it with
    a count of 5. *)
Definition acquireQuestions (env : Env) (subject : jsstring)
  (difficulty : Difficulty) (count : nat) : result (list Question) :=
  match generateQuizQuestions env subject difficulty count with
  | Ok generatedQuestions => Ok generatedQuestions
  | Throw apiError =>
    Ok (generateMockQuestions (Math_random env) subject difficulty)
  end.

(** The state once the promise of [handleSelectSubject] has settled. *)
Definition handleSelectSubject (env : Env) (st : state)
  (subject : jsstring) (difficulty : Difficulty) : state :=
  match acquireQuestions env subject difficulty 5 with
  | Ok generatedQuestions =>
    {| appState := quiz; selectedSubject := Some subject;
       selectedDifficulty := Some difficulty;
       questions := generatedQuestions; quizResults := quizResults st;
       loading := false; error := None |}
  | Throw err =>
    {| appState := selection; selectedSubject := Some subject;
       selectedDifficulty := Some difficulty;
       questions := questions st; quizResults := quizResults st;
       loading := false; error := Some err |}
  end.

Definition handleQuizComplete (st : state) (r : Results) : state :=
  {| appState := results; selectedSubject := selectedSubject st;
     selectedDifficulty := selectedDifficulty st;
     questions := questions st; quizResults := Some r;
     loading := loading st; error := error st |}.

(** [handleRetry()]: the stored selection is handed to
    [handleSelectSubject].  The Retry button exists on the results screen
    only, where both are set; with a [null] selection ([None]) the call
    lies outside this model. *)
Definition handleRetry (env : Env) (st : state) : option state :=
  match selectedSubject st, selectedDifficulty st with
  | Some subject, Some difficulty =>
    Some (handleSelectSubject env st subject difficulty)
  | _, _ => None
  end.

(** [handleSelectNewSubject()]; [loading] is not written. *)
Definition handleSelectNewSubject (st : state) : state :=
  {| appState := selection; selectedSubject := None;
     selectedDifficulty := None; questions := []; quizResults := None;
     loading := loading st; error := None |}.

End App.

(** ** [QuizDisplay]: the quiz session *)

Module QuizDisplay.

Record state := mkState {
  currentQuestion : nat;
  score : nat;
  selectedAnswers : gmap nat nat;
  showResult : bool
}.

(** The initial values of the [useState] hooks. *)
Definition init : state :=
  {| currentQuestion := 0; score := 0; selectedAnswers := ∅;
     showResult := false |}.

(** [!selectedAnswers[currentQuestion]]: true for [undefined] and for the
    number 0. *)
Definition not_ (answer : option nat) : bool :=
  match answer with
  | None => true
  | Some 0 => true
  | Some (S _) => false
  end.

(** [optionIndex === question.correctAnswer] *)
Definition strictEq (optionIndex : nat) (n : Q) : bool :=
  Qeq_bool (inject_Z (Z.of_nat optionIndex)) n.

(** [handleAnswerClick(optionIndex)].  The component renders only while
    [questions[currentQuestion]] exists. *)
Definition handleAnswerClick (questions : list Question) (st : state)
  (optionIndex : nat) : state :=
  match questions !! currentQuestion st with
  | None => st
  | Some question =>
    if not_ (selectedAnswers st !! currentQuestion st)
    then
      let newAnswers := <[currentQuestion st := optionIndex]> (selectedAnswers st) in
      {| currentQuestion := currentQuestion st;
         score := if strictEq optionIndex (correctAnswer question)
                  then score st + 1 else score st;
         selectedAnswers := newAnswers;
         showResult := true |}
    else st
  end.

(** What [handleNext] does: re-render with the next question, or call
    [onComplete]. *)
Inductive next :=
| Render (st : state)
| OnComplete (r : Results).

(** [handleNext()]; [questions.length - 1] is not below zero wherever the
    component renders. *)
Definition handleNext (questions : list Question) (st : state) : next :=
  if (currentQuestion st <? length questions - 1)%nat
  then Render {| currentQuestion := currentQuestion st + 1;
                 score := score st;
                 selectedAnswers := selectedAnswers st;
                 showResult := false |}
  else OnComplete (mkResults (score st) (length questions)).

(** [isAnswered]: [selectedAnswers[currentQuestion] !== undefined] *)
Definition isAnswered (st : state) : bool :=
  match selectedAnswers st !! currentQuestion st with
  | Some _ => true
  | None => false
  end.

End QuizDisplay.

(** ** The page: [App] with [QuizDisplay] mounted

    [QuizDisplay] is rendered while [appState] is [quiz] and nothing is
    loading; with an empty question list it shows a placeholder and no
    control.  The option buttons carry [disabled={isAnswered}], the Next
    button [disabled={!isAnswered}]. *)

Record Page := mkPage {
  app : App.state;
  display : QuizDisplay.state
}.

Inductive event :=
| AnswerClick (optionIndex : nat)   (* click on the option button [index] *)
| NextClick.                        (* click on the Next button *)

(** Is the control of [ev] on the page and enabled? *)
Definition enabled (p : Page) (ev : event) : bool :=
  match App.appState (app p), App.loading (app p),
        App.questions (app p) !! QuizDisplay.currentQuestion (display p) with
  | quiz, false, Some question =>
    match ev with
    | AnswerClick index =>
      negb (QuizDisplay.isAnswered (display p))
      && (index <? length (options question))%nat
    | NextClick => QuizDisplay.isAnswered (display p)
    end
  | _, _, _ => false
  end.

(** A click runs the handler of an enabled control; [onComplete] is
    [handleQuizComplete]. *)
Definition click (p : Page) (ev : event) : Page :=
  if enabled p ev
  then
    match ev with
    | AnswerClick index =>
      {| app := app p;
         display := QuizDisplay.handleAnswerClick (App.questions (app p)) (display p) index |}
    | NextClick =>
      match QuizDisplay.handleNext (App.questions (app p)) (display p) with
      | QuizDisplay.Render st => {| app := app p; display := st |}
      | QuizDisplay.OnComplete r =>
        {| app := App.handleQuizComplete (app p) r; display := display p |}
      end
    end
  else p.

(** The page right after [QuizDisplay] is mounted. *)
Definition mount (a : App.state) : Page :=
  {| app := a; display := QuizDisplay.init |}.

(** ** Notions the specification uses *)

(** A question a quiz can show: four options and an answer key within
    0..3. *)
Definition wellFormed (q : Question) : Prop :=
  length (options q) = 4 /\ (0 <= correctAnswer q)%Q /\ (correctAnswer q <= 3)%Q.

(** The answer recorded for question [i] is its correct one. *)
Definition answeredCorrectly (questions : list Question)
  (answers : gmap nat nat) (i : nat) : bool :=
  match answers !! i, questions !! i with
  | Some a, Some q => QuizDisplay.strictEq a (correctAnswer q)
  | _, _ => false
  end.

(** The score rule of the specification: the number of indices below
    [length questions] whose recorded answer is the correct one. *)
Definition countCorrect (questions : list Question) (answers : gmap nat nat) : nat :=
  length (filter (fun i => answeredCorrectly questions answers i = true)
                 (seq 0 (length questions))).

(** The events of a run that answers every question with [cs] in turn and
    advances after each answer. *)
Definition answerAll (cs : list nat) : list event :=
  flat_map (fun c => [AnswerClick c; NextClick]) cs.

(** [c] is the correct option of [q]. *)
Definition correctOption (q : Question) (c : nat) : Prop :=
  QuizDisplay.strictEq c (correctAnswer q) = true /\ c < length (options q).

(** ** Notions and sample data used by the properties *)

(** A value the validator takes for a text: a string that is not empty. *)
Definition nonEmptyString (v : value) : bool := truthy v && is_string v.

(** A question whose strings are trimmed already and whose fields pass
    every test of the validator. *)
Definition clean (q : Question) : Prop :=
  question q <> [] /\ trim (question q) = question q /\
  length (options q) = 4 /\ Forall (fun o => trim o = o) (options q) /\
  (0 <= correctAnswer q)%Q /\ (correctAnswer q <= 3)%Q /\
  explanation q <> [] /\ trim (explanation q) = explanation q.

(** [q.key], where it does not raise. *)
Definition field (q : value) (key : string) : value :=
  default VUndefined (get q (js key)).

(** An array of exactly four entries. *)
Definition fourOptions (v : value) : bool :=
  match v with
  | VArr opts => (length opts =? 4)%nat
  | _ => false
  end.

(** An array of strings only. *)
Definition stringOptions (v : value) : bool :=
  match v with
  | VArr opts => forallb is_string opts
  | _ => false
  end.

(** A number between 0 and 3, whole or not. *)
Definition numberWithin0to3 (v : value) : bool :=
  match v with
  | VNum n => Qle_bool 0 n && Qle_bool n 3
  | _ => false
  end.

(** The cleaned question of a candidate: every string trimmed, the answer
    key as it is. *)
Definition normalized (q : value) : Question :=
  {| question := trim (str_of (field q "question"));
     options := match field q "options" with
                | VArr opts => map (fun opt => trim (str_of opt)) opts
                | _ => []
                end;
     correctAnswer := match field q "correctAnswer" with
                      | VNum n => n
                      | _ => 0
                      end;
     explanation := trim (str_of (field q "explanation")) |}.

(** [null] or [undefined]. *)
Definition nullish (q : value) : bool :=
  match q with
  | VUndefined | VNull => true
  | _ => false
  end.

(** A candidate whose text is three spaces and whose answer key is 3/2. *)
Definition blank_candidate : value :=
  VObj [ (js "question", VStr (js "   "));
         (js "options", VArr [VStr (js "a"); VStr (js "b"); VStr (js "c"); VStr (js "d")]);
         (js "correctAnswer", VNum (3 # 2));
         (js "explanation", VStr (js "why")) ].

(** What the validator makes of it. *)
Definition blank_question : Question :=
  {| question := [];
     options := [js "a"; js "b"; js "c"; js "d"];
     correctAnswer := 3 # 2;
     explanation := js "why" |}.

(** A candidate with blanks around every string. *)
Definition padded_candidate : value :=
  VObj [ (js "question", VStr (js "  What is a stack?  "));
         (js "options", VArr [VStr (js " LIFO"); VStr (js "FIFO "); VStr (js "tree"); VStr (js "heap")]);
         (js "correctAnswer", VNum 0);
         (js "explanation", VStr (js " Last in, first out. ")) ].

Definition padded_question : Question :=
  {| question := js "What is a stack?";
     options := [js "LIFO"; js "FIFO"; js "tree"; js "heap"];
     correctAnswer := 0;
     explanation := js "Last in, first out." |}.

(** A sample of [Math.random]: 0, 1/8, ..., 7/8, 0, ... *)
Definition sample_random (k : nat) : Q := Z.of_nat (k mod 8) # 8.

(** The double printed as 0.8333333333333333, the one below the double
    nearest to 5/6. *)
Definition below_five_sixths : Q := 7505999378950826 # 2 ^ 53.

(** [clean], as a test that computes. *)
Definition cleanb (q : Question) : bool :=
  negb (bool_decide (question q = []))
  && bool_decide (trim (question q) = question q)
  && (length (options q) =? 4)%nat
  && forallb (fun o => bool_decide (trim o = o)) (options q)
  && Qle_bool 0 (correctAnswer q) && Qle_bool (correctAnswer q) 3
  && negb (bool_decide (explanation q = []))
  && bool_decide (trim (explanation q) = explanation q).

(** A list of the bank: five clean questions. *)
Definition fiveClean (qs : list Question) : bool :=
  (length qs =? 5)%nat && forallb cleanb qs.

(** An environment with no key: nothing is fetched. *)
Definition env_no_key : Env :=
  {| OPENAI_API_KEY := VUndefined;
     fetch := Throw NetworkError;
     JSON_parse := fun _ => Throw SyntaxError;
     Math_random := sample_random |}.

(** A response whose only candidate is an empty object, inside a fenced
    block. *)
Definition env_invalid_batch : Env :=
  {| OPENAI_API_KEY := VStr (js "sk-test");
     fetch := Ok {| ok := true;
                    json := Ok (VObj [ (js "choices",
                              VArr [ VObj [ (js "message",
                                VObj [ (js "content",
                                  VStr (js "```json" ++ [10%N] ++ js "[{}]"
                                        ++ [10%N] ++ js "```")) ]) ] ]) ]) |};
     JSON_parse := fun s => if decide (s = js "[{}]")
                            then Ok (VArr [VObj []])
                            else Throw SyntaxError;
     Math_random := sample_random |}.

(** What holds on every page of a session over [qs]: the running score is
    the number of correctly answered questions, and once the results screen
    is shown it reports that score out of [length qs]. *)
Definition session_inv (qs : list Question) (p : Page) : Prop :=
  App.questions (app p) = qs /\
  QuizDisplay.score (display p)
  = countCorrect qs (QuizDisplay.selectedAnswers (display p)) /\
  (App.appState (app p) = results ->
   App.quizResults (app p)
   = Some (mkResults (QuizDisplay.score (display p)) (length qs))).

(** ** [SubjectSelection]: the selection screen *)

Module SubjectSelection.

Record subject := mkSubject {
  id : nat;
  name : jsstring;
  icon : jsstring
}.

(** The constant [subjects]; the icons are emoji, written as code units. *)
Definition subjects : list subject :=
  [ {| id := 1; name := js "Data Structures"; icon := [55356%N; 57303%N; 65039%N] |};
    {| id := 2; name := js "Algorithms"; icon := [9881%N; 65039%N] |};
    {| id := 3; name := js "Database Management"; icon := [55357%N; 56772%N; 65039%N] |};
    {| id := 4; name := js "Operating Systems"; icon := [55357%N; 56741%N; 65039%N] |};
    {| id := 5; name := js "Computer Networks"; icon := [55356%N; 57104%N] |};
    {| id := 6; name := js "Web Development"; icon := [55356%N; 57104%N] |};
    {| id := 7; name := js "Cloud Computing"; icon := [9729%N; 65039%N] |};
    {| id := 8; name := js "DevOps"; icon := [55357%N; 56580%N] |} ].

Record state := mkState {
  difficulty : Difficulty;
  selectedSubject : option subject
}.

(** The initial values of the [useState] hooks. *)
Definition init : state :=
  {| difficulty := medium; selectedSubject := None |}.

(** [handleStart()]: the argument handed to [onSelectSubject], if it is
    called at all. *)
Definition handleStart (st : state) : option (subject * Difficulty) :=
  match selectedSubject st with
  | Some s => Some (s, difficulty st)
  | None => None
  end.

End SubjectSelection.

(** ** [Results]: the results screen

    [percentage] is [Math.round((score / totalQuestions) * 100)], a whole
    number when [totalQuestions] is not zero; the two functions below read
    nothing else. *)

Module Results.

Definition getPerformanceMessage (percentage : Z) : jsstring :=
  if (percentage =? 100)%Z
  then js "Perfect! You're a quiz master! " ++ [55356%N; 57286%N]
  else if (percentage >=? 80)%Z
  then js "Excellent performance! Well done! " ++ [55356%N; 57225%N]
  else if (percentage >=? 60)%Z
  then js "Good job! Keep practicing! " ++ [55357%N; 56397%N]
  else if (percentage >=? 40)%Z
  then js "Not bad! Review and try again! " ++ [55357%N; 56538%N]
  else js "Keep learning! You'll do better next time! " ++ [55357%N; 56490%N].

Definition getPerformanceColor (percentage : Z) : jsstring :=
  if (percentage =? 100)%Z then js "#FFD700"
  else if (percentage >=? 80)%Z then js "#4CAF50"
  else if (percentage >=? 60)%Z then js "#2196F3"
  else if (percentage >=? 40)%Z then js "#FF9800"
  else js "#F44336".

End Results.

(** ** The subject hints of [generateQuizQuestions] *)

(** The constant [subjectContext]. *)
Definition subjectContext : list (jsstring * jsstring) :=
  [ (js "Data Structures",
     js "Include concepts like arrays, linked lists, stacks, queues, trees, graphs, heaps, hash tables");
    (js "Algorithms",
     js "Include topics like sorting, searching, dynamic programming, recursion, greedy algorithms, complexity analysis");
    (js "Database Management",
     js "Include concepts like SQL, normalization, ACID properties, indexing, transactions, relational models");
    (js "Operating Systems",
     js "Include topics like processes, threads, synchronization, deadlock, memory management, scheduling");
    (js "Computer Networks",
     js "Include concepts like TCP/IP, DNS, HTTP, routing, switching, network layers, protocols");
    (js "Web Development",
     js "Include topics like HTML, CSS, JavaScript, frameworks, responsive design, APIs, databases");
    (js "Cloud Computing",
     js "Include concepts like AWS, Azure, GCP, virtualization, containers, microservices, scalability");
    (js "DevOps",
     js "Include topics like CI/CD, Docker, Kubernetes, Infrastructure as Code, monitoring, deployment") ].

(** What [subjectContext[subject] || '...'] puts into the prompt: a hint of
    the table, the generic hint, or the text of an inherited built-in. *)
Inductive hint :=
| Hint (text : jsstring)
| BuiltInText (name : jsstring).

(** The constant [subjectDetails]. *)
Definition subjectDetails (subject : jsstring) : hint :=
  match read subjectContext subject with
  | Own text => Hint text
  | Inherited name => BuiltInText name
  | Absent => Hint (js "General computer science concepts")
  end.

(** ** The whole application

    One component is on the page at a time: the selection screen while
    [appState] is [selection] and nothing is loading, the quiz while it is
    [quiz], the results while it is [results] and [quizResults] is set; the
    error banner while [error] is set.  A component that leaves the page
    loses its state, and starts from its initial state when it comes back. *)

Record System := mkSystem {
  page : Page;
  selecting : SubjectSelection.state
}.

Inductive action :=
| SubjectClick (k : nat)             (* click on the [k]-th subject card *)
| DifficultyClick (d : Difficulty)   (* click on a difficulty button *)
| StartClick (env : Env)             (* Start Quiz; [env] is the world during the call *)
| QuizClick (ev : event)             (* a control of the quiz *)
| RetryClick (env : Env)             (* Retry Same Quiz *)
| NewSubjectClick                    (* Select Another Subject *)
| DismissClick.                      (* Dismiss, on the error banner *)

Definition selectionShown (a : App.state) : bool :=
  match App.appState a, App.loading a with
  | selection, false => true
  | _, _ => false
  end.

Definition resultsShown (a : App.state) : bool :=
  match App.appState a, App.quizResults a with
  | results, Some _ => true
  | _, _ => false
  end.

Definition bannerShown (a : App.state) : bool :=
  match App.error a with
  | Some _ => true
  | None => false
  end.

(** Back on the selection screen, which is mounted afresh. *)
Definition toSelection (sys : System) : System :=
  {| page := {| app := App.handleSelectNewSubject (app (page sys));
                display := display (page sys) |};
     selecting := SubjectSelection.init |}.

(** The state after one action; an action whose control is not on the page,
    or is disabled, changes nothing. *)
Definition dispatch (sys : System) (a : action) : System :=
  let ap := app (page sys) in
  match a with
  | SubjectClick k =>
    match selectionShown ap, SubjectSelection.subjects !! k with
    | true, Some s =>
      {| page := page sys;
         selecting := {| SubjectSelection.difficulty :=
                           SubjectSelection.difficulty (selecting sys);
                         SubjectSelection.selectedSubject := Some s |} |}
    | _, _ => sys
    end
  | DifficultyClick d =>
    if selectionShown ap
    then {| page := page sys;
            selecting := {| SubjectSelection.difficulty := d;
                            SubjectSelection.selectedSubject :=
                              SubjectSelection.selectedSubject (selecting sys) |} |}
    else sys
  | StartClick env =>
    match selectionShown ap, SubjectSelection.handleStart (selecting sys) with
    | true, Some (s, d) =>
      {| page := mount (App.handleSelectSubject env ap (SubjectSelection.name s) d);
         selecting := SubjectSelection.init |}
    | _, _ => sys
    end
  | QuizClick ev =>
    {| page := click (page sys) ev; selecting := selecting sys |}
  | RetryClick env =>
    match resultsShown ap, App.handleRetry env ap with
    | true, Some ap' => {| page := mount ap'; selecting := selecting sys |}
    | _, _ => sys
    end
  | NewSubjectClick => if resultsShown ap then toSelection sys else sys
  | DismissClick => if bannerShown ap then toSelection sys else sys
  end.

(** The application as it loads. *)
Definition boot : System :=
  {| page := mount App.init; selecting := SubjectSelection.init |}.

Definition run (actions : list action) : System := fold_left dispatch actions boot.

(** What holds of a quiz in progress over [qs]. *)
Definition quiz_inv (qs : list Question) (st : QuizDisplay.state) : Prop :=
  (QuizDisplay.currentQuestion st < length qs
   \/ qs = [] /\ st = QuizDisplay.init) /\
  (forall i, i < QuizDisplay.currentQuestion st ->
             is_Some (QuizDisplay.selectedAnswers st !! i)) /\
  (forall i, QuizDisplay.currentQuestion st < i ->
             QuizDisplay.selectedAnswers st !! i = None) /\
  (forall i a q, QuizDisplay.selectedAnswers st !! i = Some a ->
                 qs !! i = Some q -> a < length (options q)) /\
  QuizDisplay.showResult st = QuizDisplay.isAnswered st /\
  QuizDisplay.score st = countCorrect qs (QuizDisplay.selectedAnswers st).

(** What holds once the results of a quiz over [qs] are reported as [r]. *)
Definition results_inv (qs : list Question) (st : QuizDisplay.state)
  (r : Results) : Prop :=
  qs <> [] /\
  (forall i, i < length qs -> is_Some (QuizDisplay.selectedAnswers st !! i)) /\
  (forall i a q, QuizDisplay.selectedAnswers st !! i = Some a ->
                 qs !! i = Some q -> a < length (options q)) /\
  r = mkResults (countCorrect qs (QuizDisplay.selectedAnswers st)) (length qs) /\
  score r <= totalQuestions r.

(** A quiz was started from the selection screen. *)
Definition started (a : App.state) : Prop :=
  exists s d,
    s ∈ SubjectSelection.subjects /\
    App.selectedSubject a = Some (SubjectSelection.name s) /\
    App.selectedDifficulty a = Some d /\
    Forall wellFormed (App.questions a).

(** The invariant of the application. *)
Definition system_inv (sys : System) : Prop :=
  let a := app (page sys) in
  let st := display (page sys) in
  App.error a = None /\ App.loading a = false /\
  (forall s, SubjectSelection.selectedSubject (selecting sys) = Some s ->
             s ∈ SubjectSelection.subjects) /\
  match App.appState a with
  | selection => a = App.init
  | loading => False
  | quiz => started a /\ quiz_inv (App.questions a) st
  | results =>
    started a /\
    exists r, App.quizResults a = Some r /\ results_inv (App.questions a) st r
  end.

(** ** Further notions and sample data *)

(** A whole quiz with no key: Algorithms at the default difficulty, every
    question answered with option 1. *)
Definition sample_session : list action :=
  [ SubjectClick 1; StartClick env_no_key;
    QuizClick (AnswerClick 1); QuizClick NextClick;
    QuizClick (AnswerClick 1); QuizClick NextClick;
    QuizClick (AnswerClick 1); QuizClick NextClick;
    QuizClick (AnswerClick 1); QuizClick NextClick;
    QuizClick (AnswerClick 1); QuizClick NextClick ].

(** A world whose response is an empty array. *)
Definition env_empty_batch : Env :=
  {| OPENAI_API_KEY := VStr (js "sk-test");
     fetch := Ok {| ok := true;
                    json := Ok (VObj [ (js "choices",
                              VArr [ VObj [ (js "message",
                                VObj [ (js "content", VStr (js "[]")) ]) ] ]) ]) |};
     JSON_parse := fun s => if decide (s = js "[]")
                            then Ok (VArr [])
                            else Throw SyntaxError;
     Math_random := sample_random |}.

(** Only whitespace. *)
Definition whiteOnly (s : jsstring) : Prop := Forall (fun c => is_white c = true) s.

(** [out] is [raw] without some whitespace at its two ends. *)
Definition surrounds (raw out : jsstring) : Prop :=
  exists l r, raw = l ++ out ++ r /\ whiteOnly l /\ whiteOnly r.

(** Neither the first nor the last code unit is whitespace. *)
Definition trimmed (s : jsstring) : Prop :=
  (forall c t, s = c :: t -> is_white c = false) /\
  (forall c t, s = t ++ [c] -> is_white c = false).

(** No backtick. *)
Definition noTick (s : jsstring) : Prop := Forall (fun c => c <> 96%N) s.

(** A world whose fenced response holds one padded candidate, though five
    were asked for. *)
Definition env_one_question : Env :=
  {| OPENAI_API_KEY := VStr (js "sk-test");
     fetch := Ok {| ok := true;
                    json := Ok (VObj [ (js "choices",
                              VArr [ VObj [ (js "message",
                                VObj [ (js "content",
                                  VStr (js "```json" ++ [10%N] ++ js "[1]"
                                        ++ [10%N] ++ js "```")) ]) ] ]) ]) |};
     JSON_parse := fun s => if decide (s = js "[1]")
                            then Ok (VArr [padded_candidate])
                            else Throw SyntaxError;
     Math_random := sample_random |}.

(** The number of questions answered with their correct option. *)
Fixpoint correctPicks (qs : list Question) (cs : list nat) : nat :=
  match qs, cs with
  | q :: qs', c :: cs' =>
    (if QuizDisplay.strictEq c (correctAnswer q) then 1 else 0)
    + correctPicks qs' cs'
  | _, _ => 0
  end.

(** A double of the unit interval whose draw in round [i] is [j]: the
    least multiple of [2^-53] that is at least [j / (i + 1)]. *)
Definition drawFor (j i : nat) : Q :=
  ((Z.of_nat j * 2 ^ 53 + Z.of_nat i) / Z.of_nat (i + 1))%Z # 2 ^ 53.

(** Does not start with a backtick. *)
Definition noTickFirst (s : jsstring) : Prop :=
  match s with
  | c :: _ => c <> 96%N
  | [] => True
  end.

(** * Properties *)

(** ** Trimming *)

Lemma trimStart_head s c t : trimStart s = c :: t -> is_white c = false.
Proof.
  induction s as [|d s IH]; simpl; [discriminate|].
  destruct (is_white d) eqn:Hd; [exact IH|].
  intros [= <- _]. exact Hd.
Qed.

Lemma trimStart_clean c s : is_white c = false -> trimStart (c :: s) = c :: s.
Proof. intros H. simpl. now rewrite H. Qed.

Lemma trimStart_snoc s c :
  is_white c = false -> trimStart (s ++ [c]) = trimStart s ++ [c].
Proof.
  intros Hc. induction s as [|d s IH]; simpl.
  - now rewrite Hc.
  - destruct (is_white d); [exact IH | reflexivity].
Qed.

Lemma trimStart_idem s : trimStart (trimStart s) = trimStart s.
Proof.
  destruct (trimStart s) as [|c t] eqn:E; [reflexivity|].
  apply trimStart_clean. eapply trimStart_head, E.
Qed.

Lemma trimEnd_cons c s : is_white c = false -> trimEnd (c :: s) = c :: trimEnd s.
Proof.
  intros Hc. unfold trimEnd. simpl rev.
  rewrite trimStart_snoc by exact Hc.
  now rewrite rev_app_distr.
Qed.

Lemma trimEnd_idem s : trimEnd (trimEnd s) = trimEnd s.
Proof. unfold trimEnd. now rewrite rev_involutive, trimStart_idem. Qed.

Lemma trim_idem s : trim (trim s) = trim s.
Proof.
  unfold trim. destruct (trimStart s) as [|c t] eqn:E; [reflexivity|].
  pose proof (trimStart_head _ _ _ E) as Hc.
  rewrite (trimEnd_cons c t Hc), (trimStart_clean c _ Hc).
  now rewrite (trimEnd_cons c _ Hc), trimEnd_idem.
Qed.

(** ** The validator *)

Lemma get_to_value q :
  get (to_value q) (js "question") = Some (VStr (question q)) /\
  get (to_value q) (js "options") = Some (VArr (map VStr (options q))) /\
  get (to_value q) (js "correctAnswer") = Some (VNum (correctAnswer q)) /\
  get (to_value q) (js "explanation") = Some (VStr (explanation q)).
Proof. repeat split; reflexivity. Qed.

Lemma get_field q key : nullish q = false -> get q (js key) = Some (field q key).
Proof. unfold field. now destruct q. Qed.

Lemma existsb_not_string opts :
  existsb (fun opt => negb (is_string opt)) opts = negb (forallb is_string opts).
Proof.
  induction opts as [|o opts IH]; simpl; [reflexivity|].
  rewrite IH. now destruct (is_string o).
Qed.

Lemma range_test n :
  (if Qlt_le_dec n 0 then true else if Qlt_le_dec 3 n then true else false)
  = negb (Qle_bool 0 n && Qle_bool n 3).
Proof.
  destruct (Qlt_le_dec n 0) as [H|H].
  - destruct (Qle_bool 0 n) eqn:E; [|reflexivity].
    apply Qle_bool_iff in E. exfalso. eapply Qlt_not_le; eassumption.
  - apply Qle_bool_iff in H. rewrite H. simpl.
    destruct (Qlt_le_dec 3 n) as [H3|H3].
    + destruct (Qle_bool n 3) eqn:E; [|reflexivity].
      apply Qle_bool_iff in E. exfalso. eapply Qlt_not_le; eassumption.
    + apply Qle_bool_iff in H3. now rewrite H3.
Qed.

(** The validator as one cascade over the tests above. *)
Lemma validateQuestion_cascade q index :
  nullish q = false ->
  validateQuestion q index =
    if negb (nonEmptyString (field q "question"))
    then Throw (Error (MissingQuestionText (index + 1)))
    else if negb (fourOptions (field q "options"))
    then Throw (Error (NotFourOptions (index + 1)))
    else if negb (stringOptions (field q "options"))
    then Throw (Error (OptionsNotStrings (index + 1)))
    else if negb (numberWithin0to3 (field q "correctAnswer"))
    then Throw (Error (CorrectAnswerRange (index + 1)))
    else if negb (nonEmptyString (field q "explanation"))
    then Throw (Error (MissingExplanation (index + 1)))
    else Ok (normalized q).
Proof.
  intros Hq. unfold validateQuestion, normalized.
  rewrite !(get_field q _ Hq).
  unfold nonEmptyString.
  destruct (truthy (field q "question")), (is_string (field q "question"));
    simpl; try reflexivity.
  destruct (field q "options") as [| | | | |opts|]; simpl; try reflexivity.
  destruct (length opts =? 4)%nat; simpl; [|reflexivity].
  rewrite existsb_not_string.
  destruct (forallb is_string opts); simpl; [|reflexivity].
  destruct (field q "correctAnswer") as [| | |n| | |]; simpl; try reflexivity.
  pose proof (range_test n) as Hr.
  destruct (Qlt_le_dec n 0); [now rewrite <- Hr|].
  destruct (Qlt_le_dec 3 n); [now rewrite <- Hr|].
  rewrite <- Hr. simpl.
  destruct (truthy (field q "explanation")), (is_string (field q "explanation"));
    reflexivity.
Qed.



(** The rejections the specification lists, each under its field. *)
Example validateQuestion_rejects :
  let cand text opts ans expl :=
    VObj [ (js "question", text); (js "options", VArr (map VStr opts));
           (js "correctAnswer", ans); (js "explanation", expl) ] in
  let four := [js "a"; js "b"; js "c"; js "d"] in
  validateQuestion (cand (VStr (js "Q")) [js "a"; js "b"; js "c"] (VNum 1) (VStr (js "E"))) 0
    = Throw (Error (NotFourOptions 1)) /\
  validateQuestion (cand (VStr (js "Q")) (js "e" :: four) (VNum 1) (VStr (js "E"))) 1
    = Throw (Error (NotFourOptions 2)) /\
  validateQuestion (cand (VStr (js "Q")) four (VNum 4) (VStr (js "E"))) 0
    = Throw (Error (CorrectAnswerRange 1)) /\
  validateQuestion (cand (VStr (js "Q")) four (VNum (-1)) (VStr (js "E"))) 0
    = Throw (Error (CorrectAnswerRange 1)) /\
  validateQuestion (cand (VStr []) four (VNum 1) (VStr (js "E"))) 0
    = Throw (Error (MissingQuestionText 1)) /\
  validateQuestion (VObj [ (js "question", VStr (js "Q"));
                           (js "options", VArr (map VStr four));
                           (js "correctAnswer", VNum 1) ]) 4
    = Throw (Error (MissingExplanation 5)) /\
  validateQuestion VNull 0 = Throw TypeError.
Proof. repeat split; reflexivity. Qed.

Lemma map_trim_fixed (opts : list jsstring) :
  Forall (fun o => trim o = o) opts ->
  map (fun opt => trim (str_of opt)) (map VStr opts) = opts.
Proof.
  induction 1 as [|o opts Ho _ IH]; simpl; [reflexivity|].
  now rewrite Ho, IH.
Qed.

Lemma forallb_is_string (opts : list jsstring) :
  forallb is_string (map VStr opts) = true.
Proof. induction opts; simpl; auto. Qed.

Lemma nonEmptyString_VStr s : s <> [] -> nonEmptyString (VStr s) = true.
Proof. destruct s; [congruence|reflexivity]. Qed.

(** Reads the four fields of an object built by [to_value]. *)
Ltac to_value_fields q :=
  change (field (to_value q) "question") with (VStr (question q));
  change (field (to_value q) "options") with (VArr (map VStr (options q)));
  change (field (to_value q) "correctAnswer") with (VNum (correctAnswer q));
  change (field (to_value q) "explanation") with (VStr (explanation q)).

(** A clean question passes the validator unchanged, at any position. *)
Lemma validate_clean q index :
  clean q -> validateQuestion (to_value q) index = Ok q.
Proof.
  intros (Hq & Htq & Hlen & Hopts & H0 & H3 & He & Hte).
  rewrite validateQuestion_cascade by reflexivity.
  to_value_fields q.
  rewrite (nonEmptyString_VStr _ Hq), (nonEmptyString_VStr _ He).
  unfold fourOptions, stringOptions, numberWithin0to3.
  rewrite length_map, Hlen, forallb_is_string.
  apply Qle_bool_iff in H0, H3. rewrite H0, H3. simpl.
  f_equal. unfold normalized.
  to_value_fields q.
  simpl str_of. rewrite Htq, Hte, (map_trim_fixed _ Hopts).
  now destruct q.
Qed.

(** What a successful validation says about the candidate. *)
Lemma validateQuestion_Ok c index q :
  validateQuestion c index = Ok q ->
  nullish c = false /\ q = normalized c /\
  fourOptions (field c "options") = true /\
  numberWithin0to3 (field c "correctAnswer") = true.
Proof.
  intros H. destruct (nullish c) eqn:Hc.
  { destruct c; simpl in Hc; try discriminate; simpl in H; discriminate. }
  rewrite (validateQuestion_cascade c index Hc) in H.
  destruct (nonEmptyString (field c "question")); simpl in H; [|discriminate].
  destruct (fourOptions (field c "options")); simpl in H; [|discriminate].
  destruct (stringOptions (field c "options")); simpl in H; [|discriminate].
  destruct (numberWithin0to3 (field c "correctAnswer")); simpl in H; [|discriminate].
  destruct (nonEmptyString (field c "explanation")); simpl in H; [|discriminate].
  injection H as <-. auto.
Qed.

(** Every validated question has four options and an answer key within
    0..3. *)
Lemma validateQuestion_wellFormed c index q :
  validateQuestion c index = Ok q -> wellFormed q.
Proof.
  intros H. apply validateQuestion_Ok in H as (_ & -> & H4 & Hn).
  unfold wellFormed, normalized. simpl.
  destruct (field c "options") as [| | | | |opts|]; simpl in H4; try discriminate.
  destruct (field c "correctAnswer") as [| | |n| | |]; simpl in Hn; try discriminate.
  apply andb_true_iff in Hn as [H0 H3]. apply Qle_bool_iff in H0, H3.
  rewrite length_map. apply Nat.eqb_eq in H4. auto.
Qed.

(** C5 (amended): when the validator succeeds and the cleaned text and
    explanation are not empty, validating its output again, at any
    position, succeeds and returns the very same question. *)
Theorem validateQuestion_idempotent (c : value) (i j : nat) (q : Question) :
  validateQuestion c i = Ok q ->
  question q <> [] ->
  explanation q <> [] ->
  validateQuestion (to_value q) j = Ok q.
Proof.
  intros H Hq He. apply validate_clean.
  pose proof (validateQuestion_wellFormed _ _ _ H) as (Hlen & H0 & H3).
  apply validateQuestion_Ok in H as (_ & -> & _ & _).
  unfold clean. repeat split; try assumption.
  - apply trim_idem.
  - unfold normalized; simpl.
    destruct (field c "options") as [| | | | |opts|]; try constructor.
    induction opts; simpl; constructor; auto using trim_idem.
  - apply trim_idem.
Qed.

Lemma validateQuestion_idempotent_witness :
  validateQuestion padded_candidate 0 = Ok padded_question /\
  validateQuestion (to_value padded_question) 3 = Ok padded_question.
Proof.
  split; [reflexivity|].
  apply (validateQuestion_idempotent padded_candidate 0 3 padded_question);
    [reflexivity | discriminate | discriminate].
Defined.

(** C5, counterexample: the validator accepts the blank candidate, and
    rejects its own output for a missing text. *)
Lemma revalidation_fails_on_blank_text :
  validateQuestion blank_candidate 0 = Ok blank_question /\
  validateQuestion (to_value blank_question) 0
    = Throw (Error (MissingQuestionText 1)).
Proof. split; reflexivity. Qed.

(** ** Doubles *)

(** Rounding to the nearest integer adds at most one half. *)
Lemma roundHalfEven_le (y : Q) : (inject_Z (roundHalfEven y) <= y + (1 # 2))%Q.
Proof.
  unfold roundHalfEven.
  pose proof (Qfloor_le y) as Hf.
  destruct (Qcompare_spec (y - inject_Z (Qfloor y)) (1 # 2)) as [He | Hl | Hg].
  - destruct (Z.even (Qfloor y)); [lra |].
    rewrite inject_Z_plus. change (inject_Z 1) with 1%Q. lra.
  - lra.
  - rewrite inject_Z_plus. change (inject_Z 1) with 1%Q. lra.
Qed.

Lemma pow2_pos (z : Z) : (0 < 2 ^ z)%Q.
Proof. apply Qpower_0_lt. reflexivity. Qed.

Lemma pow2_inject (n : Z) : (0 <= n)%Z -> (inject_Z (2 ^ n) == 2 ^ n)%Q.
Proof. intros Hn. now rewrite Zpower_Qpower. Qed.

(** [2 ^ floorLog2 x] is at most [x]. *)
Lemma floorLog2_le (x : Q) : (0 < x)%Q -> (2 ^ floorLog2 x <= x)%Q.
Proof.
  intros Hx. unfold floorLog2.
  set (k := (Z.log2 (Qnum x) - Z.log2 (Z.pos (Qden x)))%Z).
  destruct (Qle_bool (2 ^ k) x) eqn:Hk; [now apply Qle_bool_iff |].
  destruct x as [a b]. unfold Qlt in Hx. simpl in Hx. cbn [Qnum Qden] in k.
  assert (Ha : (0 < a)%Z) by lia.
  destruct (Z.log2_spec a Ha) as [Hla _].
  destruct (Z.log2_spec (Z.pos b) ltac:(lia)) as [_ Hlb].
  pose proof (Z.log2_nonneg a) as Hla0.
  pose proof (Z.log2_nonneg (Z.pos b)) as Hlb0.
  set (la := Z.log2 a) in *. set (lb := Z.log2 (Z.pos b)) in *.
  replace (k - 1)%Z with (la - Z.succ lb)%Z by (unfold k; lia).
  rewrite Qpower_minus by discriminate.
  rewrite <- !pow2_inject by lia.
  rewrite (Qmake_Qdiv a b).
  assert (H1 : (inject_Z (2 ^ la) <= inject_Z a)%Q) by (now rewrite <- Zle_Qle).
  assert (H2 : (inject_Z (Z.pos b) <= inject_Z (2 ^ Z.succ lb))%Q)
    by (rewrite <- Zle_Qle; lia).
  assert (H3 : (0 < inject_Z (Z.pos b))%Q) by reflexivity.
  assert (H4 : (0 < inject_Z (2 ^ la))%Q).
  { change 0%Q with (inject_Z 0). rewrite <- Zlt_Qlt. apply Z.pow_pos_nonneg; lia. }
  set (A := inject_Z a) in *. set (B := inject_Z (Z.pos b)) in *.
  set (P := inject_Z (2 ^ la)) in *. set (R := inject_Z (2 ^ Z.succ lb)) in *.
  apply Qle_shift_div_l; [exact H3 |].
  apply Qle_trans with (P / R * R)%Q.
  - apply Qmult_le_l; [| exact H2].
    apply Qlt_shift_div_l; lra.
  - assert (E : (P / R * R == P)%Q) by (field; lra). rewrite E. exact H1.
Qed.

(** Rounding to the nearest double adds at most half a unit in the last
    place: [2^-53] of the number where doubles are normal, half of
    [2^-1074] below. *)
Lemma roundNonneg_le (x : Q) :
  (0 <= x)%Q ->
  (roundNonneg x <= x + x * (1 # 2 ^ 53))%Q \/ (roundNonneg x <= x + (1 # 2 ^ 1075))%Q.
Proof.
  intros Hx. unfold roundNonneg.
  set (e := Z.max (-1074) (floorLog2 x - 52)).
  pose proof (pow2_pos e) as Hp.
  set (p := (2 ^ e)%Q) in *.
  pose proof (roundHalfEven_le (x / p)) as Hm.
  set (M := roundHalfEven (x / p)) in *.
  assert (Hr : (inject_Z M * p <= x + p * (1 # 2))%Q).
  { apply (Qmult_le_compat_r _ _ p) in Hm; [| lra].
    assert (E : ((x / p + (1 # 2)) * p == x + p * (1 # 2))%Q) by (field; lra).
    rewrite E in Hm. exact Hm. }
  destruct (Z.max_spec (-1074) (floorLog2 x - 52)) as [[Hlt Hmax] | [Hge Hmax]];
    fold e in Hmax.
  - (* normal numbers *)
    left.
    destruct (Qlt_le_dec 0 x) as [Hpos | Hzero].
    + pose proof (floorLog2_le x Hpos) as Hfl.
      assert (E : (2 ^ floorLog2 x == p * 2 ^ 52)%Q).
      { unfold p. rewrite Hmax, <- Qpower_plus by discriminate.
        now replace (floorLog2 x - 52 + 52)%Z with (floorLog2 x) by lia. }
      rewrite E in Hfl.
      change (2 ^ 52)%Q with (4503599627370496 # 1)%Q in Hfl.
      change (1 # 2 ^ 53)%Q with (1 # 9007199254740992)%Q.
      lra.
    + (* zero *)
      assert (E0 : (x == 0)%Q) by lra.
      assert (EM : M = 0%Z).
      { unfold M, roundHalfEven.
        assert (Ey : (x / p == 0)%Q) by (rewrite E0; field; lra).
        rewrite (Qfloor_comp _ _ Ey). change (Qfloor 0) with 0%Z.
        destruct (Qcompare_spec (x / p - inject_Z 0) (1 # 2)) as [H | H | H];
          [reflexivity | reflexivity |].
        rewrite Ey in H. discriminate H. }
      rewrite EM. change (1 # 2 ^ 53)%Q with (1 # 9007199254740992)%Q.
      change (inject_Z 0) with 0%Q. lra.
  - (* subnormal numbers *)
    right.
    assert (E : (p * (1 # 2) == 1 # 2 ^ 1075)%Q).
    { unfold p. rewrite Hmax. reflexivity. }
    rewrite E in Hr. exact Hr.
Qed.

Lemma round64_le (x : Q) :
  (0 <= x)%Q ->
  (round64 x <= x + x * (1 # 2 ^ 53))%Q \/ (round64 x <= x + (1 # 2 ^ 1075))%Q.
Proof.
  intros Hx. unfold round64.
  destruct (Qlt_le_dec x 0) as [Hneg | _]; [lra |].
  now apply roundNonneg_le.
Qed.

Lemma roundHalfEven_ge (y : Q) : (Qfloor y <= roundHalfEven y)%Z.
Proof.
  unfold roundHalfEven.
  destruct (y - inject_Z (Qfloor y) ?= 1 # 2)%Q; [destruct (Z.even _) | |]; lia.
Qed.

Lemma floorLog2_lt (x : Q) (n : Z) : (0 < x)%Q -> (x < 2 ^ n)%Q -> (floorLog2 x < n)%Z.
Proof.
  intros Hx Hn. apply (Qpower_lt_compat_l_inv 2); [| reflexivity].
  eapply Qle_lt_trans; [apply floorLog2_le, Hx | exact Hn].
Qed.

(** [x] is below [2 ^ (floorLog2 x + 1)]. *)
Lemma floorLog2_gt (x : Q) : (0 < x)%Q -> (x < 2 ^ (floorLog2 x + 1))%Q.
Proof.
  intros Hx. unfold floorLog2.
  set (k := (Z.log2 (Qnum x) - Z.log2 (Z.pos (Qden x)))%Z).
  destruct (Qle_bool (2 ^ k) x) eqn:Hk.
  - destruct x as [a b]. unfold Qlt in Hx. simpl in Hx. cbn [Qnum Qden] in k.
    assert (Ha : (0 < a)%Z) by lia.
    destruct (Z.log2_spec a Ha) as [_ Hla].
    destruct (Z.log2_spec (Z.pos b) ltac:(lia)) as [Hlb _].
    pose proof (Z.log2_nonneg a) as Hla0.
    pose proof (Z.log2_nonneg (Z.pos b)) as Hlb0.
    set (la := Z.log2 a) in *. set (lb := Z.log2 (Z.pos b)) in *.
    replace (k + 1)%Z with (Z.succ la - lb)%Z by (unfold k; lia).
    rewrite Qpower_minus by discriminate.
    rewrite <- !pow2_inject by lia.
    rewrite (Qmake_Qdiv a b).
    assert (H1 : (inject_Z a < inject_Z (2 ^ Z.succ la))%Q) by (now rewrite <- Zlt_Qlt).
    assert (H2 : (inject_Z (2 ^ lb) <= inject_Z (Z.pos b))%Q)
      by (now rewrite <- Zle_Qle).
    assert (H3 : (0 < inject_Z (2 ^ lb))%Q).
    { change 0%Q with (inject_Z 0). rewrite <- Zlt_Qlt. apply Z.pow_pos_nonneg; lia. }
    assert (H4 : (0 < inject_Z a)%Q).
    { change 0%Q with (inject_Z 0). now rewrite <- Zlt_Qlt. }
    set (A := inject_Z a) in *. set (B := inject_Z (Z.pos b)) in *.
    set (P := inject_Z (2 ^ Z.succ la)) in *. set (R := inject_Z (2 ^ lb)) in *.
    apply Qlt_shift_div_r; [lra |].
    apply Qlt_le_trans with (P / R * R)%Q.
    + assert (E : (P / R * R == P)%Q) by (field; lra). rewrite E. exact H1.
    + apply Qmult_le_l; [| exact H2].
      apply Qlt_shift_div_l; lra.
  - replace (k - 1 + 1)%Z with k by lia.
    apply Qnot_le_lt. intros H. apply Qle_bool_iff in H. congruence.
Qed.

(** Rounding to the nearest integer moves by at most one half. *)
Lemma roundHalfEven_near (y : Q) :
  (y - (1 # 2) <= inject_Z (roundHalfEven y) <= y + (1 # 2))%Q.
Proof.
  split; [| apply roundHalfEven_le].
  unfold roundHalfEven.
  pose proof (Qlt_floor y) as Hf. rewrite inject_Z_plus in Hf.
  change (inject_Z 1) with 1%Q in Hf.
  destruct (Qcompare_spec (y - inject_Z (Qfloor y)) (1 # 2)) as [He | Hl | Hg].
  - destruct (Z.even (Qfloor y)); [lra |].
    rewrite inject_Z_plus. change (inject_Z 1) with 1%Q. lra.
  - lra.
  - rewrite inject_Z_plus. change (inject_Z 1) with 1%Q. lra.
Qed.

(** The rounded number is a double. *)
Lemma roundNonneg_is_double (x : Q) :
  (0 <= x)%Q -> (x < 2 ^ 1023)%Q -> is_double (roundNonneg x).
Proof.
  intros Hx0 Hx. unfold roundNonneg.
  set (e := Z.max (-1074) (floorLog2 x - 52)).
  pose proof (pow2_pos e) as Hp.
  pose proof (roundHalfEven_ge (x / 2 ^ e)) as HM.
  destruct (Qlt_le_dec 0 x) as [Hpos | Hzero].
  - pose proof (floorLog2_lt x 1023 Hpos Hx) as Hfl.
    pose proof (floorLog2_gt x Hpos) as Hup.
    assert (He : (-1074 <= e <= 970)%Z) by (unfold e; lia).
    assert (Hy : (x / 2 ^ e < 2 ^ 53)%Q).
    { apply Qlt_shift_div_r; [exact Hp |].
      eapply Qlt_le_trans; [exact Hup |].
      rewrite <- Qpower_plus by discriminate.
      apply Qpower_le_compat_l; [unfold e; lia | discriminate]. }
    assert (Hy0 : (0 <= x / 2 ^ e)%Q).
    { apply Qle_shift_div_l; [exact Hp | lra]. }
    assert (Hfloor : (0 <= Qfloor (x / 2 ^ e) < 2 ^ 53)%Z).
    { split.
      - change 0%Z with (Qfloor 0). now apply Qfloor_resp_le.
      - rewrite Zlt_Qlt. eapply Qle_lt_trans; [apply Qfloor_le |].
        now rewrite pow2_inject by lia. }
    assert (HMle : (roundHalfEven (x / 2 ^ e) <= Qfloor (x / 2 ^ e) + 1)%Z).
    { unfold roundHalfEven.
      destruct (x / 2 ^ e - inject_Z (Qfloor (x / 2 ^ e)) ?= 1 # 2)%Q;
        [destruct (Z.even _) | |]; lia. }
    set (M := roundHalfEven (x / 2 ^ e)) in *.
    destruct (Z.eq_dec M (2 ^ 53)%Z) as [Htop | Hbelow].
    + exists (2 ^ 52)%Z, (e + 1)%Z. split; [reflexivity |]. split; [lia |].
      rewrite Htop, Qpower_plus by discriminate.
      change (inject_Z (2 ^ 53)) with (inject_Z (2 ^ 52) * 2 ^ 1)%Q. ring.
    + exists M, e. split; [lia |]. split; [lia | reflexivity].
  - exists 0%Z, 0%Z. split; [reflexivity |]. split; [lia |].
    assert (Ey : (x / 2 ^ e == 0)%Q).
    { assert (E0 : (x == 0)%Q) by lra. rewrite E0. field. lra. }
    assert (EM : roundHalfEven (x / 2 ^ e) = 0%Z).
    { unfold roundHalfEven.
      rewrite (Qfloor_comp _ _ Ey). change (Qfloor 0) with 0%Z.
      destruct (Qcompare_spec (x / 2 ^ e - inject_Z 0) (1 # 2)) as [H | H | H];
        [reflexivity | reflexivity |].
      rewrite Ey in H. discriminate H. }
    rewrite EM. ring.
Qed.

(** It is at most half the spacing of the doubles around [x] away from
    [x], on either side. *)
Lemma roundNonneg_near (x : Q) :
  let e := Z.max (-1074) (floorLog2 x - 52) in
  (x - 2 ^ e * (1 # 2) <= roundNonneg x <= x + 2 ^ e * (1 # 2))%Q.
Proof.
  cbv zeta. unfold roundNonneg.
  set (e := Z.max (-1074) (floorLog2 x - 52)).
  pose proof (pow2_pos e) as Hp. set (p := (2 ^ e)%Q) in *.
  destruct (roundHalfEven_near (x / p)) as [Hlo Hhi].
  apply (Qmult_le_compat_r _ _ p) in Hlo; [| lra].
  apply (Qmult_le_compat_r _ _ p) in Hhi; [| lra].
  assert (E1 : ((x / p - (1 # 2)) * p == x - p * (1 # 2))%Q) by (field; lra).
  assert (E2 : ((x / p + (1 # 2)) * p == x + p * (1 # 2))%Q) by (field; lra).
  rewrite E1 in Hlo. rewrite E2 in Hhi. split; assumption.
Qed.

(** Rounding does not cross an integer that is a double. *)
Lemma round64_ge_int (j : Z) (x : Q) :
  (0 <= j)%Z -> (inject_Z j <= x)%Q -> (x < 2 ^ 53)%Q -> (inject_Z j <= round64 x)%Q.
Proof.
  intros Hj Hjx Hx.
  assert (Hj0 : (0 <= inject_Z j)%Q)
    by (change 0%Q with (inject_Z 0); now rewrite <- Zle_Qle).
  unfold round64. destruct (Qlt_le_dec x 0) as [Hneg | Hx0]; [lra |].
  unfold roundNonneg.
  set (e := Z.max (-1074) (floorLog2 x - 52)).
  pose proof (pow2_pos e) as Hp.
  destruct (Qlt_le_dec 0 x) as [Hpos | Hzero].
  - assert (He : (e <= 0)%Z).
    { pose proof (floorLog2_lt x 53 Hpos Hx). unfold e. lia. }
    assert (Ep : (2 ^ e == / inject_Z (2 ^ (- e)))%Q).
    { rewrite pow2_inject by lia. rewrite Qpower_opp, Qinv_involutive. reflexivity. }
    assert (Hq : (0 < inject_Z (2 ^ (- e)))%Q).
    { change 0%Q with (inject_Z 0). rewrite <- Zlt_Qlt. apply Z.pow_pos_nonneg; lia. }
    set (p := (2 ^ e)%Q) in *. set (q := inject_Z (2 ^ (- e))) in *.
    assert (Ey : (x / p == x * q)%Q) by (rewrite Ep; field; lra).
    assert (HJ : (inject_Z (j * 2 ^ (- e)) <= x / p)%Q).
    { rewrite Ey, inject_Z_mult. fold q. apply Qmult_le_compat_r; lra. }
    apply Qfloor_resp_le in HJ. rewrite Qfloor_Z in HJ.
    pose proof (roundHalfEven_ge (x / p)) as HM.
    assert (HMJ : (inject_Z (j * 2 ^ (- e)) <= inject_Z (roundHalfEven (x / p)))%Q)
      by (rewrite <- Zle_Qle; lia).
    rewrite inject_Z_mult in HMJ. fold q in HMJ.
    apply (Qmult_le_compat_r _ _ p) in HMJ; [| lra].
    assert (E : (inject_Z j * q * p == inject_Z j)%Q) by (rewrite Ep; field; lra).
    rewrite E in HMJ. exact HMJ.
  - set (p := (2 ^ e)%Q) in *.
    assert (Ey : (x / p == 0)%Q).
    { assert (E0 : (x == 0)%Q) by lra. rewrite E0. field. lra. }
    pose proof (roundHalfEven_ge (x / p)) as HM.
    rewrite (Qfloor_comp _ _ Ey) in HM. change (Qfloor 0) with 0%Z in HM.
    assert (HM' : (0 <= inject_Z (roundHalfEven (x / p)))%Q)
      by (change 0%Q with (inject_Z 0); now rewrite <- Zle_Qle).
    apply Qle_trans with 0%Q; [lra |].
    apply Qmult_le_0_compat; lra.
Qed.

(** The largest double below one is [1 - 2^-53]. *)
Lemma is_double_below_one (r : Q) :
  is_double r -> (r < 1)%Q -> (r <= 1 - (1 # 2 ^ 53))%Q.
Proof.
  intros (m & e & Hm & He & Hr) H1.
  set (s := (e + 1074)%Z).
  assert (Hs : (0 <= s)%Z) by (unfold s; lia).
  assert (Hr' : (r * inject_Z (2 ^ 1074) == inject_Z (m * 2 ^ s))%Q).
  { rewrite Hr, inject_Z_mult, !pow2_inject by lia.
    unfold s. rewrite (Qpower_plus 2 e 1074) by discriminate. ring. }
  clear Hr.
  set (t := (2 ^ 1021)%Z).
  assert (Ht : (0 < t)%Z) by reflexivity.
  assert (Hc : (2 ^ 1074 = 2 ^ 53 * t)%Z) by reflexivity.
  assert (HN : (m * 2 ^ s < 2 ^ 53 * t)%Z).
  { rewrite <- Hc. rewrite Zlt_Qlt, <- Hr'.
    assert (H0 : (0 < inject_Z (2 ^ 1074))%Q)
      by (change (inject_Z 0 < inject_Z (2 ^ 1074))%Q; rewrite <- Zlt_Qlt; reflexivity).
    apply (Qmult_lt_compat_r _ _ _ H0) in H1. rewrite Qmult_1_l in H1. exact H1. }
  assert (Hle : (m * 2 ^ s <= 2 ^ 53 * t - t)%Z).
  { destruct (Z.le_gt_cases 1021 s) as [Hbig | Hsmall].
    - replace s with (1021 + (s - 1021))%Z in * by lia.
      rewrite Z.pow_add_r in * by lia. fold t in HN |- *.
      set (q := (m * (t * 2 ^ (s - 1021)))%Z) in *.
      assert (Eq : q = (m * 2 ^ (s - 1021) * t)%Z) by (unfold q; ring).
      rewrite Eq in *. clearbody t. nia.
    - assert (Hh : (2 ^ s <= 2 ^ 1020)%Z) by (apply Z.pow_le_mono_r; lia).
      assert (Hpos : (0 < 2 ^ s)%Z) by (apply Z.pow_pos_nonneg; lia).
      assert (Et : (t = 2 * 2 ^ 1020)%Z) by reflexivity.
      set (h := (2 ^ 1020)%Z) in *.
      assert (Hh0 : (0 < h)%Z) by reflexivity.
      assert (Hm' : (m <= 2 ^ 53 - 1)%Z) by lia.
      set (w := (2 ^ s)%Z) in *. set (B := (2 ^ 53)%Z) in *.
      assert (HB : (1 <= B)%Z) by (apply Z.leb_le; reflexivity).
      clearbody t h w B. subst t. nia. }
  rewrite Zle_Qle in Hle. rewrite <- Hr' in Hle.
  assert (E : (inject_Z (2 ^ 53 * t - t) == (1 - (1 # 2 ^ 53)) * inject_Z (2 ^ 1074))%Q)
    by reflexivity.
  rewrite E in Hle.
  apply Qmult_le_r in Hle; [exact Hle |].
  change (inject_Z 0 < inject_Z (2 ^ 1074))%Q. rewrite <- Zlt_Qlt. reflexivity.
Qed.

(** ** The shuffle *)

(** The index drawn in round [i] is at most [i]: the rounded product
    stays below [i + 1]. *)
Lemma randomIndex_le (r : Q) (i : nat) : in_unit r -> randomIndex r i <= i.
Proof.
  intros (Hd & H0 & H1). unfold randomIndex.
  pose proof (is_double_below_one r Hd H1) as Hr.
  set (n := inject_Z (Z.of_nat (i + 1))).
  assert (Hn : (1 <= n)%Q).
  { unfold n. change 1%Q with (inject_Z 1). rewrite <- Zle_Qle. lia. }
  assert (Hx0 : (0 <= r * n)%Q) by (apply Qmult_le_0_compat; lra).
  assert (Hx1 : (r * n <= (1 - (1 # 2 ^ 53)) * n)%Q).
  { apply Qmult_le_compat_r; lra. }
  assert (Hlt : (round64 (r * n) < n)%Q).
  { assert (Hb : ((1 # 2 ^ 1075) <= 1 # 18014398509481984)%Q)
      by (apply Qle_bool_iff; reflexivity).
    change (1 # 2 ^ 53)%Q with (1 # 9007199254740992)%Q in *.
    destruct (round64_le (r * n) Hx0) as [H | H];
      change (1 # 2 ^ 53)%Q with (1 # 9007199254740992)%Q in H; lra. }
  assert (Hz : (Qfloor (round64 (r * n)) < Z.of_nat (i + 1))%Z).
  { rewrite Zlt_Qlt. eapply Qle_lt_trans; [apply Qfloor_le | exact Hlt]. }
  lia.
Qed.

Lemma below_five_sixths_unit : in_unit below_five_sixths.
Proof.
  split; [| split; [discriminate | reflexivity]].
  exists 7505999378950826%Z, (-53)%Z.
  repeat split; try reflexivity; discriminate.
Qed.

(** The rounded product decides the draw, not the exact one.  For the
    double below 5/6 and an array of six elements the exact product is
    below 5 and half-way between two doubles; it rounds to 5, and the draw
    is 5.  Likewise [0.1] is the double nearest to one tenth, and
    [(1 / 49) * 49] is the double below one. *)
Example randomIndex_rounds_the_product :
  (below_five_sixths * 6 < 5)%Q /\
  (round64 (below_five_sixths * 6) == 5)%Q /\
  randomIndex below_five_sixths 5 = 5 /\
  (round64 (1 # 10) == 3602879701896397 # 2 ^ 55)%Q /\
  (round64 (round64 (1 # 49) * 49) == 1 - (1 # 2 ^ 53))%Q.
Proof. repeat split; reflexivity. Qed.

Lemma swap_Permutation {A} (a : list A) (i j : nat) : swap a i j ≡ₚ a.
Proof.
  unfold swap. destruct (a !! j) as [aj|] eqn:Hj; [|reflexivity].
  destruct (a !! i) as [ai|] eqn:Hi; [|reflexivity].
  now apply Permutation_insert_swap.
Qed.

Lemma shuffleLoop_Permutation {A} (rand : nat -> Q) (i k : nat) (a : list A) :
  shuffleLoop rand k i a ≡ₚ a.
Proof.
  revert k a. induction i as [|i IH]; intros k a; simpl; [reflexivity|].
  rewrite IH. apply swap_Permutation.
Qed.

Lemma shuffleArray_Permutation {A} (rand : nat -> Q) (a : list A) :
  shuffleArray rand a ≡ₚ a.
Proof. apply shuffleLoop_Permutation. Qed.

(** C7: the fallback takes the first five entries of the shuffled
    selection, and the shuffle, whose every draw in round [i] lands on a
    position from 0 to [i], returns a permutation of its input: the same
    length and the same elements with the same multiplicities. *)
Theorem shuffleArray_permutation {A : Type} (rand : nat -> Q) (array : list A) :
  (forall k, in_unit (rand k)) ->
  (forall k i, randomIndex (rand k) i <= i) /\
  shuffleArray rand array ≡ₚ array /\
  length (shuffleArray rand array) = length array /\
  (forall subject difficulty,
     generateMockQuestions rand subject difficulty
     = take 5 (shuffleArray rand (selectQuestions subject difficulty))).
Proof.
  intros Hrand. split; [|split; [|split]].
  - intros k i. apply randomIndex_le, Hrand.
  - apply shuffleArray_Permutation.
  - apply Permutation_length, shuffleArray_Permutation.
  - reflexivity.
Qed.

Lemma sample_random_unit (k : nat) : in_unit (sample_random k).
Proof.
  pose proof (Nat.mod_upper_bound k 8 ltac:(lia)) as Hk.
  unfold in_unit, sample_random. split; [| split].
  - exists (Z.of_nat (k mod 8)), (-3)%Z. split; [| split].
    + assert ((8 < 2 ^ 53)%Z) by reflexivity. lia.
    + lia.
    + rewrite (Qmake_Qdiv _ 8). reflexivity.
  - unfold Qle. cbn. lia.
  - unfold Qlt. cbn. lia.
Qed.

Lemma shuffleArray_permutation_witness :
  shuffleArray sample_random [10; 20; 30; 40; 50] = [20; 30; 40; 50; 10] /\
  shuffleArray sample_random [10; 20; 30; 40; 50] ≡ₚ [10; 20; 30; 40; 50].
Proof.
  split; [reflexivity|].
  apply (shuffleArray_permutation sample_random [10; 20; 30; 40; 50]
           sample_random_unit).
Defined.

(** The loop on the store writes the list loop's result into [s]. *)
Lemma store_shuffleLoop {A} (rand : nat -> Q) (i k : nat) (s : Store.loc)
  (h : gmap Store.loc (list A)) (a : list A) :
  h !! s = Some a ->
  Store.shuffleLoop rand k i s h = <[s := shuffleLoop rand k i a]> h.
Proof.
  revert k h a. induction i as [|i IH]; intros k h a Hs; simpl.
  - symmetry. now apply insert_id.
  - unfold Store.swapAt. rewrite Hs.
    rewrite (IH _ _ (swap a (S i) (randomIndex (rand k) (S i))))
      by apply lookup_insert_eq.
    apply insert_insert_eq.
Qed.

(** C10: called on an array of the store, [shuffleArray] returns a
    reference that was not allocated before, holding the shuffled
    contents; the argument array, and every other array of the store,
    holds what it held before the call. *)
Theorem shuffleArray_leaves_argument {A : Type} (rand : nat -> Q)
  (h : gmap Store.loc (list A)) (array : Store.loc) (content : list A) :
  h !! array = Some content ->
  exists shuffled h',
    Store.shuffleArray rand h array = Some (shuffled, h') /\
    h !! shuffled = None /\
    h' !! array = Some content /\
    (forall p, p <> shuffled -> h' !! p = h !! p) /\
    h' !! shuffled = Some (shuffleArray rand content).
Proof.
  intros Harr. unfold Store.shuffleArray, Store.alloc. rewrite Harr.
  set (s := fresh (dom h)).
  assert (Hfresh : h !! s = None).
  { apply not_elem_of_dom. apply is_fresh. }
  exists s, (<[s := shuffleArray rand content]> h).
  assert (Hne : s <> array) by congruence.
  split.
  { f_equal. f_equal.
    rewrite (store_shuffleLoop rand _ 0 s _ content) by apply lookup_insert_eq.
    apply insert_insert_eq. }
  split; [exact Hfresh|].
  split; [now rewrite lookup_insert_ne|].
  split; [intros p Hp; now rewrite lookup_insert_ne|].
  apply lookup_insert_eq.
Qed.

Lemma shuffleArray_leaves_argument_witness :
  exists shuffled h',
    Store.shuffleArray sample_random {[ 0 := [10; 20; 30] ]} 0
      = Some (shuffled, h') /\
    ({[ 0 := [10; 20; 30] ]} : gmap nat (list nat)) !! shuffled = None /\
    h' !! 0 = Some [10; 20; 30] /\
    (forall p, p <> shuffled ->
       h' !! p = ({[ 0 := [10; 20; 30] ]} : gmap nat (list nat)) !! p) /\
    h' !! shuffled = Some (shuffleArray sample_random [10; 20; 30]).
Proof.
  apply (shuffleArray_leaves_argument sample_random {[ 0 := [10; 20; 30] ]} 0
           [10; 20; 30]).
  reflexivity.
Defined.

(** ** The question bank *)

Lemma cleanb_clean q : cleanb q = true -> clean q.
Proof.
  unfold cleanb, clean. rewrite !andb_true_iff, !negb_true_iff.
  intros [[[[[[[Hq Htq] Hlen] Hopts] H0] H3] He] Hte].
  apply bool_decide_eq_false in Hq, He.
  apply bool_decide_eq_true in Htq, Hte.
  apply Nat.eqb_eq in Hlen. apply Qle_bool_iff in H0, H3.
  repeat split; try assumption.
  apply Forall_forall. intros o Ho.
  rewrite forallb_forall in Hopts.
  apply list_elem_of_In, Hopts in Ho.
  now apply bool_decide_eq_true in Ho.
Qed.

Lemma clean_wellFormed q : clean q -> wellFormed q.
Proof. intros (_ & _ & Hlen & _ & H0 & H3 & _). now split. Qed.

Lemma fiveClean_spec qs :
  fiveClean qs = true -> length qs = 5 /\ Forall clean qs.
Proof.
  unfold fiveClean. rewrite andb_true_iff. intros [Hlen Hall].
  split; [now apply Nat.eqb_eq|].
  apply Forall_forall. intros q Hq. apply cleanb_clean.
  rewrite forallb_forall in Hall. apply Hall. now apply list_elem_of_In.
Qed.

Lemma own_property_In {V} (obj : list (jsstring * V)) key v :
  own_property obj key = Some v -> In v (map snd obj).
Proof.
  induction obj as [|[k w] obj IH]; simpl; [discriminate|].
  destruct (decide (k = key)); [intros [= ->]; now left | right; auto].
Qed.

(** Every list of the bank, at every difficulty, by evaluation. *)
Lemma mockQuestions_checked :
  forallb (fun entry => forallb (fun d => fiveClean (level entry d))
                                [easy; medium; hard])
          (map snd mockQuestions) = true.
Proof. vm_compute. reflexivity. Qed.

Lemma level_fiveClean entry d :
  In entry (map snd mockQuestions) -> length (level entry d) = 5 /\ Forall clean (level entry d).
Proof.
  intros Hin. apply fiveClean_spec.
  pose proof mockQuestions_checked as H. rewrite forallb_forall in H.
  specialize (H entry Hin). rewrite forallb_forall in H.
  apply H. destruct d; simpl; auto.
Qed.

Lemma Flat_mockQuestions_checked :
  forallb fiveClean (map snd Flat.mockQuestions) = true.
Proof. vm_compute. reflexivity. Qed.

Lemma Flat_fiveClean qs :
  In qs (map snd Flat.mockQuestions) -> length qs = 5 /\ Forall clean qs.
Proof.
  intros Hin. apply fiveClean_spec.
  pose proof Flat_mockQuestions_checked as H. rewrite forallb_forall in H.
  now apply H.
Qed.

(** The default list is the [easy] list of an entry of the bank. *)
Lemma default_questions_own :
  own_property mockQuestions (js "Data Structures")
  = Some {| easy_list := DataStructures_easy;
            medium_list := DataStructures_medium;
            hard_list := DataStructures_hard |}.
Proof. reflexivity. Qed.

(** Whatever the subject, the selection is a list of the bank. *)
Lemma selectQuestions_level subject difficulty :
  exists entry d,
    In entry (map snd mockQuestions) /\ selectQuestions subject difficulty = level entry d.
Proof.
  unfold selectQuestions, read.
  destruct (own_property mockQuestions subject) as [entry|] eqn:Hown.
  - exists entry, difficulty. split; [eapply own_property_In, Hown | reflexivity].
  - eexists _, easy. split; [eapply own_property_In, default_questions_own|].
    destruct (decide (subject ∈ Object_prototype)); reflexivity.
Qed.

(** The selection for a subject of the bank and for any other string. *)
Lemma selectQuestions_known subject difficulty entry :
  own_property mockQuestions subject = Some entry ->
  selectQuestions subject difficulty = level entry difficulty.
Proof. intros H. unfold selectQuestions, read. now rewrite H. Qed.

Lemma selectQuestions_unknown subject difficulty :
  own_property mockQuestions subject = None ->
  selectQuestions subject difficulty = default_questions.
Proof.
  intros H. unfold selectQuestions, read. rewrite H.
  destruct (decide (subject ∈ Object_prototype)); reflexivity.
Qed.

(** The fallback returns five questions, all from the selected list. *)
Lemma generateMockQuestions_five rand subject difficulty :
  length (generateMockQuestions rand subject difficulty) = 5 /\
  Forall (fun q => clean q /\ q ∈ selectQuestions subject difficulty)
         (generateMockQuestions rand subject difficulty).
Proof.
  destruct (selectQuestions_level subject difficulty) as (entry & d & Hin & Hsel).
  destruct (level_fiveClean entry d Hin) as [Hlen Hclean].
  unfold generateMockQuestions, slice0. rewrite Hsel.
  pose proof (shuffleArray_Permutation rand (level entry d)) as Hperm.
  split.
  - rewrite length_take, (Permutation_length Hperm), Hlen. reflexivity.
  - apply Forall_forall. intros q Hq.
    assert (Hq' : q ∈ level entry d).
    { rewrite <- Hperm. eapply subseteq_take, Hq. }
    split; [|exact Hq'].
    rewrite Forall_forall in Hclean. now apply Hclean.
Qed.

(** Without a configured key the remote path raises at once. *)
Lemma generateQuizQuestions_no_key env subject difficulty count :
  truthy (OPENAI_API_KEY env) = false ->
  generateQuizQuestions env subject difficulty count
  = Throw (Error ApiKeyNotConfigured).
Proof. intros H. unfold generateQuizQuestions. now rewrite H. Qed.

(** C6: with no key configured, acquiring five questions for a subject of
    the bank returns exactly five questions, each of which the validator
    accepts unchanged and each of which is in the subject's list for the
    chosen difficulty; the flat variant of the bank returns the subject's
    full list, five questions the validator accepts. *)
Theorem bank_fallback_known_subject (env : Env) (subject : jsstring)
  (difficulty : Difficulty) :
  truthy (OPENAI_API_KEY env) = false ->
  (forall k, in_unit (Math_random env k)) ->
  (forall entry,
     own_property mockQuestions subject = Some entry ->
     exists qs,
       App.acquireQuestions env subject difficulty 5 = Ok qs /\
       length qs = 5 /\
       Forall (fun q => (forall index, validateQuestion (to_value q) index = Ok q)
                        /\ q ∈ level entry difficulty) qs) /\
  (forall qs,
     own_property Flat.mockQuestions subject = Some qs ->
     Flat.generateMockQuestions subject difficulty = Flat.QuestionList qs /\
     length qs = 5 /\
     Forall (fun q => forall index, validateQuestion (to_value q) index = Ok q) qs).
Proof.
  intros Hkey Hrand. split.
  - intros entry Hown.
    exists (generateMockQuestions (Math_random env) subject difficulty).
    unfold App.acquireQuestions.
    rewrite (generateQuizQuestions_no_key env subject difficulty 5 Hkey).
    destruct (generateMockQuestions_five (Math_random env) subject difficulty)
      as [Hlen Hall].
    split; [reflexivity|]. split; [exact Hlen|].
    rewrite (selectQuestions_known subject difficulty entry Hown) in Hall.
    eapply Forall_impl; [exact Hall|].
    intros q [Hclean Hin]. split; [|exact Hin].
    intros index. now apply validate_clean.
  - intros qs Hown.
    destruct (Flat_fiveClean qs (own_property_In _ _ _ Hown)) as [Hlen Hclean].
    unfold Flat.generateMockQuestions, read. rewrite Hown.
    split; [reflexivity|]. split; [exact Hlen|].
    eapply Forall_impl; [exact Hclean|].
    intros q Hq index. now apply validate_clean.
Qed.

Lemma bank_fallback_known_subject_witness :
  exists qs,
    App.acquireQuestions env_no_key (js "Algorithms") medium 5 = Ok qs /\
    length qs = 5 /\
    Forall (fun q => (forall index, validateQuestion (to_value q) index = Ok q)
                     /\ q ∈ Algorithms_medium) qs.
Proof.
  apply (proj1 (bank_fallback_known_subject env_no_key (js "Algorithms") medium
                  eq_refl sample_random_unit)
           {| easy_list := Algorithms_easy; medium_list := Algorithms_medium;
              hard_list := Algorithms_hard |}).
  reflexivity.
Defined.

(** For a string that is no key of the bank, the fallback draws from the
    default list and returns five questions. *)
Lemma generateMockQuestions_unknown_subject rand subject difficulty :
  own_property mockQuestions subject = None ->
  generateMockQuestions rand subject difficulty
  = take 5 (shuffleArray rand default_questions) /\
  length (generateMockQuestions rand subject difficulty) = 5.
Proof.
  intros H. split; [|apply generateMockQuestions_five].
  unfold generateMockQuestions, slice0.
  now rewrite (selectQuestions_unknown subject difficulty H).
Qed.

(** The flat variant does the same for every string that is neither a key
    of the bank nor the name of an inherited member. *)
Lemma Flat_unknown_subject subject difficulty :
  own_property Flat.mockQuestions subject = None ->
  subject ∉ Object_prototype ->
  Flat.generateMockQuestions subject difficulty
  = Flat.QuestionList Flat.DataStructures.
Proof.
  intros H Hnot. unfold Flat.generateMockQuestions, read. rewrite H.
  now destruct (decide (subject ∈ Object_prototype)).
Qed.

(** C9, at the failing input: ['constructor'] is no key of the bank, the
    version with difficulties falls back to the default list, and the flat
    variant returns the inherited built-in instead of a question list. *)
Theorem Flat_fallback_inherited_name :
  own_property mockQuestions (js "constructor") = None /\
  own_property Flat.mockQuestions (js "constructor") = None /\
  selectQuestions (js "constructor") easy = default_questions /\
  Flat.generateMockQuestions (js "constructor") easy
  = Flat.BuiltIn (js "constructor").
Proof. repeat split; reflexivity. Qed.

(** ** The remote path and its fallback *)

Lemma validateFrom_wellFormed cands index qs :
  validateFrom index cands = Ok qs -> Forall wellFormed qs.
Proof.
  revert index qs. induction cands as [|c cands IH]; intros index qs; simpl.
  - intros [= <-]. constructor.
  - destruct (validateQuestion c index) as [q|e] eqn:Hq; simpl; [|discriminate].
    destruct (validateFrom (S index) cands) as [qs'|e] eqn:Hqs; simpl; [|discriminate].
    intros [= <-]. constructor.
    + eapply validateQuestion_wellFormed, Hq.
    + eapply IH, Hqs.
Qed.

(** A batch is accepted whole or not at all. *)
Lemma validateFrom_all cands index qs :
  validateFrom index cands = Ok qs ->
  Forall2 (fun c q => exists i, validateQuestion c i = Ok q) cands qs.
Proof.
  revert index qs. induction cands as [|c cands IH]; intros index qs; simpl.
  - intros [= <-]. constructor.
  - destruct (validateQuestion c index) as [q|e] eqn:Hq; simpl; [|discriminate].
    destruct (validateFrom (S index) cands) as [qs'|e] eqn:Hqs; simpl; [|discriminate].
    intros [= <-]. constructor; eauto.
Qed.

Lemma generateQuizQuestions_wellFormed env subject difficulty count qs :
  generateQuizQuestions env subject difficulty count = Ok qs ->
  Forall wellFormed qs.
Proof.
  unfold generateQuizQuestions.
  destruct (negb (truthy (OPENAI_API_KEY env))); [discriminate|].
  destruct (fetch env) as [response|e]; simpl; [|discriminate].
  destruct (negb (ok response)).
  { destruct (json response) as [err|e]; simpl; [|discriminate].
    destruct (orTypeError (get err (js "error"))); simpl; discriminate. }
  destruct (json response) as [data|e]; simpl; [|discriminate].
  destruct (orTypeError (get data (js "choices"))) as [choices|e]; simpl; [|discriminate].
  destruct (orTypeError (index0 choices)) as [choice|e]; simpl; [|discriminate].
  destruct (orTypeError (get choice (js "message"))) as [message|e]; simpl; [|discriminate].
  destruct (orTypeError (get message (js "content"))) as [content|e]; simpl; [|discriminate].
  destruct content as [| | | |text| |]; try discriminate.
  destruct (JSON_parse env (stripFences (trim text))) as [parsed|e]; simpl; [|discriminate].
  destruct parsed as [| | | | |cands|]; try discriminate.
  apply validateFrom_wellFormed.
Qed.

(** The other failures of the remote path end in the bank as well. *)
Example remote_failures_fall_back :
  let run fetched parse :=
    App.acquireQuestions
      {| OPENAI_API_KEY := VStr (js "sk-test"); fetch := fetched;
         JSON_parse := parse; Math_random := sample_random |}
      (js "DevOps") hard 5 in
  let bank := Ok (generateMockQuestions sample_random (js "DevOps") hard) in
  let body text :=
    Ok (VObj [ (js "choices",
                VArr [ VObj [ (js "message", VObj [ (js "content", VStr text) ]) ] ]) ]) in
  (* the network fails *)
  run (Throw NetworkError) (fun _ => Throw SyntaxError) = bank /\
  (* HTTP status outside 2xx *)
  run (Ok {| ok := false; json := Ok (VObj []) |}) (fun _ => Throw SyntaxError) = bank /\
  (* the body has no [choices] *)
  run (Ok {| ok := true; json := Ok (VObj []) |}) (fun _ => Throw SyntaxError) = bank /\
  (* the content is no JSON *)
  run (Ok {| ok := true; json := body (js "sorry") |}) (fun _ => Throw SyntaxError) = bank /\
  (* the content is JSON, but no array *)
  run (Ok {| ok := true; json := body (js "{}") |}) (fun _ => Ok (VObj [])) = bank /\
  (* an empty batch is accepted as it is *)
  run (Ok {| ok := true; json := body (js "[]") |}) (fun _ => Ok (VArr [])) = Ok [].
Proof. repeat split; reflexivity. Qed.

(** ** The quiz session *)

(** C2, at the failing input: on the first question of the easy
    Algorithms list, whose correct option is 1, a first call with option 0
    records 0 and scores nothing; a second call with option 1, before any
    advance, is not ignored: it overwrites the recorded answer and raises
    the score. *)
Theorem handleAnswerClick_twice_after_option_0 :
  let first := QuizDisplay.handleAnswerClick Algorithms_easy QuizDisplay.init 0 in
  let second := QuizDisplay.handleAnswerClick Algorithms_easy first 1 in
  QuizDisplay.selectedAnswers first = {[ 0 := 0 ]} /\
  QuizDisplay.score first = 0 /\
  QuizDisplay.currentQuestion second = 0 /\
  QuizDisplay.selectedAnswers second = {[ 0 := 1 ]} /\
  QuizDisplay.score second = 1.
Proof. repeat split; reflexivity. Qed.

(** After a first answer other than option 0 the guard holds: any further
    call on the same question changes nothing. *)
Lemma handleAnswerClick_twice_nonzero questions st i j :
  QuizDisplay.not_ (QuizDisplay.selectedAnswers st !! QuizDisplay.currentQuestion st) = true ->
  i <> 0 ->
  let first := QuizDisplay.handleAnswerClick questions st i in
  QuizDisplay.handleAnswerClick questions first j = first.
Proof.
  intros Hfree Hi. cbv zeta. unfold QuizDisplay.handleAnswerClick.
  destruct (questions !! QuizDisplay.currentQuestion st) as [q|] eqn:Hq;
    [|now rewrite Hq].
  rewrite Hfree. simpl. rewrite Hq, lookup_insert_eq.
  destruct i; [congruence | reflexivity].
Qed.

(** C8, counterexample: on a fresh session over five questions, where the
    current question has no recorded answer, [handleNext] moves on to the
    second question. *)
Lemma handleNext_advances_unanswered :
  QuizDisplay.selectedAnswers QuizDisplay.init
    !! QuizDisplay.currentQuestion QuizDisplay.init = None /\
  QuizDisplay.handleNext Algorithms_easy QuizDisplay.init
  = QuizDisplay.Render
      {| QuizDisplay.currentQuestion := 1; QuizDisplay.score := 0;
         QuizDisplay.selectedAnswers := ∅; QuizDisplay.showResult := false |}.
Proof. split; reflexivity. Qed.

(** C8 (amended): on every page whose current question has no recorded
    answer, the Next button is disabled, and a click on it leaves the page
    as it is: the current index, the answers and the screen. *)
Theorem Next_disabled_while_unanswered (p : Page) :
  QuizDisplay.selectedAnswers (display p)
    !! QuizDisplay.currentQuestion (display p) = None ->
  enabled p NextClick = false /\ click p NextClick = p.
Proof.
  intros Hnone.
  assert (He : enabled p NextClick = false).
  { unfold enabled, QuizDisplay.isAnswered. rewrite Hnone.
    destruct (App.appState (app p)), (App.loading (app p)),
      (App.questions (app p) !! QuizDisplay.currentQuestion (display p));
      reflexivity. }
  split; [exact He|]. unfold click. now rewrite He.
Qed.

Lemma Next_disabled_while_unanswered_witness :
  let p := mount (App.handleSelectSubject env_no_key App.init (js "Algorithms") easy) in
  App.appState (app p) = quiz /\
  enabled p (AnswerClick 2) = true /\
  enabled p NextClick = false /\ click p NextClick = p.
Proof.
  cbv zeta. split; [reflexivity|]. split; [reflexivity|].
  apply (Next_disabled_while_unanswered
           (mount (App.handleSelectSubject env_no_key App.init (js "Algorithms") easy))).
  reflexivity.
Defined.

(** *** Counting *)

Lemma count_S (f : nat -> bool) (n : nat) :
  length (filter (fun i => f i = true) (seq 0 (S n)))
  = length (filter (fun i => f i = true) (seq 0 n)) + (if f n then 1 else 0).
Proof.
  rewrite seq_S, filter_app, length_app. f_equal.
  rewrite filter_cons, filter_nil. simpl.
  destruct (decide (f n = true)) as [->|H]; [reflexivity|].
  now destruct (f n).
Qed.

Lemma count_ext (f g : nat -> bool) (n : nat) :
  (forall i, i < n -> g i = f i) ->
  length (filter (fun i => g i = true) (seq 0 n))
  = length (filter (fun i => f i = true) (seq 0 n)).
Proof.
  induction n as [|n IH]; intros H; [reflexivity|].
  rewrite !count_S, IH, H by (intros; auto with lia). reflexivity.
Qed.

(** Changing one index from unset to [g k] adds [g k] to the count. *)
Lemma count_update (f g : nat -> bool) (n k : nat) :
  k < n -> (forall i, i <> k -> g i = f i) -> f k = false ->
  length (filter (fun i => g i = true) (seq 0 n))
  = length (filter (fun i => f i = true) (seq 0 n)) + (if g k then 1 else 0).
Proof.
  intros Hk Hother Hfk. induction n as [|n IH]; [lia|].
  rewrite !count_S. destruct (decide (k = n)) as [->|Hne].
  - rewrite Hfk, (count_ext f g n) by (intros; apply Hother; lia). lia.
  - rewrite IH, (Hother n) by lia. lia.
Qed.

Lemma countCorrect_empty questions : countCorrect questions ∅ = 0.
Proof.
  unfold countCorrect.
  rewrite (count_ext (fun _ => false)).
  - induction (length questions) as [|n IH]; [reflexivity|].
    rewrite count_S, IH. reflexivity.
  - intros i _. unfold answeredCorrectly. now rewrite lookup_empty.
Qed.

Lemma countCorrect_insert questions answers k a q :
  questions !! k = Some q -> answers !! k = None ->
  countCorrect questions (<[k := a]> answers)
  = countCorrect questions answers
    + (if QuizDisplay.strictEq a (correctAnswer q) then 1 else 0).
Proof.
  intros Hq Hk. unfold countCorrect.
  rewrite (count_update (answeredCorrectly questions answers)
             (answeredCorrectly questions (<[k := a]> answers)) _ k).
  - unfold answeredCorrectly at 3. now rewrite lookup_insert_eq, Hq.
  - eapply lookup_lt_Some, Hq.
  - intros i Hi. unfold answeredCorrectly. now rewrite lookup_insert_ne.
  - unfold answeredCorrectly. now rewrite Hk.
Qed.

(** *** The invariant of a session *)

Lemma enabled_quiz p ev :
  enabled p ev = true ->
  App.appState (app p) = quiz /\
  exists question,
    App.questions (app p) !! QuizDisplay.currentQuestion (display p) = Some question.
Proof.
  unfold enabled.
  destruct (App.appState (app p)); try discriminate.
  destruct (App.loading (app p)); try discriminate.
  destruct (App.questions (app p) !! QuizDisplay.currentQuestion (display p));
    [eauto | discriminate].
Qed.

Lemma enabled_answer p index :
  enabled p (AnswerClick index) = true ->
  QuizDisplay.selectedAnswers (display p)
    !! QuizDisplay.currentQuestion (display p) = None.
Proof.
  unfold enabled, QuizDisplay.isAnswered.
  destruct (App.appState (app p)); try discriminate.
  destruct (App.loading (app p)); try discriminate.
  destruct (App.questions (app p) !! QuizDisplay.currentQuestion (display p));
    try discriminate.
  destruct (QuizDisplay.selectedAnswers (display p)
              !! QuizDisplay.currentQuestion (display p)); [discriminate | reflexivity].
Qed.

Lemma click_inv qs p ev : session_inv qs p -> session_inv qs (click p ev).
Proof.
  intros (Hqs & Hscore & Hres). unfold click.
  destruct (enabled p ev) eqn:He; [|now repeat split].
  destruct (enabled_quiz p ev He) as (Hquiz & question & Hq).
  destruct ev as [index|].
  - pose proof (enabled_answer p index He) as Hnone.
    unfold session_inv, QuizDisplay.handleAnswerClick. simpl.
    rewrite Hq, Hnone. simpl.
    split; [exact Hqs|]. split.
    + rewrite <- Hqs, (countCorrect_insert _ _ _ index question Hq Hnone), Hqs, <- Hscore.
      destruct (QuizDisplay.strictEq index (correctAnswer question)); lia.
    + rewrite Hquiz. discriminate.
  - unfold QuizDisplay.handleNext.
    destruct (QuizDisplay.currentQuestion (display p) <? length (App.questions (app p)) - 1)%nat.
    + unfold session_inv. simpl. split; [exact Hqs|]. split; [exact Hscore|].
      rewrite Hquiz. discriminate.
    + unfold session_inv. simpl. split; [exact Hqs|]. split; [exact Hscore|].
      intros _. now rewrite Hqs.
Qed.

Lemma clicks_inv qs events p :
  session_inv qs p -> session_inv qs (fold_left click events p).
Proof.
  revert p. induction events as [|ev events IH]; intros p Hp; simpl; [exact Hp|].
  apply IH, click_inv, Hp.
Qed.

Lemma mount_inv a :
  App.appState a = quiz -> session_inv (App.questions a) (mount a).
Proof.
  intros Hquiz. unfold session_inv, mount. simpl.
  split; [reflexivity|]. split; [now rewrite countCorrect_empty|].
  rewrite Hquiz. discriminate.
Qed.

(** *** Answering every question correctly *)

(** A click on the correct option of an unanswered question records it
    and adds one point. *)
Lemma click_correct (a : App.state) (st : QuizDisplay.state) q c :
  App.appState a = quiz -> App.loading a = false ->
  App.questions a !! QuizDisplay.currentQuestion st = Some q ->
  QuizDisplay.selectedAnswers st !! QuizDisplay.currentQuestion st = None ->
  correctOption q c ->
  click {| app := a; display := st |} (AnswerClick c)
  = {| app := a;
       display := {| QuizDisplay.currentQuestion := QuizDisplay.currentQuestion st;
                     QuizDisplay.score := QuizDisplay.score st + 1;
                     QuizDisplay.selectedAnswers :=
                       <[QuizDisplay.currentQuestion st := c]> (QuizDisplay.selectedAnswers st);
                     QuizDisplay.showResult := true |} |}.
Proof.
  intros Hquiz Hload Hq Hnone [Hc Hlt].
  unfold click, enabled, QuizDisplay.isAnswered, QuizDisplay.handleAnswerClick.
  simpl. rewrite Hquiz, Hload, Hq, Hnone. simpl.
  apply Nat.ltb_lt in Hlt. rewrite Hlt, Hc. reflexivity.
Qed.

(** A click on Next once the current question is answered. *)
Lemma click_next (a : App.state) (st : QuizDisplay.state) q :
  App.appState a = quiz -> App.loading a = false ->
  App.questions a !! QuizDisplay.currentQuestion st = Some q ->
  is_Some (QuizDisplay.selectedAnswers st !! QuizDisplay.currentQuestion st) ->
  click {| app := a; display := st |} NextClick
  = match QuizDisplay.handleNext (App.questions a) st with
    | QuizDisplay.Render st' => {| app := a; display := st' |}
    | QuizDisplay.OnComplete r =>
      {| app := App.handleQuizComplete a r; display := st |}
    end.
Proof.
  intros Hquiz Hload Hq [x Hx].
  unfold click, enabled, QuizDisplay.isAnswered.
  simpl. rewrite Hquiz, Hload, Hq, Hx. reflexivity.
Qed.

(** From a page at the first of the questions [rest], with nothing
    recorded from there on, answering each with its correct option and
    advancing ends on the results screen with one point per question. *)
Lemma answerAll_run (a : App.state) (rest : list Question) (cs : list nat) :
  Forall2 correctOption rest cs ->
  forall (done : list Question) (s : nat) (answers : gmap nat nat) (sr : bool),
  App.appState a = quiz -> App.loading a = false ->
  App.questions a = done ++ rest ->
  rest <> [] ->
  (forall i, length done <= i -> answers !! i = None) ->
  let p := {| app := a;
              display := {| QuizDisplay.currentQuestion := length done;
                            QuizDisplay.score := s;
                            QuizDisplay.selectedAnswers := answers;
                            QuizDisplay.showResult := sr |} |} in
  let p' := fold_left click (answerAll cs) p in
  App.appState (app p') = results /\
  App.quizResults (app p')
  = Some (mkResults (s + length rest) (length (done ++ rest))).
Proof.
  induction 1 as [|q c rest cs Hc Hrest IH];
    intros done s answers sr Hquiz Hload Hqs Hne Hfree; [congruence|].
  cbv zeta.
  change (answerAll (c :: cs)) with (AnswerClick c :: NextClick :: answerAll cs).
  cbn [fold_left].
  assert (Hq : App.questions a !! length done = Some q).
  { rewrite Hqs. apply list_lookup_middle. reflexivity. }
  assert (Hnone : answers !! length done = None) by (apply Hfree; lia).
  pose proof (click_correct a
                {| QuizDisplay.currentQuestion := length done;
                   QuizDisplay.score := s;
                   QuizDisplay.selectedAnswers := answers;
                   QuizDisplay.showResult := sr |} q c Hquiz Hload Hq Hnone Hc)
    as Hfirst.
  cbn [QuizDisplay.currentQuestion QuizDisplay.score QuizDisplay.selectedAnswers]
    in Hfirst.
  rewrite Hfirst. clear Hfirst.
  pose proof (click_next a
                {| QuizDisplay.currentQuestion := length done;
                   QuizDisplay.score := s + 1;
                   QuizDisplay.selectedAnswers := <[length done := c]> answers;
                   QuizDisplay.showResult := true |} q Hquiz Hload Hq)
    as Hsecond.
  cbn [QuizDisplay.currentQuestion QuizDisplay.score QuizDisplay.selectedAnswers]
    in Hsecond.
  rewrite Hsecond by (rewrite lookup_insert_eq; eauto). clear Hsecond.
  unfold QuizDisplay.handleNext.
  cbn [QuizDisplay.currentQuestion QuizDisplay.score QuizDisplay.selectedAnswers].
  rewrite Hqs, length_app. cbn [length].
  destruct rest as [|q' rest].
  - inversion Hrest; subst. cbn [length].
    replace (length done <? length done + 1 - 1)%nat with false
      by (symmetry; apply Nat.ltb_ge; lia).
    cbn. split; [reflexivity|]. do 2 f_equal; lia.
  - replace (length done <? length done + S (length (q' :: rest)) - 1)%nat with true
      by (symmetry; apply Nat.ltb_lt; cbn [length]; lia).
    specialize (IH (done ++ [q]) (s + 1) (<[length done := c]> answers) false
                  Hquiz Hload).
    rewrite length_app in IH. cbn [length] in IH.
    cbv zeta in IH.
    destruct IH as [IH1 IH2].
    + rewrite Hqs, <- app_assoc. reflexivity.
    + discriminate.
    + intros i Hi. rewrite lookup_insert_ne by lia. apply Hfree. lia.
    + split; [exact IH1|]. rewrite IH2.
      f_equal. f_equal; rewrite ?length_app; cbn [length]; lia.
Qed.

(** C3: on every page reached by clicks from a freshly mounted quiz, once
    the results screen is shown the reported score is the number of
    questions whose recorded answer is the correct one, and the reported
    total is the number of questions; and a run over five questions that
    answers each with its correct option and advances five times ends on
    the results screen with a score of 5 out of 5. *)
Theorem results_report_score (a : App.state) (events : list event) :
  App.appState a = quiz ->
  App.loading a = false ->
  let qs := App.questions a in
  let p := fold_left click events (mount a) in
  (App.appState (app p) = results ->
   App.quizResults (app p)
   = Some (mkResults (countCorrect qs (QuizDisplay.selectedAnswers (display p)))
                     (length qs))) /\
  (forall cs,
     length qs = 5 ->
     Forall2 correctOption qs cs ->
     events = answerAll cs ->
     App.appState (app p) = results /\
     App.quizResults (app p) = Some (mkResults 5 5)).
Proof.
  intros Hquiz Hload. cbv zeta. split.
  - intros Hres.
    destruct (clicks_inv _ events _ (mount_inv a Hquiz)) as (_ & Hscore & Hrep).
    rewrite (Hrep Hres). now rewrite Hscore.
  - intros cs Hlen Hcs ->.
    pose proof (answerAll_run a (App.questions a) cs Hcs [] 0 ∅ false
                  Hquiz Hload eq_refl) as Hrun.
    cbv zeta in Hrun. simpl in Hrun. rewrite Hlen in Hrun.
    apply Hrun.
    + intros Hnil. rewrite Hnil in Hlen. discriminate.
    + intros i _. apply lookup_empty.
Qed.

(** The end-to-end run of the specification: Algorithms, easy, no key. *)
Lemma results_report_score_witness :
  let a := App.handleSelectSubject env_no_key App.init (js "Algorithms") easy in
  let p := fold_left click (answerAll [2; 2; 1; 1; 1]) (mount a) in
  App.appState (app p) = results /\
  App.quizResults (app p) = Some (mkResults 5 5).
Proof.
  cbv zeta.
  apply (proj2 (results_report_score
                  (App.handleSelectSubject env_no_key App.init (js "Algorithms") easy)
                  (answerAll [2; 2; 1; 1; 1]) eq_refl eq_refl)
           [2; 2; 1; 1; 1]).
  - reflexivity.
  - repeat constructor.
  - reflexivity.
Defined.

(** ** The whole application *)

Lemma handleSelectSubject_settles env st subject d :
  exists qs,
    App.handleSelectSubject env st subject d
    = {| App.appState := quiz; App.selectedSubject := Some subject;
         App.selectedDifficulty := Some d; App.questions := qs;
         App.quizResults := App.quizResults st; App.loading := false;
         App.error := None |} /\
    App.acquireQuestions env subject d 5 = Ok qs /\
    Forall wellFormed qs.
Proof.
  unfold App.handleSelectSubject, App.acquireQuestions.
  destruct (generateQuizQuestions env subject d 5) as [qs|e] eqn:Hgen.
  - exists qs. repeat split. eapply generateQuizQuestions_wellFormed, Hgen.
  - eexists. repeat split.
    destruct (generateMockQuestions_five (Math_random env) subject d) as [_ Hall].
    eapply Forall_impl; [exact Hall|].
    intros q [Hclean _]. now apply clean_wellFormed.
Qed.

Lemma countCorrect_le qs answers : countCorrect qs answers <= length qs.
Proof.
  unfold countCorrect.
  etransitivity; [apply length_filter|]. now rewrite length_seq.
Qed.

Lemma quiz_inv_init qs : quiz_inv qs QuizDisplay.init.
Proof.
  unfold quiz_inv. simpl. repeat split.
  - destruct qs; [right; auto | left; simpl; lia].
  - intros i Hi. lia.
  - intros i a q Ha. now rewrite lookup_empty in Ha.
  - now rewrite countCorrect_empty.
Qed.

Lemma enabled_answer_range p index :
  enabled p (AnswerClick index) = true ->
  exists q,
    App.questions (app p) !! QuizDisplay.currentQuestion (display p) = Some q /\
    index < length (options q).
Proof.
  unfold enabled.
  destruct (App.appState (app p)); try discriminate.
  destruct (App.loading (app p)); try discriminate.
  destruct (App.questions (app p) !! QuizDisplay.currentQuestion (display p)) as [q|];
    try discriminate.
  intros H. apply andb_true_iff in H as [_ H]. apply Nat.ltb_lt in H. eauto.
Qed.

Lemma enabled_next p :
  enabled p NextClick = true ->
  is_Some (QuizDisplay.selectedAnswers (display p)
             !! QuizDisplay.currentQuestion (display p)).
Proof.
  unfold enabled, QuizDisplay.isAnswered.
  destruct (App.appState (app p)); try discriminate.
  destruct (App.loading (app p)); try discriminate.
  destruct (App.questions (app p) !! QuizDisplay.currentQuestion (display p));
    try discriminate.
  destruct (QuizDisplay.selectedAnswers (display p)
              !! QuizDisplay.currentQuestion (display p)); [eauto | discriminate].
Qed.

(** An answer keeps the invariant of the quiz. *)
Lemma handleAnswerClick_inv qs st index q :
  quiz_inv qs st ->
  qs !! QuizDisplay.currentQuestion st = Some q ->
  QuizDisplay.selectedAnswers st !! QuizDisplay.currentQuestion st = None ->
  index < length (options q) ->
  quiz_inv qs (QuizDisplay.handleAnswerClick qs st index).
Proof.
  intros (Hcur & Hbelow & Habove & Hrange & Hshow & Hscore) Hq Hnone Hlt.
  unfold QuizDisplay.handleAnswerClick. rewrite Hq, Hnone. simpl.
  unfold quiz_inv, QuizDisplay.isAnswered. simpl.
  split; [left; eapply lookup_lt_Some, Hq|].
  split; [|split; [|split; [|split]]].
  - intros i Hi. rewrite lookup_insert_ne by lia. auto.
  - intros i Hi. rewrite lookup_insert_ne by lia. auto.
  - intros i a q' Ha Hq'.
    destruct (decide (i = QuizDisplay.currentQuestion st)) as [->|Hne].
    + rewrite lookup_insert_eq in Ha. congruence.
    + rewrite lookup_insert_ne in Ha by congruence. eauto.
  - now rewrite lookup_insert_eq.
  - rewrite (countCorrect_insert _ _ _ index q Hq Hnone), <- Hscore.
    destruct (QuizDisplay.strictEq index (correctAnswer q)); lia.
Qed.

(** An advance keeps it, or ends the quiz with every question answered. *)
Lemma handleNext_inv qs st :
  quiz_inv qs st ->
  is_Some (QuizDisplay.selectedAnswers st !! QuizDisplay.currentQuestion st) ->
  match QuizDisplay.handleNext qs st with
  | QuizDisplay.Render st' => quiz_inv qs st'
  | QuizDisplay.OnComplete r => results_inv qs st r
  end.
Proof.
  intros (Hcur & Hbelow & Habove & Hrange & Hshow & Hscore) Hans.
  unfold QuizDisplay.handleNext.
  destruct (QuizDisplay.currentQuestion st <? length qs - 1)%nat eqn:Hlast.
  - apply Nat.ltb_lt in Hlast.
    unfold quiz_inv, QuizDisplay.isAnswered. simpl.
    split; [left; lia|]. split; [|split; [|split; [|split]]].
    + intros i Hi.
      destruct (decide (i = QuizDisplay.currentQuestion st)) as [->|Hne];
        [exact Hans | apply Hbelow; lia].
    + intros i Hi. apply Habove. lia.
    + exact Hrange.
    + rewrite Habove by lia. reflexivity.
    + exact Hscore.
  - apply Nat.ltb_ge in Hlast.
    assert (Hne : qs <> []).
    { intros ->. destruct Hans as [a Ha].
      destruct Hcur as [Hc|[_ ->]]; [simpl in Hc; lia|].
      simpl in Ha. now rewrite lookup_empty in Ha. }
    unfold results_inv. simpl.
    split; [exact Hne|]. split; [|split; [exact Hrange|split]].
    + intros i Hi. destruct Hcur as [Hc|[Hc _]]; [|congruence].
      destruct (decide (i = QuizDisplay.currentQuestion st)) as [->|Hne'];
        [exact Hans | apply Hbelow; lia].
    + now rewrite Hscore.
    + rewrite Hscore. apply countCorrect_le.
Qed.

(** Splits off the three state-independent parts of [system_inv]. *)
Ltac system_parts :=
  unfold system_inv; cbn [page selecting app display];
  split; [assumption || reflexivity|];
  split; [assumption || reflexivity|];
  split; [assumption || (intros ?; discriminate) || idtac|].

Lemma click_system_inv p sel ev :
  system_inv {| page := p; selecting := sel |} ->
  system_inv {| page := click p ev; selecting := sel |}.
Proof.
  intros (Herr & Hload & Hsel & Hstate). simpl in *.
  unfold click. destruct (enabled p ev) eqn:He; [|now repeat split].
  destruct (enabled_quiz p ev He) as (Hquiz & _).
  rewrite Hquiz in Hstate. destruct Hstate as [Hstarted Hinv].
  destruct ev as [index|].
  - destruct (enabled_answer_range p index He) as (q & Hq & Hlt).
    pose proof (enabled_answer p index He) as Hnone.
    system_parts. rewrite Hquiz. split; [exact Hstarted|].
    now apply (handleAnswerClick_inv _ _ index q).
  - pose proof (handleNext_inv _ _ Hinv (enabled_next p He)) as Hnext.
    destruct (QuizDisplay.handleNext (App.questions (app p)) (display p))
      as [st'|r].
    + system_parts. rewrite Hquiz. now split.
    + system_parts. simpl. split; [exact Hstarted|].
      exists r. split; [reflexivity | exact Hnext].
Qed.

Lemma mount_system_inv env a s d sel :
  s ∈ SubjectSelection.subjects ->
  (forall s', SubjectSelection.selectedSubject sel = Some s' ->
              s' ∈ SubjectSelection.subjects) ->
  system_inv
    {| page := mount (App.handleSelectSubject env a (SubjectSelection.name s) d);
       selecting := sel |}.
Proof.
  intros Hs Hsel.
  destruct (handleSelectSubject_settles env a (SubjectSelection.name s) d)
    as (qs & -> & _ & Hwf).
  unfold mount. system_parts. simpl. split.
  - exists s, d. auto.
  - apply quiz_inv_init.
Qed.

Lemma toSelection_system_inv sys :
  system_inv sys -> system_inv (toSelection sys).
Proof.
  intros (_ & Hload & _ & _).
  unfold toSelection, App.handleSelectNewSubject. system_parts.
  simpl. now rewrite Hload.
Qed.

Lemma dispatch_system_inv sys a :
  system_inv sys -> system_inv (dispatch sys a).
Proof.
  intros Hinv. pose proof Hinv as (Herr & Hload & Hsel & Hstate).
  destruct a as [k|d|env|ev|env| |]; simpl.
  - destruct (selectionShown (app (page sys))); [|exact Hinv].
    destruct (SubjectSelection.subjects !! k) as [s|] eqn:Hk; [|exact Hinv].
    system_parts; [|exact Hstate].
    simpl. intros s' [= <-]. eapply list_elem_of_lookup_2, Hk.
  - destruct (selectionShown (app (page sys))); [|exact Hinv].
    system_parts. exact Hstate.
  - destruct (selectionShown (app (page sys))); [|exact Hinv].
    unfold SubjectSelection.handleStart.
    destruct (SubjectSelection.selectedSubject (selecting sys)) as [s|] eqn:Hs;
      [|exact Hinv].
    apply mount_system_inv; [now apply Hsel | intros s'; discriminate].
  - destruct sys as [p sel]. now apply click_system_inv.
  - unfold resultsShown.
    destruct (App.appState (app (page sys))) eqn:Hst; try exact Hinv.
    destruct (App.quizResults (app (page sys))); [|exact Hinv].
    destruct Hstate as [(s & d & Hs & Hsub & Hdiff & _) _].
    unfold App.handleRetry. rewrite Hsub, Hdiff.
    now apply mount_system_inv.
  - destruct (resultsShown (app (page sys))); [|exact Hinv].
    now apply toSelection_system_inv.
  - destruct (bannerShown (app (page sys))); [|exact Hinv].
    now apply toSelection_system_inv.
Qed.

Lemma boot_system_inv : system_inv boot.
Proof.
  unfold boot. system_parts. reflexivity.
Qed.

Lemma fold_system_inv actions sys :
  system_inv sys -> system_inv (fold_left dispatch actions sys).
Proof.
  revert sys. induction actions as [|a actions IH]; intros sys H; simpl; [exact H|].
  apply IH, dispatch_system_inv, H.
Qed.

Lemma run_system_inv actions : system_inv (run actions).
Proof. apply fold_system_inv, boot_system_inv. Qed.

(** X1: no sequence of user actions, whatever each call of the remote
    path returns or raises, sets [error]: in every state the application
    settles in, the error banner is not on the page and its Dismiss
    button does nothing.  What the page shows while a fetch is pending is
    not part of a settled state. *)
Theorem error_banner_never_shown (actions : list action) :
  let sys := run actions in
  App.error (app (page sys)) = None /\
  bannerShown (app (page sys)) = false /\
  dispatch sys DismissClick = sys.
Proof.
  cbv zeta. destruct (run_system_inv actions) as (Herr & _).
  assert (Hbanner : bannerShown (app (page (run actions))) = false)
    by (unfold bannerShown; now rewrite Herr).
  repeat split; try assumption.
  simpl. now rewrite Hbanner.
Qed.

(** X2: the results screen is reached only after every question of the
    quiz has a recorded answer, each one the index of one of the
    question's options; the reported total is the number of questions and
    is at least 1, and the reported score is at most the total. *)
Theorem results_after_all_answered (actions : list action) :
  let sys := run actions in
  let qs := App.questions (app (page sys)) in
  let answers := QuizDisplay.selectedAnswers (display (page sys)) in
  App.appState (app (page sys)) = results ->
  exists r,
    App.quizResults (app (page sys)) = Some r /\
    totalQuestions r = length qs /\
    1 <= totalQuestions r /\
    score r <= totalQuestions r /\
    forall i q, qs !! i = Some q ->
                exists a, answers !! i = Some a /\ a < length (options q).
Proof.
  cbv zeta. intros Hres.
  destruct (run_system_inv actions) as (_ & _ & _ & Hstate).
  rewrite Hres in Hstate.
  destruct Hstate as (_ & r & Hr & Hne & Hall & Hrange & -> & Hle).
  exists (mkResults (countCorrect (App.questions (app (page (run actions))))
                       (QuizDisplay.selectedAnswers (display (page (run actions)))))
                    (length (App.questions (app (page (run actions)))))).
  simpl in *. split; [exact Hr|]. split; [reflexivity|]. split; [|split].
  - destruct (App.questions (app (page (run actions)))); [congruence | simpl; lia].
  - exact Hle.
  - intros i q Hq.
    destruct (Hall i (lookup_lt_Some _ _ _ Hq)) as [a Ha].
    exists a. split; [exact Ha | eapply Hrange; eassumption].
Qed.

Lemma results_after_all_answered_witness :
  App.selectedSubject (app (page (run sample_session))) = Some (js "Algorithms") /\
  App.selectedDifficulty (app (page (run sample_session))) = Some medium /\
  exists r,
    App.quizResults (app (page (run sample_session))) = Some r /\
    totalQuestions r = length (App.questions (app (page (run sample_session)))) /\
    1 <= totalQuestions r /\
    score r <= totalQuestions r /\
    forall i q,
      App.questions (app (page (run sample_session))) !! i = Some q ->
      exists a,
        QuizDisplay.selectedAnswers (display (page (run sample_session))) !! i = Some a /\
        a < length (options q).
Proof.
  split; [reflexivity|]. split; [reflexivity|].
  apply (results_after_all_answered sample_session). reflexivity.
Defined.

(** X3: while a quiz over at least one question is on the page, the
    current index is the index of a question, the feedback is shown exactly
    when the current question has a recorded answer, every earlier question
    has one, and no later question has one. *)
Theorem quiz_page_in_step (actions : list action) :
  let sys := run actions in
  let qs := App.questions (app (page sys)) in
  let st := display (page sys) in
  App.appState (app (page sys)) = quiz ->
  qs <> [] ->
  (exists q, qs !! QuizDisplay.currentQuestion st = Some q) /\
  QuizDisplay.showResult st = QuizDisplay.isAnswered st /\
  (forall i, i < QuizDisplay.currentQuestion st ->
             is_Some (QuizDisplay.selectedAnswers st !! i)) /\
  (forall i, QuizDisplay.currentQuestion st < i ->
             QuizDisplay.selectedAnswers st !! i = None).
Proof.
  cbv zeta. intros Hquiz Hne.
  destruct (run_system_inv actions) as (_ & _ & _ & Hstate).
  rewrite Hquiz in Hstate.
  destruct Hstate as (_ & Hcur & Hbelow & Habove & _ & Hshow & _).
  split; [|auto].
  destruct Hcur as [Hcur|[Hnil _]]; [|congruence].
  apply lookup_lt_is_Some_2 in Hcur. destruct Hcur as [q Hq]. eauto.
Qed.

Lemma quiz_page_in_step_witness :
  let sys := run [SubjectClick 7; DifficultyClick hard; StartClick env_no_key;
                  QuizClick (AnswerClick 0); QuizClick NextClick;
                  QuizClick (AnswerClick 3)] in
  QuizDisplay.currentQuestion (display (page sys)) = 1 /\
  (exists q, App.questions (app (page sys))
               !! QuizDisplay.currentQuestion (display (page sys)) = Some q) /\
  QuizDisplay.showResult (display (page sys))
  = QuizDisplay.isAnswered (display (page sys)) /\
  (forall i, i < QuizDisplay.currentQuestion (display (page sys)) ->
             is_Some (QuizDisplay.selectedAnswers (display (page sys)) !! i)) /\
  (forall i, QuizDisplay.currentQuestion (display (page sys)) < i ->
             QuizDisplay.selectedAnswers (display (page sys)) !! i = None).
Proof.
  cbv zeta. split; [reflexivity|].
  apply (quiz_page_in_step
           [SubjectClick 7; DifficultyClick hard; StartClick env_no_key;
            QuizClick (AnswerClick 0); QuizClick NextClick;
            QuizClick (AnswerClick 3)]).
  - reflexivity.
  - intros H. vm_compute in H. discriminate H.
Defined.

(** The fallback keeps the whole selected list: every list of the bank has
    five entries, so [slice(0, 5)] drops nothing. *)
Lemma generateMockQuestions_Permutation rand subject difficulty :
  generateMockQuestions rand subject difficulty ≡ₚ selectQuestions subject difficulty.
Proof.
  destruct (selectQuestions_level subject difficulty) as (entry & d & Hin & Hsel).
  destruct (level_fiveClean entry d Hin) as [Hlen _].
  unfold generateMockQuestions, slice0.
  rewrite take_ge.
  - apply shuffleArray_Permutation.
  - rewrite (Permutation_length (shuffleArray_Permutation rand _)), Hsel, Hlen.
    reflexivity.
Qed.

(** Every subject of the selection screen is a key of the bank and of the
    hint table. *)
Lemma subjects_have_entries s :
  s ∈ SubjectSelection.subjects ->
  (exists entry, own_property mockQuestions (SubjectSelection.name s) = Some entry) /\
  (exists text, own_property subjectContext (SubjectSelection.name s) = Some text).
Proof.
  revert s. apply Forall_forall.
  repeat constructor; eexists; reflexivity.
Qed.

(** X4: Retry on the results screen starts a new quiz on the same subject
    and difficulty: the questions are acquired anew, the quiz starts at
    its first question with no answer and no score, and the stored results
    of the finished quiz stay as they were. *)
Theorem retry_starts_fresh_quiz (actions : list action) (env : Env) :
  let sys := run actions in
  let sys' := dispatch sys (RetryClick env) in
  App.appState (app (page sys)) = results ->
  exists s d qs,
    App.selectedSubject (app (page sys)) = Some s /\
    App.selectedDifficulty (app (page sys)) = Some d /\
    App.acquireQuestions env s d 5 = Ok qs /\
    app (page sys')
    = {| App.appState := quiz; App.selectedSubject := Some s;
         App.selectedDifficulty := Some d; App.questions := qs;
         App.quizResults := App.quizResults (app (page sys));
         App.loading := false; App.error := None |} /\
    display (page sys') = QuizDisplay.init.
Proof.
  cbv zeta. intros Hres.
  destruct (run_system_inv actions) as (_ & _ & _ & Hstate).
  rewrite Hres in Hstate.
  destruct Hstate as ((s & d & _ & Hsub & Hdiff & _) & r & Hr & _).
  destruct (handleSelectSubject_settles env (app (page (run actions)))
              (SubjectSelection.name s) d) as (qs & Hsettle & Hacq & _).
  exists (SubjectSelection.name s), d, qs.
  split; [exact Hsub|]. split; [exact Hdiff|]. split; [exact Hacq|].
  unfold dispatch, resultsShown, App.handleRetry.
  rewrite Hres, Hr, Hsub, Hdiff. unfold mount. cbn [page app display].
  rewrite Hr in Hsettle. rewrite Hsettle. split; reflexivity.
Qed.

Lemma retry_starts_fresh_quiz_witness :
  exists s d qs,
    App.selectedSubject (app (page (run sample_session))) = Some s /\
    App.selectedDifficulty (app (page (run sample_session))) = Some d /\
    App.acquireQuestions env_invalid_batch s d 5 = Ok qs /\
    app (page (dispatch (run sample_session) (RetryClick env_invalid_batch)))
    = {| App.appState := quiz; App.selectedSubject := Some s;
         App.selectedDifficulty := Some d; App.questions := qs;
         App.quizResults := App.quizResults (app (page (run sample_session)));
         App.loading := false; App.error := None |} /\
    display (page (dispatch (run sample_session) (RetryClick env_invalid_batch)))
    = QuizDisplay.init.
Proof.
  apply (retry_starts_fresh_quiz sample_session env_invalid_batch). reflexivity.
Defined.

(** X5: when an accepted remote batch is empty, the application is on the
    quiz screen with no question, and no control is left: every action
    leaves the state as it is. *)
Theorem empty_batch_is_a_dead_end (actions : list action) (a : action) :
  let sys := run actions in
  App.appState (app (page sys)) = quiz ->
  App.questions (app (page sys)) = [] ->
  dispatch sys a = sys.
Proof.
  cbv zeta. intros Hquiz Hnil.
  destruct (run_system_inv actions) as (Herr & Hload & _ & _).
  destruct (run actions) as [[ap st] sel]. simpl in *.
  destruct a as [k|d|env|ev|env| |]; simpl;
    unfold selectionShown, resultsShown, bannerShown; simpl;
    rewrite ?Hquiz, ?Herr; try reflexivity.
  unfold click, enabled. simpl. rewrite Hquiz, Hload, Hnil.
  now rewrite lookup_nil.
Qed.

Lemma empty_batch_is_a_dead_end_witness :
  let sys := run [SubjectClick 0; StartClick env_empty_batch] in
  App.appState (app (page sys)) = quiz /\
  dispatch sys (QuizClick (AnswerClick 0)) = sys /\
  dispatch sys NewSubjectClick = sys.
Proof.
  cbv zeta. split; [reflexivity|]. split.
  - apply (empty_batch_is_a_dead_end [SubjectClick 0; StartClick env_empty_batch]);
      reflexivity.
  - reflexivity.
Defined.

(** X6: a quiz started from the selection screen is on a subject that has
    its own entry in the bank and its own hint for the prompt; with no key
    configured its questions are the five questions of that subject's list
    for the chosen difficulty, in some order. *)
Theorem start_draws_from_chosen_subject (actions : list action) (env : Env)
  (s : SubjectSelection.subject) (d : Difficulty) :
  let sys := run actions in
  let sys' := dispatch sys (StartClick env) in
  selectionShown (app (page sys)) = true ->
  SubjectSelection.handleStart (selecting sys) = Some (s, d) ->
  truthy (OPENAI_API_KEY env) = false ->
  exists entry text,
    own_property mockQuestions (SubjectSelection.name s) = Some entry /\
    subjectDetails (SubjectSelection.name s) = Hint text /\
    own_property subjectContext (SubjectSelection.name s) = Some text /\
    App.appState (app (page sys')) = quiz /\
    App.selectedSubject (app (page sys')) = Some (SubjectSelection.name s) /\
    App.selectedDifficulty (app (page sys')) = Some d /\
    App.questions (app (page sys')) ≡ₚ level entry d.
Proof.
  cbv zeta. intros Hshown Hstart Hkey.
  destruct (run_system_inv actions) as (_ & _ & Hsel & _).
  assert (Hs : s ∈ SubjectSelection.subjects).
  { apply Hsel. unfold SubjectSelection.handleStart in Hstart.
    destruct (SubjectSelection.selectedSubject (selecting (run actions)));
      [now injection Hstart as -> _ | discriminate]. }
  destruct (subjects_have_entries s Hs) as [[entry Hentry] [text Htext]].
  exists entry, text.
  split; [exact Hentry|].
  split; [unfold subjectDetails, read; now rewrite Htext|].
  split; [exact Htext|].
  simpl. rewrite Hshown, Hstart. simpl.
  unfold App.handleSelectSubject, App.acquireQuestions.
  rewrite (generateQuizQuestions_no_key env _ d 5 Hkey). simpl.
  repeat split.
  rewrite generateMockQuestions_Permutation.
  now rewrite (selectQuestions_known _ d entry Hentry).
Qed.

Lemma start_draws_from_chosen_subject_witness :
  let sys := run [SubjectClick 3; DifficultyClick easy] in
  let sys' := dispatch sys (StartClick env_no_key) in
  exists entry text,
    own_property mockQuestions (js "Operating Systems") = Some entry /\
    subjectDetails (js "Operating Systems") = Hint text /\
    own_property subjectContext (js "Operating Systems") = Some text /\
    App.appState (app (page sys')) = quiz /\
    App.selectedSubject (app (page sys')) = Some (js "Operating Systems") /\
    App.selectedDifficulty (app (page sys')) = Some easy /\
    App.questions (app (page sys')) ≡ₚ level entry easy.
Proof.
  cbv zeta.
  apply (start_draws_from_chosen_subject [SubjectClick 3; DifficultyClick easy]
           env_no_key
           {| SubjectSelection.id := 4;
              SubjectSelection.name := js "Operating Systems";
              SubjectSelection.icon := [55357%N; 56741%N; 65039%N] |} easy);
    reflexivity.
Defined.

(** ** More on the validator *)

Lemma trimStart_split s : exists l, s = l ++ trimStart s /\ whiteOnly l.
Proof.
  induction s as [|c s (l & Hs & Hl)]; simpl.
  - exists []. split; [reflexivity | constructor].
  - destruct (is_white c) eqn:Hc.
    + exists (c :: l). split; [simpl; now rewrite <- Hs | now constructor].
    + exists []. split; [reflexivity | constructor].
Qed.

Lemma trimEnd_split s : exists r, s = trimEnd s ++ r /\ whiteOnly r.
Proof.
  destruct (trimStart_split (rev s)) as (l & Hs & Hl).
  exists (rev l). split.
  - unfold trimEnd. rewrite <- rev_app_distr, <- Hs. now rewrite rev_involutive.
  - unfold whiteOnly. now apply Forall_rev.
Qed.

Lemma trim_surrounds s : surrounds s (trim s).
Proof.
  destruct (trimStart_split s) as (l & Hs & Hl).
  destruct (trimEnd_split (trimStart s)) as (r & Ht & Hr).
  exists l, r. unfold trim. split; [|auto]. now rewrite <- Ht.
Qed.

Lemma trim_trimmed s : trimmed (trim s).
Proof.
  unfold trim. split.
  - intros c t Hct.
    destruct (trimStart s) as [|d u] eqn:E; [discriminate|].
    pose proof (trimStart_head _ _ _ E) as Hd.
    rewrite (trimEnd_cons d u Hd) in Hct. now injection Hct as <- _.
  - intros c t Hct. unfold trimEnd in Hct.
    apply (f_equal (@rev N)) in Hct.
    rewrite rev_involutive, rev_app_distr in Hct. simpl in Hct.
    eapply trimStart_head, Hct.
Qed.

Lemma nonEmptyString_inv v :
  nonEmptyString v = true -> exists s, v = VStr s /\ s <> [].
Proof.
  unfold nonEmptyString. destruct v as [| | | |s| |]; simpl;
    rewrite ?andb_false_r; try discriminate.
  destruct s; [discriminate|]. intros _. eexists. split; [reflexivity | discriminate].
Qed.

Lemma stringOptions_inv opts :
  forallb is_string opts = true -> exists raws, opts = map VStr raws.
Proof.
  induction opts as [|o opts IH]; simpl.
  - exists []. reflexivity.
  - intros H. apply andb_true_iff in H as [Ho Hopts].
    destruct (IH Hopts) as (raws & ->).
    destruct o; try discriminate. now exists (s :: raws).
Qed.

(** A successful validation passed every test. *)
Lemma validateQuestion_Ok_tests c index q :
  validateQuestion c index = Ok q ->
  q = normalized c /\
  nonEmptyString (field c "question") = true /\
  fourOptions (field c "options") = true /\
  stringOptions (field c "options") = true /\
  numberWithin0to3 (field c "correctAnswer") = true /\
  nonEmptyString (field c "explanation") = true.
Proof.
  intros H. destruct (nullish c) eqn:Hc.
  { destruct c; simpl in Hc; try discriminate; simpl in H; discriminate. }
  rewrite (validateQuestion_cascade c index Hc) in H.
  destruct (nonEmptyString (field c "question")); simpl in H; [|discriminate].
  destruct (fourOptions (field c "options")); simpl in H; [|discriminate].
  destruct (stringOptions (field c "options")); simpl in H; [|discriminate].
  destruct (numberWithin0to3 (field c "correctAnswer")); simpl in H; [|discriminate].
  destruct (nonEmptyString (field c "explanation")); simpl in H; [|discriminate].
  injection H as <-. auto 10.
Qed.

(** X7: cleaning only strips whitespace from the two ends of each string:
    a validated question keeps the candidate's answer key, and its text,
    each option and its explanation are the candidate's strings without
    some leading and trailing whitespace, none of them starting or ending
    with whitespace. *)
Theorem validateQuestion_only_trims (c : value) (index : nat) (q : Question) :
  validateQuestion c index = Ok q ->
  exists rawq rawopts rawe,
    field c "question" = VStr rawq /\
    field c "options" = VArr (map VStr rawopts) /\
    field c "correctAnswer" = VNum (correctAnswer q) /\
    field c "explanation" = VStr rawe /\
    surrounds rawq (question q) /\
    Forall2 surrounds rawopts (options q) /\
    surrounds rawe (explanation q) /\
    trimmed (question q) /\ Forall trimmed (options q) /\ trimmed (explanation q).
Proof.
  intros H.
  apply validateQuestion_Ok_tests in H as (-> & Hq & _ & Hs & Hn & He).
  apply nonEmptyString_inv in Hq as (rawq & Hq & _).
  apply nonEmptyString_inv in He as (rawe & He & _).
  unfold stringOptions in Hs.
  destruct (field c "options") as [| | | | |opts|] eqn:Hopts; try discriminate.
  apply stringOptions_inv in Hs as (rawopts & ->).
  unfold numberWithin0to3 in Hn.
  destruct (field c "correctAnswer") as [| | |n| | |] eqn:Hans; try discriminate.
  exists rawq, rawopts, rawe.
  unfold normalized. rewrite Hq, He, Hopts, Hans. simpl.
  do 4 (split; [reflexivity|]).
  split; [apply trim_surrounds|].
  split; [clear; induction rawopts; simpl; constructor; auto using trim_surrounds|].
  split; [apply trim_surrounds|].
  split; [apply trim_trimmed|].
  split; [|apply trim_trimmed].
  clear. induction rawopts; simpl; constructor; auto using trim_trimmed.
Qed.

Lemma validateQuestion_only_trims_witness :
  exists rawq rawopts rawe,
    field padded_candidate "question" = VStr rawq /\
    field padded_candidate "options" = VArr (map VStr rawopts) /\
    field padded_candidate "correctAnswer" = VNum (correctAnswer padded_question) /\
    field padded_candidate "explanation" = VStr rawe /\
    surrounds rawq (question padded_question) /\
    Forall2 surrounds rawopts (options padded_question) /\
    surrounds rawe (explanation padded_question) /\
    trimmed (question padded_question) /\
    Forall trimmed (options padded_question) /\
    trimmed (explanation padded_question).
Proof.
  apply (validateQuestion_only_trims padded_candidate 0 padded_question).
  reflexivity.
Defined.

(** Whether a candidate is accepted does not depend on its position. *)
Lemma validateQuestion_position c i j q :
  validateQuestion c i = Ok q -> validateQuestion c j = Ok q.
Proof.
  intros H.
  pose proof H as (-> & Hq & H4 & Hs & Hn & He)%validateQuestion_Ok_tests.
  apply validateQuestion_Ok in H as (Hc & _).
  rewrite (validateQuestion_cascade c j Hc), Hq, H4, Hs, Hn, He. reflexivity.
Qed.

Lemma validateFrom_normalized cands index qs :
  validateFrom index cands = Ok qs -> qs = map normalized cands.
Proof.
  revert index qs. induction cands as [|c cands IH]; intros index qs; simpl.
  - now intros [= <-].
  - destruct (validateQuestion c index) as [q|e] eqn:Hq; simpl; [|discriminate].
    destruct (validateFrom (S index) cands) as [qs'|e] eqn:Hqs; simpl; [|discriminate].
    intros [= <-]. apply validateQuestion_Ok in Hq as (_ & -> & _).
    f_equal. eapply IH, Hqs.
Qed.

(** X8: a batch the validator accepts yields exactly one question per
    candidate, in the candidates' order: the list of their cleaned
    questions. *)
Theorem validateFrom_keeps_order (cands : list value) (index : nat)
  (qs : list Question) :
  validateFrom index cands = Ok qs ->
  qs = map normalized cands /\ length qs = length cands.
Proof.
  intros H. apply validateFrom_normalized in H as ->.
  split; [reflexivity | apply length_map].
Qed.

Lemma validateFrom_keeps_order_witness :
  validateFrom 0 [to_value padded_question; padded_candidate; blank_candidate]
  = Ok [padded_question; padded_question; blank_question] /\
  [padded_question; padded_question; blank_question]
  = map normalized [to_value padded_question; padded_candidate; blank_candidate] /\
  length [padded_question; padded_question; blank_question]
  = length [to_value padded_question; padded_candidate; blank_candidate].
Proof.
  split; [reflexivity|].
  apply (validateFrom_keeps_order
           [to_value padded_question; padded_candidate; blank_candidate] 0).
  reflexivity.
Defined.

(** X9: the first candidate that fails decides the batch: when the
    candidates before it are all acceptable, the batch raises that
    candidate's error, which carries its position counted from 1, and what
    follows it is never looked at. *)
Theorem validateFrom_first_failure (good rest : list value) (bad : value)
  (index : nat) (e : exn) :
  Forall (fun c => exists q, validateQuestion c 0 = Ok q) good ->
  validateQuestion bad (index + length good) = Throw e ->
  validateFrom index (good ++ bad :: rest) = Throw e.
Proof.
  intros Hgood. revert index.
  induction Hgood as [|c good [q Hq] _ IH]; intros index Hbad; simpl.
  - rewrite Nat.add_0_r in Hbad. now rewrite Hbad.
  - rewrite (validateQuestion_position c 0 index q Hq). simpl.
    rewrite IH; [reflexivity|].
    simpl in Hbad. now replace (S index + length good) with (index + S (length good)) by lia.
Qed.

Lemma validateFrom_first_failure_witness :
  validateFrom 0 [padded_candidate; blank_candidate; VObj []; VNull]
  = Throw (Error (MissingQuestionText 3)).
Proof.
  apply (validateFrom_first_failure [padded_candidate; blank_candidate] [VNull]
           (VObj []) 0 (Error (MissingQuestionText 3))).
  - repeat constructor; eexists; reflexivity.
  - reflexivity.
Defined.

(** ** Code fences *)

Lemma startsWith_tick pat c s :
  c <> 96%N -> startsWith (96%N :: pat) (c :: s) = false.
Proof.
  intros Hc. cbn [startsWith].
  replace (96 =? c)%N with false by (symmetry; now apply N.eqb_neq).
  reflexivity.
Qed.

Lemma removeFrom_noTick pat body rest :
  noTick body ->
  removeFrom (96%N :: pat) 0 (body ++ rest)
  = body ++ removeFrom (96%N :: pat) 0 rest.
Proof.
  induction 1 as [|c body Hc _ IH]; [reflexivity|].
  rewrite <- !app_comm_cons. cbn [removeFrom].
  now rewrite (startsWith_tick pat c _ Hc), IH.
Qed.

Lemma includes_noTick pat body rest :
  noTick body ->
  includes (body ++ rest) (96%N :: pat) = includes rest (96%N :: pat).
Proof.
  induction 1 as [|c body Hc _ IH]; [reflexivity|].
  rewrite <- app_comm_cons. cbn [includes].
  now rewrite (startsWith_tick pat c _ Hc), IH.
Qed.

Lemma trimStart_app s t : trimStart s <> [] -> trimStart (s ++ t) = trimStart s ++ t.
Proof.
  induction s as [|c s IH]; simpl; [congruence|].
  destruct (is_white c); [exact IH | reflexivity].
Qed.

Lemma trimStart_white_snoc s c :
  trimStart s = [] -> is_white c = true -> trimStart (s ++ [c]) = [].
Proof.
  intros Hs Hc. induction s as [|d s IH]; simpl in *.
  - now rewrite Hc.
  - destruct (is_white d); [auto | discriminate].
Qed.

Lemma trimEnd_white_snoc s c : is_white c = true -> trimEnd (s ++ [c]) = trimEnd s.
Proof.
  intros Hc. unfold trimEnd. rewrite rev_app_distr. simpl. now rewrite Hc.
Qed.

(** Whitespace at the end does not change the trimmed string. *)
Lemma trim_white_snoc s c : is_white c = true -> trim (s ++ [c]) = trim s.
Proof.
  intros Hc. unfold trim.
  destruct (trimStart s) as [|d t] eqn:E.
  - now rewrite (trimStart_white_snoc s c E Hc).
  - rewrite trimStart_app by (rewrite E; discriminate).
    rewrite E. now apply trimEnd_white_snoc.
Qed.

(** X10: a body without backticks comes back from the fence stripping as
    it went in when it is not fenced, and trimmed when it is wrapped in a
    json-tagged or an untagged fenced block. *)
Theorem stripFences_unwraps (body : jsstring) :
  noTick body ->
  stripFences body = body /\
  stripFences (js "```json" ++ [10%N] ++ body ++ [10%N] ++ js "```") = trim body /\
  stripFences (js "```" ++ [10%N] ++ body ++ [10%N] ++ js "```") = trim body.
Proof.
  intros Hbody.
  assert (Hend : forall pat tail,
            removeFrom (96%N :: pat) 0 (body ++ tail)
            = body ++ removeFrom (96%N :: pat) 0 tail)
    by (intros; now apply removeFrom_noTick).
  assert (Hinc : forall pat tail,
            includes (body ++ tail) (96%N :: pat) = includes tail (96%N :: pat))
    by (intros; now apply includes_noTick).
  split; [|split].
  - unfold stripFences.
    rewrite <- (app_nil_r body).
    change fence_json with (96%N :: [96; 96; 106; 115; 111; 110]%N).
    change fence with (96%N :: [96; 96]%N).
    rewrite !Hinc. reflexivity.
  - unfold stripFences.
    change (includes (js "```json" ++ [10%N] ++ body ++ [10%N] ++ js "```") fence_json)
      with true.
    cbv iota.
    change (removeAll fence_json (js "```json" ++ [10%N] ++ body ++ [10%N] ++ js "```"))
      with (removeFrom (96%N :: [96; 96; 106; 115; 111; 110]%N) 0
              (body ++ [10%N] ++ js "```")).
    rewrite Hend.
    change (removeFrom (96%N :: [96; 96; 106; 115; 111; 110]%N) 0 ([10%N] ++ js "```"))
      with ([10; 96; 96; 96]%N).
    unfold removeAll. change fence with (96%N :: [96; 96]%N).
    rewrite Hend.
    change (removeFrom (96%N :: [96; 96]%N) 0 [10; 96; 96; 96]%N) with [10%N].
    now apply trim_white_snoc.
  - unfold stripFences.
    change (js "```" ++ [10%N] ++ body ++ [10%N] ++ js "```")
      with ([96; 96; 96; 10]%N ++ (body ++ [10; 96; 96; 96]%N)).
    assert (Hnot : includes ([96; 96; 96; 10]%N ++ body ++ [10; 96; 96; 96]%N) fence_json
                   = false).
    { change fence_json with (96%N :: [96; 96; 106; 115; 111; 110]%N).
      change (includes ([96; 96; 96; 10]%N ++ body ++ [10; 96; 96; 96]%N)
                (96%N :: [96; 96; 106; 115; 111; 110]%N))
        with (includes (body ++ [10; 96; 96; 96]%N)
                (96%N :: [96; 96; 106; 115; 111; 110]%N)).
      rewrite Hinc. reflexivity. }
    rewrite Hnot.
    change (includes ([96; 96; 96; 10]%N ++ body ++ [10; 96; 96; 96]%N) fence) with true.
    cbv iota.
    change (removeAll fence ([96; 96; 96; 10]%N ++ body ++ [10; 96; 96; 96]%N))
      with (removeFrom (96%N :: [96; 96]%N) 0 (body ++ [10; 96; 96; 96]%N)).
    rewrite Hend.
    change (removeFrom (96%N :: [96; 96]%N) 0 [10; 96; 96; 96]%N) with [10%N].
    now apply trim_white_snoc.
Qed.

Lemma stripFences_unwraps_witness :
  stripFences (js "[{}]") = js "[{}]" /\
  stripFences (js "```json" ++ [10%N] ++ js "[{}]" ++ [10%N] ++ js "```")
  = trim (js "[{}]") /\
  stripFences (js "```" ++ [10%N] ++ js "[{}]" ++ [10%N] ++ js "```")
  = trim (js "[{}]").
Proof.
  apply (stripFences_unwraps (js "[{}]")).
  repeat constructor; discriminate.
Defined.

(** ** More on the remote path *)

(** X11: the remote path returns questions only when a key is configured,
    the fetch resolves with an ok status, the body holds a string at
    [choices[0].message.content], and that string, trimmed and stripped of
    fences, parses to an array all of whose candidates validate; the
    result then has one question per candidate, whatever count was asked
    for. *)
Theorem generateQuizQuestions_success (env : Env) (subject : jsstring)
  (difficulty : Difficulty) (numberOfQuestions : nat) (qs : list Question) :
  generateQuizQuestions env subject difficulty numberOfQuestions = Ok qs ->
  truthy (OPENAI_API_KEY env) = true /\
  exists response data choices choice message text candidates,
    fetch env = Ok response /\ ok response = true /\
    json response = Ok data /\
    get data (js "choices") = Some choices /\
    index0 choices = Some choice /\
    get choice (js "message") = Some message /\
    get message (js "content") = Some (VStr text) /\
    JSON_parse env (stripFences (trim text)) = Ok (VArr candidates) /\
    validateFrom 0 candidates = Ok qs /\
    length qs = length candidates.
Proof.
  unfold generateQuizQuestions.
  destruct (truthy (OPENAI_API_KEY env)); simpl; [|discriminate].
  destruct (fetch env) as [response|e]; simpl; [|discriminate].
  destruct (ok response) eqn:Hok; simpl.
  2:{ destruct (json response) as [err|e]; simpl; [|discriminate].
      destruct (orTypeError (get err (js "error"))); simpl; discriminate. }
  destruct (json response) as [data|e] eqn:Hjson; simpl; [|discriminate].
  destruct (get data (js "choices")) as [choices|] eqn:Hchoices; simpl;
    [|discriminate].
  destruct (index0 choices) as [choice|] eqn:Hchoice; simpl; [|discriminate].
  destruct (get choice (js "message")) as [message|] eqn:Hmessage; simpl;
    [|discriminate].
  destruct (get message (js "content")) as [content|] eqn:Hcontent; simpl;
    [|discriminate].
  destruct content as [| | | |text| |]; try discriminate.
  destruct (JSON_parse env (stripFences (trim text))) as [parsed|e] eqn:Hparse;
    simpl; [|discriminate].
  destruct parsed as [| | | | |cands|]; try discriminate.
  intros Hval. split; [reflexivity|].
  exists response, data, choices, choice, message, text, cands.
  repeat split; try reflexivity; try assumption.
  rewrite (validateFrom_normalized _ _ _ Hval). apply length_map.
Qed.

Lemma generateQuizQuestions_success_witness :
  generateQuizQuestions env_one_question (js "DevOps") easy 5 = Ok [padded_question] /\
  truthy (OPENAI_API_KEY env_one_question) = true /\
  exists response data choices choice message text candidates,
    fetch env_one_question = Ok response /\ ok response = true /\
    json response = Ok data /\
    get data (js "choices") = Some choices /\
    index0 choices = Some choice /\
    get choice (js "message") = Some message /\
    get message (js "content") = Some (VStr text) /\
    JSON_parse env_one_question (stripFences (trim text)) = Ok (VArr candidates) /\
    validateFrom 0 candidates = Ok [padded_question] /\
    length [padded_question] = length candidates.
Proof.
  split; [reflexivity|].
  apply (generateQuizQuestions_success env_one_question (js "DevOps") easy 5).
  reflexivity.
Defined.

(** ** Acquisition absorbs every error *)

(** Past the reading of the response, the remote path is the parse of the
    stripped content followed by the validation of the candidates. *)
Lemma generateQuizQuestions_parsed env subject difficulty n
  response data choices choice message text :
  truthy (OPENAI_API_KEY env) = true ->
  fetch env = Ok response -> ok response = true -> json response = Ok data ->
  get data (js "choices") = Some choices -> index0 choices = Some choice ->
  get choice (js "message") = Some message ->
  get message (js "content") = Some (VStr text) ->
  generateQuizQuestions env subject difficulty n
  = (questions ← JSON_parse env (stripFences (trim text));
     match questions with
     | VArr candidates => validateFrom 0 candidates
     | _ => Throw (Error ExpectedArray)
     end).
Proof.
  intros Hkey Hfetch Hok Hjson Hchoices Hchoice Hmessage Hcontent.
  unfold generateQuizQuestions.
  rewrite Hkey, Hfetch. simpl. rewrite Hok, Hjson. simpl.
  rewrite Hchoices. simpl. rewrite Hchoice. simpl. rewrite Hmessage. simpl.
  rewrite Hcontent. reflexivity.
Qed.

(** A batch of acceptable candidates is accepted, as the list of their
    cleaned questions. *)
Lemma validateFrom_accepts cands index :
  Forall (fun c => exists q, validateQuestion c 0 = Ok q) cands ->
  validateFrom index cands = Ok (map normalized cands).
Proof.
  intros H. revert index.
  induction H as [|c cands [q Hq] _ IH]; intros index; simpl; [reflexivity|].
  rewrite (validateQuestion_position c 0 index q Hq). simpl.
  rewrite IH. simpl.
  apply validateQuestion_Ok in Hq as (_ & -> & _). reflexivity.
Qed.

(** A batch with a candidate that is not acceptable is rejected. *)
Lemma validateFrom_rejects cands index :
  Exists (fun c => forall q, validateQuestion c 0 <> Ok q) cands ->
  exists e, validateFrom index cands = Throw e.
Proof.
  revert index. induction cands as [|c cands IH]; intros index Hex.
  - inversion Hex.
  - simpl. apply Exists_cons in Hex as [Hc | Hex].
    + destruct (validateQuestion c index) as [q|e] eqn:Hq; simpl; [|eauto].
      exfalso. apply (Hc q). eapply validateQuestion_position, Hq.
    + destruct (validateQuestion c index) as [q|e]; simpl; [|eauto].
      destruct (IH (S index) Hex) as [e ->]. simpl. eauto.
Qed.

(** C1, counterexample: a response whose content is the empty array passes
    every stage of the remote path.  Acquisition returns the empty list,
    and the quiz screen that follows has no question to show and no
    control to click. *)
Lemma acquireQuestions_accepts_empty_batch :
  generateQuizQuestions env_empty_batch (js "Algorithms") easy 5 = Ok [] /\
  App.acquireQuestions env_empty_batch (js "Algorithms") easy 5 = Ok [] /\
  let p := mount (App.handleSelectSubject env_empty_batch App.init
                    (js "Algorithms") easy) in
  App.appState (app p) = quiz /\
  App.questions (app p) = [] /\
  enabled p (AnswerClick 0) = false /\
  enabled p NextClick = false.
Proof. repeat split; reflexivity. Qed.

(** C1 (amended): for every subject, difficulty and count, acquisition
    never raises.  Every exception of the remote path is answered with the
    bank's five questions for the subject and difficulty, each of which
    the validator accepts unchanged: a missing key, a rejected fetch, a
    status outside 2xx, content that does not parse or is no array, a
    candidate that fails validation.  When every candidate validates, the
    batch is returned as it is, one cleaned question per candidate
    whatever the count asked for; such a batch may be empty.  Every
    question returned has four options and an answer key within 0..3, and
    [handleSelectSubject] ends on the quiz screen with the list returned
    and no error. *)
Theorem acquireQuestions_absorbs_errors (env : Env) (st : App.state)
  (subject : jsstring) (difficulty : Difficulty) (count : nat) :
  (forall k, in_unit (Math_random env k)) ->
  let bank := generateMockQuestions (Math_random env) subject difficulty in
  let acquired := App.acquireQuestions env subject difficulty count in
  (length bank = 5 /\
   bank ≡ₚ selectQuestions subject difficulty /\
   Forall (fun q => forall index, validateQuestion (to_value q) index = Ok q) bank) /\
  (forall e, generateQuizQuestions env subject difficulty count = Throw e ->
             acquired = Ok bank) /\
  (truthy (OPENAI_API_KEY env) = false -> acquired = Ok bank) /\
  (truthy (OPENAI_API_KEY env) = true ->
   (forall e, fetch env = Throw e -> acquired = Ok bank) /\
   (forall response, fetch env = Ok response -> ok response = false ->
                     acquired = Ok bank) /\
   (forall response data choices choice message text,
      fetch env = Ok response -> ok response = true ->
      json response = Ok data ->
      get data (js "choices") = Some choices ->
      index0 choices = Some choice ->
      get choice (js "message") = Some message ->
      get message (js "content") = Some (VStr text) ->
      let parsed := JSON_parse env (stripFences (trim text)) in
      (forall e, parsed = Throw e -> acquired = Ok bank) /\
      (forall v, parsed = Ok v -> (forall candidates, v <> VArr candidates) ->
                 acquired = Ok bank) /\
      (forall candidates, parsed = Ok (VArr candidates) ->
         (Exists (fun c => forall q, validateQuestion c 0 <> Ok q) candidates ->
          acquired = Ok bank) /\
         (Forall (fun c => exists q, validateQuestion c 0 = Ok q) candidates ->
          acquired = Ok (map normalized candidates) /\
          length (map normalized candidates) = length candidates)))) /\
  (exists qs,
     acquired = Ok qs /\ Forall wellFormed qs /\
     (qs = bank \/ generateQuizQuestions env subject difficulty count = Ok qs)) /\
  (let st' := App.handleSelectSubject env st subject difficulty in
   App.appState st' = quiz /\ App.error st' = None /\ App.loading st' = false /\
   App.acquireQuestions env subject difficulty 5 = Ok (App.questions st')).
Proof.
  intros Hrand bank acquired.
  assert (Hthrow : forall e,
             generateQuizQuestions env subject difficulty count = Throw e ->
             acquired = Ok bank).
  { intros e He. unfold acquired, App.acquireQuestions. now rewrite He. }
  destruct (generateMockQuestions_five (Math_random env) subject difficulty)
    as [Hlen Hall].
  split; [|split; [exact Hthrow|split; [|split; [|split]]]].
  - split; [exact Hlen|]. split; [apply generateMockQuestions_Permutation|].
    eapply Forall_impl; [exact Hall|].
    intros q [Hclean _] index. now apply validate_clean.
  - intros Hkey. eapply Hthrow, generateQuizQuestions_no_key, Hkey.
  - intros Hkey. split; [|split].
    + intros e He. apply (Hthrow e).
      unfold generateQuizQuestions. now rewrite Hkey, He.
    + intros response Hfetch Hok.
      assert (Hgen : exists e,
                 generateQuizQuestions env subject difficulty count = Throw e).
      { unfold generateQuizQuestions. rewrite Hkey, Hfetch. simpl. rewrite Hok. simpl.
        destruct (json response) as [err|e]; simpl; [|eauto].
        destruct (orTypeError (get err (js "error"))); simpl; eauto. }
      destruct Hgen as [e He]. now apply (Hthrow e).
    + intros response data choices choice message text
        Hfetch Hok Hjson Hchoices Hchoice Hmessage Hcontent parsed.
      pose proof (generateQuizQuestions_parsed env subject difficulty count
                    response data choices choice message text
                    Hkey Hfetch Hok Hjson Hchoices Hchoice Hmessage Hcontent)
        as Hgen.
      fold parsed in Hgen.
      split; [|split].
      * intros e He. apply (Hthrow e). now rewrite Hgen, He.
      * intros v Hv Hnot. apply (Hthrow (Error ExpectedArray)).
        rewrite Hgen, Hv. simpl.
        destruct v; try reflexivity. now destruct (Hnot elems).
      * intros candidates Hparsed. rewrite Hparsed in Hgen. simpl in Hgen.
        split.
        -- intros Hex. destruct (validateFrom_rejects candidates 0 Hex) as [e He].
           apply (Hthrow e). now rewrite Hgen.
        -- intros Hok'. split; [|apply length_map].
           unfold acquired, App.acquireQuestions.
           now rewrite Hgen, (validateFrom_accepts candidates 0 Hok').
  - unfold acquired, App.acquireQuestions.
    destruct (generateQuizQuestions env subject difficulty count) as [qs|e] eqn:Hgen.
    + exists qs. split; [reflexivity|]. split; [|now right].
      eapply generateQuizQuestions_wellFormed, Hgen.
    + exists bank. split; [reflexivity|]. split; [|now left].
      eapply Forall_impl; [exact Hall|].
      intros q [Hclean _]. now apply clean_wellFormed.
  - cbv zeta.
    destruct (handleSelectSubject_settles env st subject difficulty)
      as (qs & -> & Hacq & _).
    simpl. auto.
Qed.

Lemma acquireQuestions_absorbs_errors_witness :
  generateQuizQuestions env_invalid_batch (js "DevOps") hard 5
    = Throw (Error (MissingQuestionText 1)) /\
  App.acquireQuestions env_invalid_batch (js "DevOps") hard 5
    = Ok (generateMockQuestions sample_random (js "DevOps") hard) /\
  length (generateMockQuestions sample_random (js "DevOps") hard) = 5 /\
  App.acquireQuestions env_one_question (js "DevOps") easy 5
    = Ok (map normalized [padded_candidate]).
Proof.
  pose proof (acquireQuestions_absorbs_errors env_invalid_batch App.init
                (js "DevOps") hard 5 sample_random_unit)
    as ((Hlen & _) & Hthrow & _).
  pose proof (acquireQuestions_absorbs_errors env_one_question App.init
                (js "DevOps") easy 5 sample_random_unit)
    as (_ & _ & _ & Hremote & _).
  split; [reflexivity|]. split; [|split; [exact Hlen|]].
  - apply (Hthrow (Error (MissingQuestionText 1))). reflexivity.
  - destruct (Hremote eq_refl) as (_ & _ & Hparsed).
    destruct (Hparsed _ _ _ _ _ _ eq_refl eq_refl eq_refl eq_refl eq_refl eq_refl
                eq_refl) as (_ & _ & Hcands).
    destruct (Hcands [padded_candidate] eq_refl) as [_ Hok].
    apply Hok. repeat constructor. eexists. reflexivity.
Defined.

(** ** More on the shuffle *)

Lemma swap_length {A} (a : list A) i j : length (swap a i j) = length a.
Proof. apply Permutation_length, swap_Permutation. Qed.

Lemma swap_lookup_other {A} (a : list A) i j p :
  p <> i -> p <> j -> swap a i j !! p = a !! p.
Proof.
  intros Hi Hj. unfold swap.
  destruct (a !! j); [|reflexivity]. destruct (a !! i); [|reflexivity].
  now rewrite !list_lookup_insert_ne by congruence.
Qed.

Lemma swap_lookup_first {A} (a : list A) i j :
  i < length a -> j < length a -> swap a i j !! i = a !! j.
Proof.
  intros Hi Hj. unfold swap.
  destruct (lookup_lt_is_Some_2 a j Hj) as [aj Haj].
  destruct (lookup_lt_is_Some_2 a i Hi) as [ai Hai].
  rewrite Haj, Hai.
  destruct (decide (i = j)) as [->|Hne].
  - rewrite list_lookup_insert_eq by (rewrite length_insert; lia). congruence.
  - rewrite list_lookup_insert_ne by congruence.
    now rewrite list_lookup_insert_eq by lia.
Qed.

(** Round [i] and the rounds after it leave the positions above [i] alone. *)
Lemma shuffleLoop_above {A} (rand : nat -> Q) (i k p : nat) (a : list A) :
  (forall m, in_unit (rand m)) ->
  i < p -> shuffleLoop rand k i a !! p = a !! p.
Proof.
  intros Hrand. revert k a. induction i as [|i IH]; intros k a Hp; simpl;
    [reflexivity|].
  rewrite IH by lia.
  pose proof (randomIndex_le (rand k) (S i) (Hrand k)).
  apply swap_lookup_other; lia.
Qed.

(** X12: the element that ends in the last position of the shuffled array
    is the one at the index drawn in the first round, an index of the
    array, and no later round moves it. *)
Theorem shuffleArray_last_position {A : Type} (rand : nat -> Q) (array : list A) :
  (forall k, in_unit (rand k)) ->
  array <> [] ->
  let last := length array - 1 in
  randomIndex (rand 0) last < length array /\
  shuffleArray rand array !! last = array !! randomIndex (rand 0) last.
Proof.
  intros Hrand Hne. cbv zeta.
  pose proof (randomIndex_le (rand 0) (length array - 1) (Hrand 0)) as Hj.
  assert (Hlen : 0 < length array) by (destruct array; [congruence | simpl; lia]).
  split; [lia|].
  unfold shuffleArray.
  destruct (length array - 1) as [|i] eqn:Hlast.
  - simpl. now replace (randomIndex (rand 0) 0) with 0 by lia.
  - simpl. rewrite (shuffleLoop_above rand i 1 (S i) _ Hrand) by lia.
    apply swap_lookup_first; lia.
Qed.

Lemma shuffleArray_last_position_witness :
  randomIndex below_five_sixths 5 = 5 /\
  shuffleArray (fun _ => below_five_sixths) [10; 20; 30; 40; 50; 60] !! 5 = Some 60.
Proof.
  split; [reflexivity|].
  apply (shuffleArray_last_position (fun _ => below_five_sixths)
           [10; 20; 30; 40; 50; 60] (fun _ => below_five_sixths_unit)).
  discriminate.
Defined.

Lemma shuffleLoop_draws {A} (rand rand' : nat -> Q) (i k : nat) (a : list A) :
  (forall m, k <= m < k + i -> rand m = rand' m) ->
  shuffleLoop rand k i a = shuffleLoop rand' k i a.
Proof.
  revert k a. induction i as [|i IH]; intros k a Hsame; simpl; [reflexivity|].
  rewrite (Hsame k) by lia. apply IH. intros m Hm. apply Hsame. lia.
Qed.

(** X13: the shuffle reads [Math.random] once per round only: two sources
    that agree on their first [length - 1] numbers give the same result,
    and an array of at most one element is returned as it is. *)
Theorem shuffleArray_draws {A : Type} (rand rand' : nat -> Q) (array : list A) :
  (forall k, k < length array - 1 -> rand k = rand' k) ->
  shuffleArray rand array = shuffleArray rand' array /\
  (length array <= 1 -> shuffleArray rand array = array).
Proof.
  intros Hsame. split.
  - apply shuffleLoop_draws. intros m Hm. apply Hsame. lia.
  - intros Hlen. unfold shuffleArray.
    now replace (length array - 1) with 0 by lia.
Qed.

Lemma shuffleArray_draws_witness :
  shuffleArray sample_random [10; 20; 30]
  = shuffleArray (fun k => if (k <? 2)%nat then sample_random k else 5 # 7) [10; 20; 30] /\
  (length [10; 20; 30] <= 1 -> shuffleArray sample_random [10; 20; 30] = [10; 20; 30]).
Proof.
  apply (shuffleArray_draws sample_random
           (fun k => if (k <? 2)%nat then sample_random k else 5 # 7) [10; 20; 30]).
  intros k Hk. simpl in Hk.
  destruct k as [|[|k]]; [reflexivity | reflexivity | lia].
Defined.

(** ** More on the bank *)

(** No two questions of a list of the bank have the same text, by
    evaluation. *)
Lemma mockQuestions_distinct :
  forallb (fun entry =>
             forallb (fun d => bool_decide (NoDup (map question (level entry d))))
                     [easy; medium; hard])
          (map snd mockQuestions) = true.
Proof. vm_compute. reflexivity. Qed.

(** X14: the fallback quiz consists of all five questions of the selected
    list, each exactly once, in some order: no question is dropped and no
    text appears twice. *)
Theorem generateMockQuestions_whole_list (rand : nat -> Q) (subject : jsstring)
  (difficulty : Difficulty) :
  let qs := generateMockQuestions rand subject difficulty in
  length qs = 5 /\
  qs ≡ₚ selectQuestions subject difficulty /\
  NoDup (map question qs).
Proof.
  cbv zeta.
  pose proof (generateMockQuestions_Permutation rand subject difficulty) as Hperm.
  split; [apply generateMockQuestions_five|]. split; [exact Hperm|].
  rewrite (Permutation_map question Hperm).
  destruct (selectQuestions_level subject difficulty) as (entry & d & Hin & ->).
  pose proof mockQuestions_distinct as H. rewrite forallb_forall in H.
  specialize (H entry Hin). rewrite forallb_forall in H.
  eapply bool_decide_eq_true_1, H. destruct d; simpl; auto.
Qed.

(** ** The results screen *)

(** X15: the colour and the message of the results screen change at the
    same percentages: two percentages get the same colour exactly when
    they get the same message. *)
Theorem performance_bands_agree (p p' : Z) :
  Results.getPerformanceColor p = Results.getPerformanceColor p' <->
  Results.getPerformanceMessage p = Results.getPerformanceMessage p'.
Proof.
  unfold Results.getPerformanceColor, Results.getPerformanceMessage.
  destruct (p =? 100)%Z, (p >=? 80)%Z, (p >=? 60)%Z, (p >=? 40)%Z,
           (p' =? 100)%Z, (p' >=? 80)%Z, (p' >=? 60)%Z, (p' >=? 40)%Z;
    split; intros H; try reflexivity; exfalso; vm_compute in H; discriminate H.
Qed.

(** ** More on the whole application *)

(** X16: Select Another Subject on the results screen puts the
    application back into the state it loads in, with a selection screen
    on difficulty medium and no subject selected; there Start does nothing
    until a subject card is clicked. *)
Theorem new_subject_resets (actions : list action) :
  let sys := run actions in
  let sys' := dispatch sys NewSubjectClick in
  App.appState (app (page sys)) = results ->
  app (page sys') = App.init /\
  selecting sys' = SubjectSelection.init /\
  (forall env, dispatch sys' (StartClick env) = sys') /\
  (forall env k s,
     SubjectSelection.subjects !! k = Some s ->
     App.selectedSubject
       (app (page (dispatch (dispatch sys' (SubjectClick k)) (StartClick env))))
     = Some (SubjectSelection.name s) /\
     App.selectedDifficulty
       (app (page (dispatch (dispatch sys' (SubjectClick k)) (StartClick env))))
     = Some medium).
Proof.
  cbv zeta. intros Hres.
  destruct (run_system_inv actions) as (_ & Hload & _ & Hstate).
  rewrite Hres in Hstate. destruct Hstate as (_ & r & Hr & _).
  assert (Hto : dispatch (run actions) NewSubjectClick
                = {| page := {| app := App.init;
                                display := display (page (run actions)) |};
                     selecting := SubjectSelection.init |}).
  { simpl. unfold resultsShown. rewrite Hres, Hr.
    unfold toSelection, App.handleSelectNewSubject. now rewrite Hload. }
  rewrite Hto. split; [reflexivity|]. split; [reflexivity|].
  split; [reflexivity|].
  intros env k s Hk. simpl. rewrite Hk. simpl.
  destruct (handleSelectSubject_settles env App.init (SubjectSelection.name s) medium)
    as (qs & -> & _). split; reflexivity.
Qed.

Lemma new_subject_resets_witness :
  let sys' := dispatch (run sample_session) NewSubjectClick in
  app (page sys') = App.init /\
  selecting sys' = SubjectSelection.init /\
  (forall env, dispatch sys' (StartClick env) = sys') /\
  (forall env k s,
     SubjectSelection.subjects !! k = Some s ->
     App.selectedSubject
       (app (page (dispatch (dispatch sys' (SubjectClick k)) (StartClick env))))
     = Some (SubjectSelection.name s) /\
     App.selectedDifficulty
       (app (page (dispatch (dispatch sys' (SubjectClick k)) (StartClick env))))
     = Some medium).
Proof.
  cbv zeta. apply (new_subject_resets sample_session). reflexivity.
Defined.

(** A click on any option of an unanswered question records it, and adds
    a point when it is the correct one. *)
Lemma click_option (a : App.state) (st : QuizDisplay.state) q c :
  App.appState a = quiz -> App.loading a = false ->
  App.questions a !! QuizDisplay.currentQuestion st = Some q ->
  QuizDisplay.selectedAnswers st !! QuizDisplay.currentQuestion st = None ->
  c < length (options q) ->
  click {| app := a; display := st |} (AnswerClick c)
  = {| app := a;
       display := {| QuizDisplay.currentQuestion := QuizDisplay.currentQuestion st;
                     QuizDisplay.score :=
                       QuizDisplay.score st
                       + (if QuizDisplay.strictEq c (correctAnswer q) then 1 else 0);
                     QuizDisplay.selectedAnswers :=
                       <[QuizDisplay.currentQuestion st := c]> (QuizDisplay.selectedAnswers st);
                     QuizDisplay.showResult := true |} |}.
Proof.
  intros Hquiz Hload Hq Hnone Hlt.
  unfold click, enabled, QuizDisplay.isAnswered, QuizDisplay.handleAnswerClick.
  simpl. rewrite Hquiz, Hload, Hq, Hnone. simpl.
  apply Nat.ltb_lt in Hlt. rewrite Hlt.
  destruct (QuizDisplay.strictEq c (correctAnswer q));
    [reflexivity | now rewrite Nat.add_0_r].
Qed.

Lemma answerAll_any_run (a : App.state) (rest : list Question) (cs : list nat) :
  Forall2 (fun q c => c < length (options q)) rest cs ->
  forall (done : list Question) (s : nat) (answers : gmap nat nat) (sr : bool),
  App.appState a = quiz -> App.loading a = false ->
  App.questions a = done ++ rest ->
  rest <> [] ->
  (forall i, length done <= i -> answers !! i = None) ->
  let p := {| app := a;
              display := {| QuizDisplay.currentQuestion := length done;
                            QuizDisplay.score := s;
                            QuizDisplay.selectedAnswers := answers;
                            QuizDisplay.showResult := sr |} |} in
  let p' := fold_left click (answerAll cs) p in
  App.appState (app p') = results /\
  App.quizResults (app p')
  = Some (mkResults (s + correctPicks rest cs) (length (done ++ rest))).
Proof.
  induction 1 as [|q c rest cs Hc Hrest IH];
    intros done s answers sr Hquiz Hload Hqs Hne Hfree; [congruence|].
  cbv zeta.
  change (answerAll (c :: cs)) with (AnswerClick c :: NextClick :: answerAll cs).
  cbn [fold_left].
  assert (Hq : App.questions a !! length done = Some q).
  { rewrite Hqs. apply list_lookup_middle. reflexivity. }
  assert (Hnone : answers !! length done = None) by (apply Hfree; lia).
  set (pt := if QuizDisplay.strictEq c (correctAnswer q) then 1 else 0).
  pose proof (click_option a
                {| QuizDisplay.currentQuestion := length done;
                   QuizDisplay.score := s;
                   QuizDisplay.selectedAnswers := answers;
                   QuizDisplay.showResult := sr |} q c Hquiz Hload Hq Hnone Hc)
    as Hfirst.
  cbn [QuizDisplay.currentQuestion QuizDisplay.score QuizDisplay.selectedAnswers]
    in Hfirst.
  rewrite Hfirst. clear Hfirst. fold pt.
  pose proof (click_next a
                {| QuizDisplay.currentQuestion := length done;
                   QuizDisplay.score := s + pt;
                   QuizDisplay.selectedAnswers := <[length done := c]> answers;
                   QuizDisplay.showResult := true |} q Hquiz Hload Hq)
    as Hsecond.
  cbn [QuizDisplay.currentQuestion QuizDisplay.score QuizDisplay.selectedAnswers]
    in Hsecond.
  rewrite Hsecond by (rewrite lookup_insert_eq; eauto). clear Hsecond.
  unfold QuizDisplay.handleNext.
  cbn [QuizDisplay.currentQuestion QuizDisplay.score QuizDisplay.selectedAnswers].
  rewrite Hqs, length_app. cbn [length correctPicks]. fold pt.
  destruct rest as [|q' rest].
  - inversion Hrest; subst. cbn [length correctPicks].
    replace (length done <? length done + 1 - 1)%nat with false
      by (symmetry; apply Nat.ltb_ge; lia).
    cbn. split; [reflexivity|]. do 2 f_equal; lia.
  - replace (length done <? length done + S (length (q' :: rest)) - 1)%nat with true
      by (symmetry; apply Nat.ltb_lt; cbn [length]; lia).
    specialize (IH (done ++ [q]) (s + pt) (<[length done := c]> answers) false
                  Hquiz Hload).
    rewrite length_app in IH. cbn [length] in IH.
    cbv zeta in IH.
    destruct IH as [IH1 IH2].
    + rewrite Hqs, <- app_assoc. reflexivity.
    + discriminate.
    + intros i Hi. rewrite lookup_insert_ne by lia. apply Hfree. lia.
    + split; [exact IH1|]. rewrite IH2.
      f_equal. f_equal; rewrite ?length_app; cbn [length]; lia.
Qed.

(** X17: a quiz in which every question is answered once, with any of
    its options, and left with Next ends on the results screen, and the
    reported score is the number of questions that were answered with
    their correct option. *)
Theorem complete_run_scores_correct_picks (a : App.state) (cs : list nat) :
  App.appState a = quiz ->
  App.loading a = false ->
  App.questions a <> [] ->
  Forall2 (fun q c => c < length (options q)) (App.questions a) cs ->
  let p := fold_left click (answerAll cs) (mount a) in
  App.appState (app p) = results /\
  App.quizResults (app p)
  = Some (mkResults (correctPicks (App.questions a) cs) (length (App.questions a))).
Proof.
  intros Hquiz Hload Hne Hcs.
  apply (answerAll_any_run a (App.questions a) cs Hcs [] 0 ∅ false
           Hquiz Hload eq_refl Hne).
  intros i _. apply lookup_empty.
Qed.

Lemma complete_run_scores_correct_picks_witness :
  let a := App.handleSelectSubject env_no_key App.init (js "Algorithms") easy in
  let p := fold_left click (answerAll [0; 2; 1; 3; 1]) (mount a) in
  App.appState (app p) = results /\
  App.quizResults (app p) = Some (mkResults 3 5).
Proof.
  cbv zeta.
  apply (complete_run_scores_correct_picks
           (App.handleSelectSubject env_no_key App.init (js "Algorithms") easy)
           [0; 2; 1; 3; 1]).
  - reflexivity.
  - reflexivity.
  - intros H. vm_compute in H. discriminate H.
  - repeat constructor.
Defined.

(** ** Every order can come out of the shuffle *)

Lemma drawFor_bounds (j i : nat) :
  j <= i -> (Z.of_nat i < 2 ^ 32)%Z ->
  let c := ((Z.of_nat j * 2 ^ 53 + Z.of_nat i) / Z.of_nat (i + 1))%Z in
  (Z.of_nat j * 2 ^ 53 <= c * Z.of_nat (i + 1) <= Z.of_nat j * 2 ^ 53 + Z.of_nat i)%Z /\
  (0 <= c < 2 ^ 53)%Z.
Proof.
  intros Hj Hi c.
  assert (Hn : (0 < Z.of_nat (i + 1))%Z) by lia.
  pose proof (Z.div_mod (Z.of_nat j * 2 ^ 53 + Z.of_nat i) (Z.of_nat (i + 1))
                ltac:(lia)) as Hdm.
  pose proof (Z.mod_pos_bound (Z.of_nat j * 2 ^ 53 + Z.of_nat i) (Z.of_nat (i + 1)) Hn)
    as Hmod.
  fold c in Hdm.
  set (r := ((Z.of_nat j * 2 ^ 53 + Z.of_nat i) mod Z.of_nat (i + 1))%Z) in *.
  assert (HB : (2 ^ 32 < 2 ^ 53)%Z) by reflexivity.
  set (B := (2 ^ 53)%Z) in *. set (W := (2 ^ 32)%Z) in *.
  assert (HW : (0 < W)%Z) by reflexivity.
  clearbody c r B W.
  assert (Hni : Z.of_nat (i + 1) = (Z.of_nat i + 1)%Z) by lia.
  rewrite Hni in *.
  assert (Hji : (Z.of_nat j <= Z.of_nat i)%Z) by lia.
  split; [nia |]. split; nia.
Qed.

Lemma drawFor_unit (j i : nat) :
  j <= i -> (Z.of_nat i < 2 ^ 32)%Z -> in_unit (drawFor j i).
Proof.
  intros Hj Hi. destruct (drawFor_bounds j i Hj Hi) as [_ Hc].
  unfold drawFor.
  set (c := ((Z.of_nat j * 2 ^ 53 + Z.of_nat i) / Z.of_nat (i + 1))%Z) in *.
  split; [| split].
  - exists c, (-53)%Z. split; [lia |]. split; [lia |].
    rewrite (Qmake_Qdiv c (2 ^ 53)). reflexivity.
  - unfold Qle. simpl. lia.
  - unfold Qlt. simpl. change (Z.pos (2 ^ 53)) with (2 ^ 53)%Z. lia.
Qed.

Lemma drawFor_index (j i : nat) :
  j <= i -> (Z.of_nat i < 2 ^ 32)%Z -> randomIndex (drawFor j i) i = j.
Proof.
  intros Hj Hi. destruct (drawFor_bounds j i Hj Hi) as [[Hlo Hhi] Hc].
  unfold randomIndex, drawFor.
  set (c := ((Z.of_nat j * 2 ^ 53 + Z.of_nat i) / Z.of_nat (i + 1))%Z) in *.
  set (n := Z.of_nat (i + 1)) in *.
  set (x := ((c # 2 ^ 53) * inject_Z n)%Q).
  assert (Ex : (x == inject_Z (c * n) * (1 # 2 ^ 53))%Q).
  { unfold x. rewrite inject_Z_mult, (Qmake_Qdiv c (2 ^ 53)).
    change (inject_Z (Z.pos (2 ^ 53))) with (9007199254740992 # 1)%Q.
    change (1 # 2 ^ 53)%Q with (1 # 9007199254740992)%Q. field. }
  assert (HJ : (inject_Z (Z.of_nat j) <= x)%Q).
  { rewrite Ex. rewrite Zle_Qle in Hlo. rewrite !inject_Z_mult in Hlo.
    rewrite inject_Z_mult.
    change (inject_Z (2 ^ 53)) with (9007199254740992 # 1)%Q in Hlo.
    change (1 # 2 ^ 53)%Q with (1 # 9007199254740992)%Q. lra. }
  assert (HI : (inject_Z (Z.of_nat i) < 4294967296 # 1)%Q).
  { change (4294967296 # 1)%Q with (inject_Z (2 ^ 32)). now rewrite <- Zlt_Qlt. }
  assert (HjQ : (inject_Z (Z.of_nat j) <= inject_Z (Z.of_nat i))%Q)
    by (rewrite <- Zle_Qle; lia).
  assert (HU : (x <= inject_Z (Z.of_nat j) + inject_Z (Z.of_nat i) * (1 # 9007199254740992))%Q).
  { rewrite Ex. rewrite Zle_Qle in Hhi.
    rewrite inject_Z_plus, !inject_Z_mult in Hhi. rewrite inject_Z_mult.
    change (inject_Z (2 ^ 53)) with (9007199254740992 # 1)%Q in Hhi.
    change (1 # 2 ^ 53)%Q with (1 # 9007199254740992)%Q. lra. }
  assert (Hx0 : (0 <= x)%Q).
  { apply Qle_trans with (inject_Z (Z.of_nat j)); [| exact HJ].
    change 0%Q with (inject_Z 0). rewrite <- Zle_Qle. lia. }
  assert (Hx53 : (x < 2 ^ 53)%Q).
  { change (2 ^ 53)%Q with (9007199254740992 # 1)%Q. lra. }
  pose proof (round64_ge_int (Z.of_nat j) x ltac:(lia) HJ Hx53) as Hge.
  assert (Hlt : (round64 x < inject_Z (Z.of_nat j) + 1)%Q).
  { assert (Hb : ((1 # 2 ^ 1075) <= 1 # 18014398509481984)%Q)
      by (apply Qle_bool_iff; reflexivity).
    destruct (round64_le x Hx0) as [H | H];
      change (1 # 2 ^ 53)%Q with (1 # 9007199254740992)%Q in H; lra. }
  fold x.
  assert (Hfl : Qfloor (round64 x) = Z.of_nat j).
  { pose proof (Qfloor_le (round64 x)) as H1.
    pose proof (Qlt_floor (round64 x)) as H2.
    assert (H3 : (inject_Z (Qfloor (round64 x)) < inject_Z (Z.of_nat j + 1))%Q).
    { rewrite inject_Z_plus. change (inject_Z 1) with 1%Q. lra. }
    assert (H4 : (inject_Z (Z.of_nat j) < inject_Z (Qfloor (round64 x) + 1))%Q) by lra.
    rewrite <- Zlt_Qlt in H3, H4. lia. }
  rewrite Hfl. apply Nat2Z.id.
Qed.

Lemma swap_app_l {A} (pre suf : list A) i j :
  i < length pre -> j < length pre ->
  swap (pre ++ suf) i j = swap pre i j ++ suf.
Proof.
  intros Hi Hj. unfold swap.
  rewrite !lookup_app_l by assumption.
  destruct (lookup_lt_is_Some_2 pre j Hj) as [aj ->].
  destruct (lookup_lt_is_Some_2 pre i Hi) as [ai ->].
  rewrite insert_app_l by assumption.
  now rewrite insert_app_l by (rewrite length_insert; assumption).
Qed.

Lemma snoc_last {A} (l : list A) n x :
  length l = S n -> l !! n = Some x -> l = take n l ++ [x].
Proof.
  intros Hlen Hx. rewrite <- (take_S_r l n x Hx).
  symmetry. apply take_ge. lia.
Qed.

(** The loop started in round [length pre - 1] can turn [pre] into any of
    its orders, and leaves what follows [pre] alone. *)
Lemma shuffleLoop_reaches {A} (i : nat) :
  forall (pre suf target : list A) (k : nat),
    (Z.of_nat i < 2 ^ 32)%Z ->
    length pre = S i -> pre ≡ₚ target ->
    exists rand,
      (forall m, in_unit (rand m)) /\
      shuffleLoop rand k i (pre ++ suf) = target ++ suf.
Proof.
  induction i as [|i IH]; intros pre suf target k Hbound Hlen Hperm.
  - exists (fun _ => drawFor 0 0).
    split; [intros; now apply drawFor_unit|].
    simpl. destruct pre as [|x [|y pre]]; try discriminate.
    apply Permutation_singleton_l in Hperm. now subst.
  - assert (Hlent : length target = S (S i))
      by (rewrite <- (Permutation_length Hperm); exact Hlen).
    destruct (lookup_lt_is_Some_2 target (S i) ltac:(lia)) as [x Hx].
    pose proof (snoc_last target (S i) x Hlent Hx) as Htarget.
    assert (Hin : x ∈ pre).
    { rewrite Hperm. eapply list_elem_of_lookup_2, Hx. }
    apply list_elem_of_lookup_1 in Hin as [j Hj].
    pose proof (lookup_lt_Some _ _ _ Hj) as Hjlt.
    set (pre1 := swap pre (S i) j).
    assert (Hlen1 : length pre1 = S (S i)) by (unfold pre1; now rewrite swap_length).
    assert (Hx1 : pre1 !! S i = Some x).
    { unfold pre1. rewrite swap_lookup_first by lia. exact Hj. }
    pose proof (snoc_last pre1 (S i) x Hlen1 Hx1) as Hpre1.
    assert (Hperm1 : take (S i) pre1 ≡ₚ take (S i) target).
    { apply (Permutation_app_inv_r [x]).
      rewrite <- Hpre1, <- Htarget. unfold pre1.
      now rewrite swap_Permutation. }
    destruct (IH (take (S i) pre1) (x :: suf) (take (S i) target) (S k))
      as (rand' & Hunit' & Hloop').
    { lia. }
    { rewrite length_take. lia. }
    { exact Hperm1. }
    exists (fun m => if decide (m = k) then drawFor j (S i) else rand' m).
    split.
    + intros m. destruct (decide (m = k)); [apply drawFor_unit; lia | apply Hunit'].
    + simpl. destruct (decide (k = k)); [|congruence].
      rewrite drawFor_index, (swap_app_l pre suf (S i) j) by lia.
      fold pre1. rewrite Hpre1, <- app_assoc. simpl.
      rewrite (shuffleLoop_draws _ rand').
      * rewrite Hloop'. rewrite Htarget at 2. now rewrite <- app_assoc.
      * intros m Hm. destruct (decide (m = k)); [lia | reflexivity].
Qed.

(** X18: every order of the input can come out of the shuffle: for each
    permutation of an array of fewer than [2^32] elements, as every array
    of JavaScript has, there are doubles of the unit interval for
    [Math.random] to return with which [shuffleArray], multiplying and
    rounding as the code does, returns that permutation. *)
Theorem shuffleArray_reaches_every_order {A : Type} (array target : list A) :
  (Z.of_nat (length array) < 2 ^ 32)%Z ->
  array ≡ₚ target ->
  exists rand,
    (forall k, in_unit (rand k)) /\ shuffleArray rand array = target.
Proof.
  intros Hbound Hperm. destruct array as [|x array].
  - apply Permutation_nil_l in Hperm. subst.
    exists (fun _ => drawFor 0 0).
    split; [intros; now apply drawFor_unit | reflexivity].
  - destruct (shuffleLoop_reaches (length array) (x :: array) [] target 0)
      as (rand & Hunit & Hloop).
    { simpl length in Hbound. lia. }
    { reflexivity. }
    { exact Hperm. }
    exists rand. split; [exact Hunit|].
    unfold shuffleArray. rewrite !app_nil_r in Hloop.
    replace (length (x :: array) - 1) with (length array) by (simpl; lia).
    exact Hloop.
Qed.

Lemma sample_order : [10; 20; 30; 40] ≡ₚ [40; 10; 30; 20].
Proof.
  change [40; 10; 30; 20] with ([40] ++ 10 :: [30; 20]).
  apply Permutation_cons_app. exact (Permutation_rev [20; 30; 40]).
Qed.

Lemma shuffleArray_reaches_every_order_witness :
  exists rand,
    (forall k, in_unit (rand k)) /\
    shuffleArray rand [10; 20; 30; 40] = [40; 10; 30; 20].
Proof.
  apply (shuffleArray_reaches_every_order [10; 20; 30; 40] [40; 10; 30; 20]).
  - reflexivity.
  - exact sample_order.
Defined.

(** ** No fence is left *)

Lemma removeFrom_skip pat n s : removeFrom pat n s = removeFrom pat 0 (drop n s).
Proof.
  revert n. induction s as [|c s IH]; intros [|n]; try reflexivity.
  simpl. apply IH.
Qed.

Lemma removeFrom_cons pat c s :
  removeFrom pat 0 (c :: s)
  = if startsWith pat (c :: s)
    then removeFrom pat
           (length pat - 1 +
            match drop (length pat) (c :: s) with
            | 10%N :: _ => 1
            | _ => 0
            end) s
    else c :: removeFrom pat 0 s.
Proof. reflexivity. Qed.

Lemma includes_cons s pat c :
  includes (c :: s) pat = startsWith pat (c :: s) || includes s pat.
Proof. reflexivity. Qed.

Lemma startsWith_fence_1 c s :
  c <> 96%N -> startsWith [96; 96; 96]%N (96%N :: c :: s) = false.
Proof.
  intros Hc. cbn [startsWith]. rewrite N.eqb_refl.
  replace (96 =? c)%N with false by (symmetry; now apply N.eqb_neq).
  reflexivity.
Qed.

Lemma startsWith_fence_2 c s :
  c <> 96%N -> startsWith [96; 96; 96]%N (96%N :: 96%N :: c :: s) = false.
Proof.
  intros Hc. cbn [startsWith]. rewrite !N.eqb_refl.
  replace (96 =? c)%N with false by (symmetry; now apply N.eqb_neq).
  reflexivity.
Qed.

(** Removing the fences leaves none, and puts no backtick in front of a
    string that had none there. *)
Lemma removeAll_fence_none (n : nat) :
  forall s, length s <= n ->
    includes (removeFrom [96; 96; 96]%N 0 s) [96; 96; 96]%N = false /\
    (noTickFirst s -> noTickFirst (removeFrom [96; 96; 96]%N 0 s)).
Proof.
  induction n as [|n IH]; intros s Hlen.
  { destruct s; [split; [reflexivity | auto] | simpl in Hlen; lia]. }
  assert (Hplain : forall c t, c <> 96%N -> length t <= n ->
            includes (removeFrom [96; 96; 96]%N 0 (c :: t)) [96; 96; 96]%N = false /\
            removeFrom [96; 96; 96]%N 0 (c :: t)
            = c :: removeFrom [96; 96; 96]%N 0 t).
  { intros c t Hc Ht.
    rewrite removeFrom_cons, (startsWith_tick _ c t Hc).
    split; [|reflexivity].
    rewrite includes_cons, (startsWith_tick _ c _ Hc). apply IH, Ht. }
  destruct s as [|c s]; [split; [reflexivity | auto]|].
  simpl in Hlen.
  destruct (decide (c = 96%N)) as [->|Hc].
  2:{ destruct (Hplain c s Hc ltac:(lia)) as [H1 H2].
      split; [exact H1|]. intros _. rewrite H2. exact Hc. }
  split; [|intros H; now contradiction H].
  destruct s as [|c1 s]; [reflexivity|]. simpl in Hlen.
  destruct (decide (c1 = 96%N)) as [->|Hc1].
  2:{ rewrite removeFrom_cons, (startsWith_fence_1 c1 s Hc1).
      destruct (Hplain c1 s Hc1 ltac:(lia)) as [H1 H2].
      rewrite includes_cons, H1, H2.
      now rewrite (startsWith_fence_1 c1 _ Hc1). }
  destruct s as [|c2 s]; [reflexivity|]. simpl in Hlen.
  destruct (decide (c2 = 96%N)) as [->|Hc2].
  2:{ rewrite removeFrom_cons, (startsWith_fence_2 c2 s Hc2).
      rewrite removeFrom_cons, (startsWith_fence_1 c2 s Hc2).
      destruct (Hplain c2 s Hc2 ltac:(lia)) as [H1 H2].
      rewrite !includes_cons, H1, H2.
      now rewrite (startsWith_fence_2 c2 _ Hc2), (startsWith_fence_1 c2 _ Hc2). }
  rewrite removeFrom_cons.
  change (startsWith [96; 96; 96]%N (96%N :: 96%N :: 96%N :: s)) with true.
  cbv iota. rewrite removeFrom_skip. apply IH.
  rewrite length_drop. simpl. lia.
Qed.

Lemma startsWith_app pat m r :
  startsWith pat m = true -> startsWith pat (m ++ r) = true.
Proof.
  revert m. induction pat as [|p pat IH]; intros m; [reflexivity|].
  destruct m as [|c m]; [discriminate|]. simpl.
  intros H. apply andb_true_iff in H as [-> H]. simpl. now apply IH.
Qed.

Lemma includes_app_l m r pat :
  includes m pat = true -> includes (m ++ r) pat = true.
Proof.
  induction m as [|c m IH].
  - simpl. rewrite orb_false_r. intros H.
    pose proof (startsWith_app pat [] r H) as H'. simpl in H'.
    destruct r; simpl; rewrite H'; reflexivity.
  - rewrite <- app_comm_cons, !includes_cons.
    intros H. apply orb_true_iff in H as [H|H].
    + pose proof (startsWith_app pat (c :: m) r H) as H'.
      rewrite <- app_comm_cons in H'. now rewrite H'.
    + rewrite (IH H). apply orb_true_r.
Qed.

Lemma includes_app_r l s pat :
  includes s pat = true -> includes (l ++ s) pat = true.
Proof.
  intros H. induction l as [|c l IH]; [exact H|].
  rewrite <- app_comm_cons, includes_cons, IH. apply orb_true_r.
Qed.

Lemma includes_trim s pat : includes s pat = false -> includes (trim s) pat = false.
Proof.
  intros H. destruct (trim_surrounds s) as (l & r & Hs & _).
  destruct (includes (trim s) pat) eqn:E; [|reflexivity].
  rewrite Hs, (includes_app_r l _ pat (includes_app_l _ r pat E)) in H.
  discriminate.
Qed.

(** X19: whatever the content, the string handed to [JSON.parse] holds no
    run of three backticks: a fenced block is never parsed with its fence. *)
Theorem stripFences_leaves_no_fence (content : jsstring) :
  includes (stripFences content) fence = false.
Proof.
  assert (Hnone : forall s, includes (removeAll fence s) fence = false).
  { intros s. apply (removeAll_fence_none (length s) s). lia. }
  unfold stripFences.
  destruct (includes content fence_json).
  - apply includes_trim, Hnone.
  - destruct (includes content fence) eqn:E; [|exact E].
    apply includes_trim, Hnone.
Qed.

(** ** Unknown subjects and well-formed quizzes *)

(** X20: in the version of the bank with difficulties, a subject that is
    no key of the bank, the names every object inherits included, gets the
    default list at every difficulty: the five easy Data Structures
    questions, in some order. *)
Theorem unknown_subject_gets_default (rand : nat -> Q) (subject : jsstring)
  (difficulty : Difficulty) :
  own_property mockQuestions subject = None ->
  selectQuestions subject difficulty = DataStructures_easy /\
  generateMockQuestions rand subject difficulty ≡ₚ DataStructures_easy.
Proof.
  intros H.
  pose proof (selectQuestions_unknown subject difficulty H) as Hsel.
  split; [exact Hsel|].
  rewrite generateMockQuestions_Permutation. now rewrite Hsel.
Qed.

Lemma unknown_subject_gets_default_witness :
  selectQuestions (js "constructor") hard = DataStructures_easy /\
  generateMockQuestions sample_random (js "constructor") hard ≡ₚ DataStructures_easy.
Proof.
  apply (unknown_subject_gets_default sample_random (js "constructor") hard).
  reflexivity.
Defined.

(** X21: whatever happens, every question the application holds has
    exactly four options and an answer key within 0..3, whether it came
    from the remote path or from the bank. *)
Theorem held_questions_are_well_formed (actions : list action) :
  Forall wellFormed (App.questions (app (page (run actions)))).
Proof.
  destruct (run_system_inv actions) as (_ & _ & _ & Hstate).
  destruct (App.appState (app (page (run actions)))).
  - rewrite Hstate. constructor.
  - contradiction.
  - now destruct Hstate as ((s & d & _ & _ & _ & Hwf) & _).
  - now destruct Hstate as ((s & d & _ & _ & _ & Hwf) & _).
Qed.
